(** * FileSystemService: the storage abstraction layer of the notes application

    A shallow embedding of [src/services/FileSystemService.ts] and the
    properties of its specification.

    Conventions.
    - A JavaScript string is the list of its UTF-16 code units ([jsstring]);
      [js "..."] writes an ASCII literal.
    - A [Date] built from a number is that number (milliseconds), in [Z];
      a number that [new Date] does not accept, one beyond 8.64e15 either
      side of the epoch, gives an Invalid Date, whose [getTime()] is NaN
      ([getTime]).
    - A promise is what becomes of it ([Outcome]): it settles after some
      milliseconds with a result, or it never settles.
    - [string | null] is an [option]; a rejected promise or a thrown value is
      [Throw e], a fulfilled promise or a normal return is [Ok a].
    - The platform libraries (expo-file-system, react-native-saf-x,
      AsyncStorage, localStorage, JSON, Date) are the fields of the class
      [Host]; the service is written once over any host. *)

From Stdlib Require Import ZArith NArith List String Ascii Lia Bool Sorted Permutation.
From stdpp Require Import base option gmap list strings.

#[local] Set Warnings "-register-all".
#[local] Open Scope Z_scope.

(** ** JavaScript strings and the built-in string functions the service uses *)

Abbreviation jsstring := (list N).

Fixpoint js (s : string) : jsstring :=
  match s with
  | EmptyString => []
  | String a r => N_of_ascii a :: js r
  end.

Module JS.

(** Code units of the separators and marks the source names. *)
Definition slash : N := 47.
Definition colon : N := 58.
Definition percent : N := 37.

(** [s.startsWith(p)] *)
Definition startsWith (s p : jsstring) : bool :=
  bool_decide (take (length p) s = p).

(** [s.endsWith(p)] *)
Definition endsWith (s p : jsstring) : bool :=
  bool_decide (drop (length s - length p) s = p).

(** [s.includes(p)] *)
Fixpoint includes (s p : jsstring) : bool :=
  startsWith s p ||
  match s with
  | [] => false
  | _ :: r => includes r p
  end.

(** [s.split(c)] for a separator [c] of one code unit (all separators of
    the source are: '/', ':'). The result is never empty. *)
Fixpoint split (c : N) (s : jsstring) : list jsstring :=
  match s with
  | [] => [[]]
  | x :: r =>
      if N.eqb x c then [] :: split c r
      else match split c r with
           | p :: ps => (x :: p) :: ps
           | [] => [[x]]
           end
  end.

(** [parts.join(sep)] *)
Fixpoint join (sep : jsstring) (parts : list jsstring) : jsstring :=
  match parts with
  | [] => []
  | [p] => p
  | p :: ps => p ++ sep ++ join sep ps
  end.

(** [a.slice(0, -1)] and [a.slice(1)] on arrays *)
Definition slice_0_m1 {A} (a : list A) : list A := take (length a - 1) a.
Definition slice_1 {A} (a : list A) : list A := drop 1 a.

(** [s.substring(n)] and [s.substring(0, n)] *)
Definition substring_from (n : nat) (s : jsstring) : jsstring := drop n s.
Definition substring_to (n : nat) (s : jsstring) : jsstring := take n s.

(** [s.toLowerCase()]. Only A-Z are mapped: the service searches the result
    for the ASCII words "sd" and "external", and no code unit outside A-Z
    lowercases to one of their letters. *)
Definition lowerUnit (c : N) : N :=
  if (65 <=? c)%N && (c <=? 90)%N then (c + 32)%N else c.
Definition toLowerCase (s : jsstring) : jsstring := lowerUnit <$> s.

(** White space and line terminators, as [String.prototype.trim] strips
    them. *)
Definition isWhiteSpace (c : N) : bool :=
  bool_decide (c ∈ [9; 10; 11; 12; 13; 32; 160; 5760; 8232; 8233; 8239;
                    8287; 12288; 65279]%N)
  || ((8192 <=? c)%N && (c <=? 8202)%N).

Fixpoint trimStart (s : jsstring) : jsstring :=
  match s with
  | c :: r => if isWhiteSpace c then trimStart r else s
  | [] => []
  end.
Definition trim (s : jsstring) : jsstring :=
  reverse (trimStart (reverse (trimStart s))).

(** [s.replace(p, '')] with a string pattern: the first occurrence goes. *)
Fixpoint removeFirst (p s : jsstring) : jsstring :=
  if startsWith s p then drop (length p) s
  else match s with
       | [] => []
       | c :: r => c :: removeFirst p r
       end.

(** Line terminators: the code units the regular expression [.] refuses. *)
Definition isLineTerminator (c : N) : bool :=
  bool_decide (c ∈ [10; 13; 8232; 8233]%N).

(** *** decodeURIComponent (ECMA-262, Decode) *)

Definition hexDigit (c : N) : option N :=
  if (48 <=? c)%N && (c <=? 57)%N then Some (c - 48)%N
  else if (65 <=? c)%N && (c <=? 70)%N then Some (c - 55)%N
  else if (97 <=? c)%N && (c <=? 102)%N then Some (c - 87)%N
  else None.

(** An escape [%XY] at the head of [s]: its octet and the rest. *)
Definition parseOctet (s : jsstring) : option (N * jsstring) :=
  match s with
  | p :: h :: l :: r =>
      if N.eqb p percent then
        match hexDigit h, hexDigit l with
        | Some a, Some b => Some (16 * a + b, r)%N
        | _, _ => None
        end
      else None
  | _ => None
  end.

(** [n] further escapes, the continuation octets of a UTF-8 sequence. *)
Fixpoint parseOctets (n : nat) (s : jsstring) : option (list N * jsstring) :=
  match n with
  | O => Some ([], s)
  | S k =>
      match parseOctet s with
      | Some (b, r) =>
          match parseOctets k r with
          | Some (bs, r') => Some (b :: bs, r')
          | None => None
          end
      | None => None
      end
  end.

Definition isContinuation (b : N) : bool := (128 <=? b)%N && (b <=? 191)%N.

(** The code point of a UTF-8 sequence of 2 to 4 octets, when the sequence
    is valid: continuation octets in range, shortest form, no surrogate,
    at most U+10FFFF. *)
Definition utf8CodePoint (lead : N) (rest : list N) : option N :=
  if negb (forallb isContinuation rest) then None
  else
    let payload := fold_left (fun acc b => acc * 64 + (b - 128))%N rest in
    match rest with
    | [_] =>
        let cp := payload (lead - 192)%N in
        if (128 <=? cp)%N then Some cp else None
    | [_; _] =>
        let cp := payload (lead - 224)%N in
        if (2048 <=? cp)%N && negb ((55296 <=? cp)%N && (cp <=? 57343)%N)
        then Some cp else None
    | [_; _; _] =>
        let cp := payload (lead - 240)%N in
        if (65536 <=? cp)%N && (cp <=? 1114111)%N then Some cp else None
    | _ => None
    end.

Definition utf16Encode (cp : N) : jsstring :=
  if (cp <? 65536)%N then [cp]
  else [55296 + (cp - 65536) / 1024; 56320 + (cp - 65536) mod 1024]%N.

(** The number of leading 1 bits of an octet. *)
Definition leadingOnes (b : N) : nat :=
  if (b <? 128)%N then 0
  else if (b <? 192)%N then 1
  else if (b <? 224)%N then 2
  else if (b <? 240)%N then 3
  else if (b <? 248)%N then 4
  else 5.

(** The loop of Decode; [None] is the URIError. Every round consumes at
    least one code unit, so [length s] rounds are enough
    ([decodeLoop_fuel] below). *)
Fixpoint decodeLoop (fuel : nat) (s : jsstring) : option jsstring :=
  match s with
  | [] => Some []
  | c :: r =>
      match fuel with
      | O => None
      | S fuel' =>
          if N.eqb c percent then
            match parseOctet s with
            | None => None
            | Some (b, r1) =>
                match leadingOnes b with
                | O => cons b <$> decodeLoop fuel' r1
                | S n =>
                    if bool_decide (n = 0%nat) || bool_decide (3 < n)%nat
                    then None
                    else
                      match parseOctets n r1 with
                      | None => None
                      | Some (bs, r2) =>
                          match utf8CodePoint b bs with
                          | None => None
                          | Some cp =>
                              app (utf16Encode cp) <$> decodeLoop fuel' r2
                          end
                      end
                end
            end
          else cons c <$> decodeLoop fuel' r
      end
  end.

Definition decodeURIComponent (s : jsstring) : option jsstring :=
  decodeLoop (length s) s.

(** [s.match(/\/tree\/(.+)$/)]: the capture of the leftmost match. The
    group must run to the end of the input, so the text after "/tree/"
    has to be non-empty and free of line terminators. *)
Fixpoint matchTree (s : jsstring) : option jsstring :=
  let rest := drop 6 s in
  if startsWith s (js "/tree/")
     && negb (bool_decide (rest = []))
     && forallb (fun c => negb (isLineTerminator c)) rest
  then Some rest
  else match s with
       | [] => None
       | _ :: r => matchTree r
       end.

(** [Array.prototype.sort(cmp)]: a stable sort; [cmp a b <= 0] keeps [a]
    before [b]. This is the result of every conforming sort when the
    comparator is consistent on the elements; for a comparator that is
    not, ECMA-262 (23.1.3.30) leaves the order to the implementation, and
    nothing is proved of it here. *)
Section Sort.
Context {A : Type} (cmp : A -> A -> Z).

Fixpoint insertSorted (x : A) (l : list A) : list A :=
  match l with
  | [] => [x]
  | y :: l' => if cmp x y <=? 0 then x :: l else y :: insertSorted x l'
  end.

Definition sort (l : list A) : list A := foldr insertSorted [] l.
End Sort.

End JS.

(** ** Pure functions of the service *)

(** [getParentPath(currentPath, rootPath)], lines 827-848. *)
Definition getParentPath (currentPath rootPath : jsstring) : option jsstring :=
  if bool_decide (currentPath = rootPath) then None
  else if JS.startsWith currentPath (js "content://") then
    let pathParts := JS.split JS.slash currentPath in
    if (4 <? length pathParts)%nat
    then Some (JS.join (js "/") (JS.slice_0_m1 pathParts))
    else Some rootPath
  else
    let pathParts := JS.split JS.slash currentPath in
    if (1 <? length pathParts)%nat then
      let parentPath := JS.join (js "/") (JS.slice_0_m1 pathParts) ++ js "/" in
      if (length rootPath <=? length parentPath)%nat then Some parentPath
      else None
    else None.

(** [a || b] on strings: the empty string is falsy. *)
Definition orElse (a b : jsstring) : jsstring :=
  match a with [] => b | _ => a end.

(** [parseSafUriToReadablePath(safUri)], lines 225-274. The [catch] covers
    the one call that can throw, [decodeURIComponent]. *)
Definition parseSafUriToReadablePath (safUri : jsstring) : jsstring :=
  if negb (JS.startsWith safUri (js "content://")) then safUri
  else
    match JS.matchTree safUri with
    | None => js "Custom Folder"
    | Some captured =>
        match JS.decodeURIComponent captured with
        | None => js "Custom Folder"
        | Some pathPart =>
            if JS.startsWith pathPart (js "primary:") then
              let relativePath := JS.substring_from 8 pathPart in
              orElse relativePath (js "Internal Storage")
            else if JS.includes pathPart (js ":")
                    && (2 <=? length (JS.split JS.colon pathPart))%nat then
              let parts := JS.split JS.colon pathPart in
              let storageName := hd [] parts in
              let relativePath := JS.join (js ":") (JS.slice_1 parts) in
              if JS.includes (JS.toLowerCase storageName) (js "sd")
                 || JS.includes (JS.toLowerCase storageName) (js "external")
              then
                match relativePath with
                | [] => js "SD Card"
                | _ => js "SD Card/" ++ relativePath
                end
              else if bool_decide (storageName = js "primary") then
                orElse relativePath (js "Internal Storage")
              else
                match relativePath with
                | [] => storageName
                | _ => storageName ++ js "/" ++ relativePath
                end
            else orElse pathPart (js "Custom Folder")
        end
    end.

(** ** Titles and filenames *)

Module RegExp.

(** The characters the first pattern of [sanitizeFilename] names: angle
    brackets, colon, double quote, slash, backslash, bar, question mark,
    star. *)
Definition isInvalidUnit (c : N) : bool :=
  bool_decide (c ∈ [60; 62; 58; 34; 47; 92; 124; 63; 42]%N).

(** The first [replace] of [sanitizeFilename]: these characters go,
    wherever they are. *)
Definition removeInvalid (s : jsstring) : jsstring :=
  filter (fun c => isInvalidUnit c = false) s.

(** [s.replace(/\s+/g, ' ')]: every maximal run of white space becomes one
    space. [inRun] tells that the unit before was white space. *)
Fixpoint collapseFrom (inRun : bool) (s : jsstring) : jsstring :=
  match s with
  | [] => []
  | c :: r =>
      if JS.isWhiteSpace c
      then (if inRun then collapseFrom true r else 32%N :: collapseFrom true r)
      else c :: collapseFrom false r
  end.
Definition collapseSpaces (s : jsstring) : jsstring := collapseFrom false s.

Fixpoint dropDots (s : jsstring) : jsstring :=
  match s with
  | c :: r => if N.eqb c 46 then dropDots r else s
  | [] => []
  end.

(** [s.replace(/\.+$/, '')]: the dots at the end go. *)
Definition removeTrailingDots (s : jsstring) : jsstring :=
  reverse (dropDots (reverse s)).

(** [s.replace(/^#\s*/, '')]: a '#' at the start goes, with the white space
    after it. *)
Definition removeHeadingMark (s : jsstring) : jsstring :=
  match s with
  | 35%N :: r => JS.trimStart r
  | _ => s
  end.

End RegExp.

(** [sanitizeFilename(title)], lines 308-316. *)
Definition sanitizeFilename (title : jsstring) : jsstring :=
  orElse
    (JS.trim
       (JS.substring_to 100
          (RegExp.removeTrailingDots
             (RegExp.collapseSpaces (RegExp.removeInvalid title)))))
    (js "Untitled").

(** [extractTitle(content)], lines 321-325. *)
Definition extractTitle (content : jsstring) : jsstring :=
  let lines := JS.split 10 content in
  let firstLine := orElse (hd [] lines) [] in
  orElse (RegExp.removeHeadingMark firstLine) (js "Untitled").

(** ** Data model *)

(** Modelled from the spec: the types of [@/types/Note] and
    [@/types/FileSystemItem] are not part of the sources at hand; section 3
    of the specification lists their fields, and the object literals of the
    service ([getNote], lines 530-551) agree with it. A [Note] has no [id]. *)
Record Note := mkNote {
  filename : jsstring;
  content : jsstring;
  createdAt : Z;
  updatedAt : Z;
  filePath : jsstring;
}.

(** [preview] is [None] where the source leaves the property undefined (the
    web listing of [getWebNotes] copies stored entries, which have none). *)
Record NotePreview := mkNotePreview {
  np_filename : jsstring;
  np_preview : option jsstring;
  np_createdAt : Z;
  np_updatedAt : Z;
  np_filePath : jsstring;
}.

Record FolderItem := mkFolderItem {
  fo_name : jsstring;
  fo_path : jsstring;
  fo_createdAt : Z;
  fo_updatedAt : Z;
}.

Record NoteItem := mkNoteItem {
  ni_filename : jsstring;
  ni_preview : jsstring;
  ni_createdAt : Z;
  ni_updatedAt : Z;
  ni_filePath : jsstring;
}.

Record DirectoryContents := mkDirectoryContents {
  folders : list FolderItem;
  notes : list NoteItem;
  currentPath : jsstring;
  parentPath : option jsstring;
}.

(** Values of JavaScript as [JSON.parse] returns them; an object is the map
    of its own properties. *)
Inductive JsVal :=
  | VUndef
  | VNull
  | VBool (b : bool)
  | VNum (z : Z)
  | VStr (s : jsstring)
  | VArr (l : list JsVal)
  | VObj (m : gmap jsstring JsVal).

(** [interface UserPreferences] is a record of two booleans for the type
    checker; at run time it is whatever the spread of the persisted payload
    made of it, so the model keeps the object. *)
Abbreviation UserPreferences := (gmap jsstring JsVal).

Definition DEFAULT_PREFERENCES : UserPreferences :=
  <[js "showTimestamps" := VBool true]>
    (<[js "welcomeCompleted" := VBool false]> ∅).

(** The decimal numeral of an array index, as a property name. *)
Definition digitUnit (n : nat) : N := (48 + N.of_nat n)%N.
Fixpoint numeralFuel (fuel n : nat) (acc : jsstring) : jsstring :=
  match fuel with
  | O => acc
  | S f =>
      let acc' := digitUnit (n mod 10) :: acc in
      if (n <? 10)%nat then acc' else numeralFuel f (n / 10) acc'
  end.
Definition numeral (n : nat) : jsstring := numeralFuel (S n) n [].

(** The own enumerable properties an object spread [{...v}] copies. *)
Definition ownProperties (v : JsVal) : gmap jsstring JsVal :=
  match v with
  | VObj m => m
  | VArr l => list_to_map (imap (fun i x => (numeral i, x)) l)
  | VStr s => list_to_map (imap (fun i c => (numeral i, VStr [c])) s)
  | _ => ∅
  end.

(** [{...a, ...b}]: the properties of [b] win. *)
Definition spread (a b : gmap jsstring JsVal) : gmap jsstring JsVal := b ∪ a.

(** An entry of the array the web backend keeps under the key ['notes'] of
    localStorage, through the properties the service reads of it. [w_id] and
    [w_preview] are [None] when the entry has no such property. *)
Record WebEntry := mkWebEntry {
  w_id : option jsstring;
  w_filename : jsstring;
  w_content : jsstring;
  w_preview : option jsstring;
  w_createdAt : Z;
  w_updatedAt : Z;
  w_filePath : jsstring;
}.

(** What [localStorage.getItem('notes')] holds, told apart by what
    [JSON.parse] makes of it. *)
Inductive NotesText :=
  | TextEmpty                       (* the empty string *)
  | TextMalformed                   (* JSON.parse throws *)
  | TextNotArray                    (* parses, but not to an array *)
  | TextEntries (l : list WebEntry) (* parses to an array of entries *).

(** ** Thrown values, results, platform *)

Inductive Exn :=
  | Error (message : jsstring)
  | TypeError
  | SyntaxError
  | URIError.

Inductive Res (A : Type) :=
  | Ok (a : A)
  | Throw (e : Exn).
Arguments Ok {A} a.
Arguments Throw {A} e.

Inductive Platform := Web | Android | Ios.

#[global] Instance Platform_eq_dec : EqDecision Platform.
Proof. solve_decision. Defined.

(** ** Promises and timers *)

(** What becomes of a promise: it settles [t] milliseconds after the call
    that made it, fulfilled ([Ok]) or rejected ([Throw]), or it never
    settles. *)
Inductive Outcome (A : Type) :=
  | SettledAt (t : Z) (r : Res A)
  | Pending.
Arguments SettledAt {A} t r.
Arguments Pending {A}.

(** [new Promise((_, reject) => setTimeout(() => reject(e), ms))]: the
    timer fires after [ms] milliseconds, at once for a delay below zero. *)
Definition rejectAfter {A} (ms : Z) (e : Exn) : Outcome A :=
  SettledAt (Z.max 0 ms) (Throw e).

(** [Promise.race([p, q])]: the promise settles as the first of the two
    that settles, as [p], the first of the array, when both settle at
    the same time; it never settles when neither does. *)
Definition Promise_race {A} (p q : Outcome A) : Outcome A :=
  match p, q with
  | SettledAt tp _, SettledAt tq _ => if tp <=? tq then p else q
  | SettledAt _ _, Pending => p
  | Pending, _ => q
  end.

(** [await p]: the result [p] settles with, if it settles. *)
Definition awaited {A} (p : Outcome A) : option (Res A) :=
  match p with
  | SettledAt _ r => Some r
  | Pending => None
  end.

(** ** The host: platform libraries as an interface *)

(** Result of [FileSystem.getInfoAsync]. *)
Record FileInfo := mkFileInfo {
  fi_exists : bool;
  fi_isDirectory : bool;
  fi_modificationTime : option Z;
}.

Inductive DocumentType := TypeFile | TypeDirectory.

#[global] Instance DocumentType_eq_dec : EqDecision DocumentType.
Proof. solve_decision. Defined.

(** Entry of [listFiles], result of [stat] (react-native-saf-x). *)
Record DocumentFileDetail := mkDocumentFileDetail {
  df_name : jsstring;
  df_type : DocumentType;
  df_uri : jsstring;
  df_lastModified : Z;
}.

(** Every primitive takes the world and returns its result with the world
    it leaves. The calls of AsyncStorage return what becomes of their
    promise, since the service never awaits them but through
    [asyncStorageWithTimeout]; the other promises of the platform are
    awaited directly and are given by their results. *)
Class Host (W : Type) := {
  Platform_OS : Platform;
  FileSystem_documentDirectory : jsstring;
  Date_now : W -> Z * W;
  (* expo-file-system *)
  FileSystem_getInfoAsync : jsstring -> W -> Res FileInfo * W;
  FileSystem_makeDirectoryAsync : jsstring -> W -> Res unit * W;
  FileSystem_readDirectoryAsync : jsstring -> W -> Res (list jsstring) * W;
  FileSystem_readAsStringAsync : jsstring -> W -> Res jsstring * W;
  FileSystem_writeAsStringAsync : jsstring -> jsstring -> W -> Res unit * W;
  FileSystem_deleteAsync : jsstring -> W -> Res unit * W;
  (* react-native-saf-x *)
  saf_openDocumentTree : W -> Res (option jsstring) * W;
  saf_listFiles : jsstring -> W -> Res (list DocumentFileDetail) * W;
  saf_readFile : jsstring -> W -> Res jsstring * W;
  saf_writeFile : jsstring -> jsstring -> W -> Res unit * W;
  saf_unlink : jsstring -> W -> Res bool * W;
  saf_stat : jsstring -> W -> Res DocumentFileDetail * W;
  (* localStorage, key 'notes' *)
  localStorage_getItem : W -> Res (option NotesText) * W;
  localStorage_setItem : list WebEntry -> W -> Res unit * W;
  (* @react-native-async-storage/async-storage *)
  AsyncStorage_getItem : jsstring -> W -> Outcome (option jsstring) * W;
  AsyncStorage_setItem : jsstring -> jsstring -> W -> Outcome unit * W;
  AsyncStorage_removeItem : jsstring -> W -> Outcome unit * W;
  (* JSON and String.prototype.localeCompare *)
  JSON_parse : jsstring -> Res JsVal;
  JSON_stringify : JsVal -> jsstring;
  localeCompare : jsstring -> jsstring -> Z;
}.

(** ** [asyncStorageWithTimeout], lines 21-48 *)

(** [new Error(`AsyncStorage.${operation} timeout for key: ${key}`)] *)
Definition timeoutError (operation key : jsstring) : Exn :=
  Error (js "AsyncStorage." ++ operation ++ js " timeout for key: " ++ key).

(** The promise each of the three methods returns: the race of the
    promise [p] of the AsyncStorage call with the timer. *)
Definition asyncStorageWithTimeout {A} (operation key : jsstring)
    (timeoutMs : Z) (p : Outcome A) : Outcome A :=
  Promise_race p (rejectAfter timeoutMs (timeoutError operation key)).

(** What the caller that awaits the promise of the wrapper gets. The race
    always settles ([asyncStorageWithTimeout_settles]), so the default
    is never taken. *)
Definition awaitWithTimeout {A} (operation key : jsstring)
    (timeoutMs : Z) (p : Outcome A) : Res A :=
  default (Throw (timeoutError operation key))
    (awaited (asyncStorageWithTimeout operation key timeoutMs p)).

Section AsyncStorageWithTimeout.
Context {W : Type} `{Host W}.

(** [await asyncStorageWithTimeout.getItem(key, timeoutMs)] and the two
    others, on a world. *)
Definition AsyncStorage_raced_getItem (key : jsstring) (timeoutMs : Z) (w : W)
  : Res (option jsstring) * W :=
  let '(p, w') := AsyncStorage_getItem key w in
  (awaitWithTimeout (js "getItem") key timeoutMs p, w').

Definition AsyncStorage_raced_setItem (key value : jsstring) (timeoutMs : Z)
    (w : W) : Res unit * W :=
  let '(p, w') := AsyncStorage_setItem key value w in
  (awaitWithTimeout (js "setItem") key timeoutMs p, w').

Definition AsyncStorage_raced_removeItem (key : jsstring) (timeoutMs : Z)
    (w : W) : Res unit * W :=
  let '(p, w') := AsyncStorage_removeItem key w in
  (awaitWithTimeout (js "removeItem") key timeoutMs p, w').

End AsyncStorageWithTimeout.

Arguments AsyncStorage_raced_getItem : simpl never.
Arguments AsyncStorage_raced_setItem : simpl never.
Arguments AsyncStorage_raced_removeItem : simpl never.

(** ** The service object and the monad of its methods *)

(** [directoryPreferenceCache: string | null | undefined] *)
Inductive PreferenceCache :=
  | NotLoaded                       (* undefined *)
  | NoPreference                    (* null *)
  | Preference (directory : jsstring).

(** The fields of [class FileSystemService], lines 52-62. *)
Record Service := mkService {
  notesDirectory : jsstring;
  customDirectory : option jsstring;
  userPreferences : UserPreferences;
  currentDirectory : option jsstring;
  notesCache : gmap jsstring (list NotePreview);
  noteContentCache : gmap jsstring Note;
  directoryPreferenceCache : PreferenceCache;
  lastCacheUpdate : Z;
  cacheValidityDuration : Z;
}.

Definition set_customDirectory (v : option jsstring) (s : Service) : Service :=
  mkService (notesDirectory s) v (userPreferences s) (currentDirectory s)
    (notesCache s) (noteContentCache s) (directoryPreferenceCache s)
    (lastCacheUpdate s) (cacheValidityDuration s).
Definition set_userPreferences (v : UserPreferences) (s : Service) : Service :=
  mkService (notesDirectory s) (customDirectory s) v (currentDirectory s)
    (notesCache s) (noteContentCache s) (directoryPreferenceCache s)
    (lastCacheUpdate s) (cacheValidityDuration s).
Definition set_currentDirectory (v : option jsstring) (s : Service) : Service :=
  mkService (notesDirectory s) (customDirectory s) (userPreferences s) v
    (notesCache s) (noteContentCache s) (directoryPreferenceCache s)
    (lastCacheUpdate s) (cacheValidityDuration s).
Definition set_notesCache (v : gmap jsstring (list NotePreview)) (s : Service)
  : Service :=
  mkService (notesDirectory s) (customDirectory s) (userPreferences s)
    (currentDirectory s) v (noteContentCache s) (directoryPreferenceCache s)
    (lastCacheUpdate s) (cacheValidityDuration s).
Definition set_noteContentCache (v : gmap jsstring Note) (s : Service)
  : Service :=
  mkService (notesDirectory s) (customDirectory s) (userPreferences s)
    (currentDirectory s) (notesCache s) v (directoryPreferenceCache s)
    (lastCacheUpdate s) (cacheValidityDuration s).
Definition set_directoryPreferenceCache (v : PreferenceCache) (s : Service)
  : Service :=
  mkService (notesDirectory s) (customDirectory s) (userPreferences s)
    (currentDirectory s) (notesCache s) (noteContentCache s) v
    (lastCacheUpdate s) (cacheValidityDuration s).
Definition set_lastCacheUpdate (v : Z) (s : Service) : Service :=
  mkService (notesDirectory s) (customDirectory s) (userPreferences s)
    (currentDirectory s) (notesCache s) (noteContentCache s)
    (directoryPreferenceCache s) v (cacheValidityDuration s).

Inductive LogLevel := LogLog | LogWarn | LogError.

(** A line of the console: level, text, and the value logged with it. *)
Record LogEntry := mkLogEntry {
  log_level : LogLevel;
  log_text : jsstring;
  log_value : option Exn;
}.

(** A state: the singleton, the world of the host, the console. *)
Record State (W : Type) := mkState {
  svc : Service;
  world : W;
  console : list LogEntry;
}.
Arguments mkState {W} svc world console.
Arguments svc {W} s.
Arguments world {W} s.
Arguments console {W} s.

(** A method: it runs from a state, returns or throws, and leaves a state.
    What a method did before it threw stays done. *)
Definition M (W A : Type) : Type := State W -> Res A * State W.

Section Monad.
Context {W : Type}.

Definition ret {A} (a : A) : M W A := fun s => (Ok a, s).

Definition throw {A} (e : Exn) : M W A := fun s => (Throw e, s).

Definition bind {A B} (m : M W A) (k : A -> M W B) : M W B :=
  fun s =>
    match m s with
    | (Ok a, s') => k a s'
    | (Throw e, s') => (Throw e, s')
    end.

(** [try { m } catch (e) { h e }] *)
Definition tryCatch {A} (m : M W A) (h : Exn -> M W A) : M W A :=
  fun s =>
    match m s with
    | (Ok a, s') => (Ok a, s')
    | (Throw e, s') => h e s'
    end.

(** Read a field of [this]. *)
Definition this {A} (f : Service -> A) : M W A :=
  fun s => (Ok (f (svc s)), s).

(** Assign to fields of [this]. *)
Definition assign (f : Service -> Service) : M W unit :=
  fun s => (Ok tt, mkState (f (svc s)) (world s) (console s)).

(** Call a primitive of the host. *)
Definition call {A} (p : W -> Res A * W) : M W A :=
  fun s =>
    let '(r, w) := p (world s) in
    (r, mkState (svc s) w (console s)).

Definition log (l : LogLevel) (text : jsstring) (v : option Exn)
  : M W unit :=
  fun s => (Ok tt, mkState (svc s) (world s)
                     (console s ++ [mkLogEntry l text v])).
End Monad.

Notation "'do' x <- m ; k" := (bind m (fun x => k))
  (at level 10, x pattern, m at level 100, k at level 200,
   format "'[v' 'do'  x  <-  m ; '/' k ']'").
Notation "m ;; k" := (bind m (fun _ => k))
  (at level 100, k at level 200, right associativity).

Section MapM.
Context {W A B : Type} (f : A -> M W B).

(** [await Promise.all(l.map(f))]: the calls are sequenced in the order
    of the array; the first rejection rejects the whole. *)
Fixpoint mapM (l : list A) : M W (list B) :=
  match l with
  | [] => ret []
  | x :: r =>
      do y <- f x;
      do ys <- mapM r;
      ret (y :: ys)
  end.
End MapM.

(** ** The methods of [FileSystemService] *)

Inductive LocationType := LocApp | LocPublic | LocCustom.

Section Service.
Context {W : Type} `{Host W}.

Local Abbreviation M := (M W).

Definition isWeb : bool := bool_decide (Platform_OS = Web).

(** The constructor, lines 64-71, with the field initialisers. *)
Definition newService : Service :=
  mkService
    (if isWeb then js "Notes" else FileSystem_documentDirectory ++ js "Notes/")
    None DEFAULT_PREFERENCES None ∅ ∅ NotLoaded 0 (5 * 60 * 1000).

(** The calls of [asyncStorageWithTimeout] by the service: it never passes
    [timeoutMs], so the window is the default, 5000. *)
Definition asyncStorageWithTimeout_getItem (key : jsstring)
  : M (option jsstring) := call (AsyncStorage_raced_getItem key 5000).
Definition asyncStorageWithTimeout_setItem (key value : jsstring)
  : M unit := call (AsyncStorage_raced_setItem key value 5000).
Definition asyncStorageWithTimeout_removeItem (key : jsstring)
  : M unit := call (AsyncStorage_raced_removeItem key 5000).

(** [this.customDirectory || this.notesDirectory] *)
Definition getNotesDirectory (s : Service) : jsstring :=
  match customDirectory s with
  | Some (c :: d) => c :: d
  | _ => notesDirectory s
  end.

Definition getCurrentDirectory (s : Service) : jsstring :=
  match currentDirectory s with
  | Some (c :: d) => c :: d
  | _ => getNotesDirectory s
  end.

Definition setCurrentDirectory (path : jsstring) : M unit :=
  assign (set_currentDirectory (Some path)).

Definition resetToRootDirectory : M unit :=
  assign (set_currentDirectory None).

(** [Date.now()] *)
Definition dateNow : M Z :=
  call (fun w => let '(t, w') := Date_now w in (Ok t, w')).

(** [clearCache()], lines 134-138. *)
Definition clearCache : M unit :=
  assign (set_notesCache ∅);;
  assign (set_noteContentCache ∅);;
  assign (set_lastCacheUpdate 0).

(** [isCacheValid()], lines 143-145. *)
Definition isCacheValid : M bool :=
  do now <- dateNow;
  do last <- this lastCacheUpdate;
  do window <- this cacheValidityDuration;
  ret (now - last <? window).

Definition getCacheKey (directory : jsstring) : jsstring :=
  js "notes_" ++ directory.

(** [setCustomDirectory(directory)], lines 111-129. *)
Definition setCustomDirectory (directory : jsstring) : M unit :=
  assign (set_customDirectory (Some directory));;
  assign (set_directoryPreferenceCache
            (match directory with [] => NoPreference | _ => Preference directory end));;
  clearCache;;
  tryCatch
    (match directory with
     | [] => asyncStorageWithTimeout_removeItem (js "notes_directory_preference")
     | _ => asyncStorageWithTimeout_setItem (js "notes_directory_preference") directory
     end)
    (fun error =>
       log LogError (js "Failed to save directory preference:") (Some error)).

(** [loadDirectoryPreference()], lines 157-191. *)
Definition loadDirectoryPreference : M unit :=
  do cached <- this directoryPreferenceCache;
  match cached with
  | Preference d => assign (set_customDirectory (Some d))
  | NoPreference => ret tt
  | NotLoaded =>
      if isWeb then assign (set_directoryPreferenceCache NoPreference)
      else
        tryCatch
          (do savedDirectory <-
             asyncStorageWithTimeout_getItem (js "notes_directory_preference");
           match savedDirectory with
           | Some (c :: d) =>
               assign (set_customDirectory (Some (c :: d)));;
               assign (set_directoryPreferenceCache (Preference (c :: d)))
           | _ => assign (set_directoryPreferenceCache NoPreference)
           end)
          (fun error =>
             log LogWarn
               (js "AsyncStorage failed to load directory preference, using defaults")
               None;;
             assign (set_directoryPreferenceCache NoPreference))
  end.

(** [selectCustomDirectory()], lines 196-220. *)
Definition selectCustomDirectory : M (option jsstring) :=
  if negb (bool_decide (Platform_OS = Android)) then ret None
  else
    tryCatch
      (do result <- call saf_openDocumentTree;
       match result with
       | Some (c :: uri) => setCustomDirectory (c :: uri);; ret (Some (c :: uri))
       | _ => ret None
       end)
      (fun error =>
         log LogError (js "Error selecting directory with SAF:") (Some error);;
         ret None).

(** [getStorageLocationInfo()], lines 279-303. *)
Definition getStorageLocationInfo : M (jsstring * LocationType) :=
  loadDirectoryPreference;;
  do currentDir <- this getNotesDirectory;
  do notesDir <- this notesDirectory;
  if isWeb then ret (js "Browser Local Storage", LocApp)
  else if bool_decide (currentDir = notesDir)
  then ret (js "App Documents Folder", LocApp)
  else if JS.startsWith currentDir (js "content://")
  then ret (parseSafUriToReadablePath currentDir, LocCustom)
  else if JS.includes currentDir (js "Documents/Notes")
  then ret (js "Device Documents/Notes", LocPublic)
  else ret (currentDir, LocCustom).

(** [ensureDirectoryExists()], lines 327-345. *)
Definition ensureDirectoryExists : M unit :=
  if isWeb then ret tt
  else
    do currentDir <- this getNotesDirectory;
    if JS.startsWith currentDir (js "content://") then ret tt
    else
      do dirInfo <- call (FileSystem_getInfoAsync currentDir);
      if negb (fi_exists dirInfo)
      then call (FileSystem_makeDirectoryAsync currentDir)
      else ret tt.

(** [stat.exists && 'modificationTime' in stat ? stat.modificationTime
    : Date.now()] *)
Definition modTimeOf (stat : FileInfo) : M Z :=
  match fi_exists stat, fi_modificationTime stat with
  | true, Some t => ret t
  | _, _ => dateNow
  end.

(** [new Date(t).getTime()]: the time value, or NaN ([None]) for an
    Invalid Date, which [new Date] makes of a number beyond 8.64e15
    milliseconds either side of the epoch (TimeClip, ECMA-262 21.4.1.31).
    In the records a time is the number its Date was built from; a number
    outside the range stands for whatever [new Date] cannot read. *)
Definition maxTime : Z := 8640000000000000.

Definition getTime (t : Z) : option Z :=
  if Z.abs t <=? maxTime then Some t else None.

Definition validTime (t : Z) : Prop := Z.abs t <= maxTime.

(** The comparator [(a, b) => b.updatedAt.getTime() - a.updatedAt.getTime()]
    as [sort] reads it: the difference, and [+0] for the NaN that an
    Invalid Date gives (SortCompare, ECMA-262 23.1.3.30.2). *)
Definition byUpdatedDesc {A} (upd : A -> Z) (a b : A) : Z :=
  match getTime (upd b), getTime (upd a) with
  | Some tb, Some ta => tb - ta
  | _, _ => 0
  end.

Definition catOptions {A} (l : list (option A)) : list A :=
  omap (fun x => x) l.

(** The [try] statement of [getSAFNotes], lines 379-416: list the
    directory through the backend and remember the listing. *)
Definition listSAFNotesFromBackend (directoryUri cacheKey : jsstring)
  : M (list NotePreview) :=
  tryCatch
    (do files <- call (saf_listFiles directoryUri);
     let markdownFiles :=
       filter (fun file => JS.endsWith (df_name file) (js ".md") = true
                           /\ df_type file = TypeFile) files in
     do notesResults <-
       mapM (fun file =>
               tryCatch
                 (do content <- call (saf_readFile (df_uri file));
                  ret (Some (mkNotePreview
                               (JS.removeFirst (js ".md") (df_name file))
                               (Some (JS.substring_to 200 content))
                               (df_lastModified file)
                               (df_lastModified file)
                               (df_uri file))))
                 (fun fileError =>
                    log LogError (js "Error reading file " ++ df_name file ++ js ":")
                      (Some fileError);;
                    ret None))
            markdownFiles;
     let sortedNotes :=
       JS.sort (byUpdatedDesc np_updatedAt) (catOptions notesResults) in
     do cache' <- this notesCache;
     assign (set_notesCache (<[cacheKey := sortedNotes]> cache'));;
     do now <- dateNow;
     assign (set_lastCacheUpdate now);;
     ret sortedNotes)
    (fun error =>
       log LogError (js "Error reading SAF notes:") (Some error);;
       ret []).

(** [getSAFNotes(directoryUri)], lines 371-417. *)
Definition getSAFNotes (directoryUri : jsstring) : M (list NotePreview) :=
  let cacheKey := getCacheKey directoryUri in
  do valid <- isCacheValid;
  do cache <- this notesCache;
  match valid, cache !! cacheKey with
  | true, Some cached => ret cached
  | _, _ => listSAFNotesFromBackend directoryUri cacheKey
  end.

(** The [try] statement of [getFileSystemNotes], lines 427-470. *)
Definition listFileSystemNotesFromBackend (currentDir cacheKey : jsstring)
  : M (list NotePreview) :=
  tryCatch
    (do files <- call (FileSystem_readDirectoryAsync currentDir);
     let markdownFiles :=
       filter (fun file => JS.endsWith file (js ".md") = true) files in
     do notesResults <-
       mapM (fun file =>
               tryCatch
                 (let filePath := currentDir ++ file in
                  do content <- call (FileSystem_readAsStringAsync filePath);
                  do stat <- call (FileSystem_getInfoAsync filePath);
                  do modTime <- modTimeOf stat;
                  ret (Some (mkNotePreview
                               (JS.removeFirst (js ".md") file)
                               (Some (JS.substring_to 200 content))
                               modTime modTime filePath)))
                 (fun fileError =>
                    log LogError (js "Error reading file " ++ file ++ js ":")
                      (Some fileError);;
                    ret None))
            markdownFiles;
     let sortedNotes :=
       JS.sort (byUpdatedDesc np_updatedAt) (catOptions notesResults) in
     do cache' <- this notesCache;
     assign (set_notesCache (<[cacheKey := sortedNotes]> cache'));;
     do now <- dateNow;
     assign (set_lastCacheUpdate now);;
     ret sortedNotes)
    (fun error =>
       log LogError (js "Error reading file system notes:") (Some error);;
       ret []).

(** [getFileSystemNotes(currentDir)], lines 419-471. *)
Definition getFileSystemNotes (currentDir : jsstring) : M (list NotePreview) :=
  let cacheKey := getCacheKey currentDir in
  do valid <- isCacheValid;
  do cache <- this notesCache;
  match valid, cache !! cacheKey with
  | true, Some cached => ret cached
  | _, _ => listFileSystemNotesFromBackend currentDir cacheKey
  end.

(** [JSON.parse(notesData)] followed by a call of an array method: a text
    that does not parse throws, a value that is no array has no such
    method. *)
Definition parsedEntries (t : NotesText) : M (list WebEntry) :=
  match t with
  | TextEntries l => ret l
  | TextNotArray => throw TypeError
  | TextMalformed | TextEmpty => throw SyntaxError
  end.

(** [getWebNotes()], lines 473-487. *)
Definition getWebNotes : M (list NotePreview) :=
  do notesData <- call localStorage_getItem;
  match notesData with
  | None | Some TextEmpty => ret []
  | Some t =>
      tryCatch
        (do notes <- parsedEntries t;
         ret ((fun note =>
                 mkNotePreview (w_filename note) (w_preview note)
                   (w_createdAt note) (w_updatedAt note) (w_filePath note))
                <$> notes))
        (fun _ => ret [])
  end.

(** [getAllNotes()], lines 347-369. *)
Definition getAllNotes : M (list NotePreview) :=
  loadDirectoryPreference;;
  ensureDirectoryExists;;
  if isWeb then getWebNotes
  else
    do currentDir <- this getNotesDirectory;
    tryCatch
      (if JS.startsWith currentDir (js "content://")
       then getSAFNotes currentDir
       else getFileSystemNotes currentDir)
      (fun error =>
         log LogError (js "Error reading notes:") (Some error);;
         ret []).

(** The target directory of a note operation; the same lines open
    [getNote] (504-519), [saveNote] (593-608) and [deleteNote] (673-688). *)
Definition targetDirOf (rootDir : jsstring) (folderPath : option jsstring)
  : jsstring :=
  match folderPath with
  | Some fp =>
      if negb (bool_decide (JS.trim fp = [])) then
        if JS.startsWith rootDir (js "content://")
        then rootDir ++ js "/" ++ fp
        else rootDir ++ fp ++ js "/"
      else rootDir
  | None => rootDir
  end.

(** [getWebNote(id)], lines 564-581. *)
Definition getWebNote (id : jsstring) : M (option Note) :=
  do notesData <- call localStorage_getItem;
  match notesData with
  | None | Some TextEmpty => ret None
  | Some t =>
      tryCatch
        (do notes <- parsedEntries t;
         match list_find (fun n => w_id n = Some id) notes with
         | None => ret None
         | Some (_, note) =>
             ret (Some (mkNote (w_filename note) (w_content note)
                          (w_createdAt note) (w_updatedAt note)
                          (w_filePath note)))
         end)
        (fun _ => ret None)
  end.

(** The body of the [try] of [getNote], lines 503-557: read the note from
    the backend and remember it. *)
Definition readNoteFromBackend (filename : jsstring)
    (folderPath : option jsstring) (cacheKey : jsstring) : M (option Note) :=
  do rootDir <- this getNotesDirectory;
  let targetDir := targetDirOf rootDir folderPath in
  do note <-
    (if JS.startsWith targetDir (js "content://") then
       let fileUri := targetDir ++ js "/" ++ filename ++ js ".md" in
       do content <- call (saf_readFile fileUri);
       do fileStat <- call (saf_stat fileUri);
       ret (mkNote filename content (df_lastModified fileStat)
              (df_lastModified fileStat) fileUri)
     else
       let filePath := targetDir ++ filename ++ js ".md" in
       do content <- call (FileSystem_readAsStringAsync filePath);
       do fileStat <- call (FileSystem_getInfoAsync filePath);
       do modTime <- modTimeOf fileStat;
       ret (mkNote filename content modTime modTime filePath));
  do cache <- this noteContentCache;
  assign (set_noteContentCache (<[cacheKey := note]> cache));;
  ret (Some note).

(** The [try] statement of [getNote], lines 502-561. *)
Definition readNoteOrNull (filename : jsstring)
    (folderPath : option jsstring) (cacheKey : jsstring) : M (option Note) :=
  tryCatch (readNoteFromBackend filename folderPath cacheKey)
    (fun error =>
       log LogError (js "Error reading note:") (Some error);;
       ret None).

Definition noteCacheKey (filename : jsstring) (folderPath : option jsstring)
  : jsstring :=
  js "note_" ++ filename ++ js "_" ++ orElse (default [] folderPath) (js "root").

(** [getNote(filename, folderPath?)], lines 489-562. *)
Definition getNote (filename : jsstring) (folderPath : option jsstring)
  : M (option Note) :=
  if isWeb then getWebNote filename
  else
    let cacheKey := noteCacheKey filename folderPath in
    do valid <- isCacheValid;
    do cache <- this noteContentCache;
    match valid, cache !! cacheKey with
    | true, Some cached => ret (Some cached)
    | _, _ => readNoteOrNull filename folderPath cacheKey
    end.

(** [deleteWebNote(id)], lines 708-719. *)
Definition deleteWebNote (id : jsstring) : M unit :=
  do notesData <- call localStorage_getItem;
  match notesData with
  | None | Some TextEmpty => ret tt
  | Some t =>
      tryCatch
        (do notes <- parsedEntries t;
         let filteredNotes := filter (fun n => w_id n <> Some id) notes in
         call (localStorage_setItem filteredNotes))
        (fun error =>
           log LogError (js "Error deleting web note:") (Some error))
  end.

(** The locator of the note [name] in [targetDir], as the three note
    operations build it. *)
Definition locatorOf (targetDir name : jsstring) : jsstring :=
  if JS.startsWith targetDir (js "content://")
  then targetDir ++ js "/" ++ name ++ js ".md"
  else targetDir ++ name ++ js ".md".

(** Lines 690-698 of [deleteNote]: the call of the backend. *)
Definition removeEntry (targetDir id : jsstring) : M unit :=
  if JS.startsWith targetDir (js "content://")
  then
    let fileUri := targetDir ++ js "/" ++ id ++ js ".md" in
    do _ <- call (saf_unlink fileUri); ret tt
  else
    let filePath := targetDir ++ id ++ js ".md" in
    call (FileSystem_deleteAsync filePath).

(** [deleteNote(id, folderPath?)], lines 665-706. *)
Definition deleteNote (id : jsstring) (folderPath : option jsstring)
  : M unit :=
  if isWeb then deleteWebNote id
  else
    tryCatch
      (do rootDir <- this getNotesDirectory;
       let targetDir := targetDirOf rootDir folderPath in
       removeEntry targetDir id;;
       clearCache)
      (fun error =>
         log LogError (js "Error deleting note:") (Some error);;
         throw error).

(** [saveWebNote(note)], lines 637-663. *)
Definition saveWebNote (note : Note) : M unit :=
  do notesData <- call localStorage_getItem;
  do notes <-
    match notesData with
    | Some (TextEntries l) => ret l
    | Some TextNotArray => throw TypeError
    | _ => ret []
    end;
  let existingIndex :=
    list_find (fun n => w_filename n = filename note) notes in
  do now <- dateNow;
  let noteData :=
    mkWebEntry None (filename note) (content note) None
      (createdAt note) now (filePath note) in
  let notes' :=
    match existingIndex with
    | Some (i, _) => <[i := noteData]> notes
    | None => notes ++ [noteData]
    end in
  call (localStorage_setItem notes').

(** Lines 610-617 of [saveNote]: a changed filename deletes the old file
    first; a deletion that fails is logged and the save goes on. *)
Definition removeOldEntry (note : Note) (oldFilename folderPath : option jsstring)
  : M unit :=
  match oldFilename with
  | Some (c :: old) =>
      if negb (bool_decide (c :: old = filename note)) then
        tryCatch (deleteNote (c :: old) folderPath)
          (fun error =>
             log LogLog (js "Old file not found or could not be deleted:")
               (Some error))
      else ret tt
  | _ => ret tt
  end.

(** Lines 619-627 of [saveNote]: the call of the backend. *)
Definition writeEntry (targetDir : jsstring) (note : Note) : M unit :=
  if JS.startsWith targetDir (js "content://")
  then
    let fileUri := targetDir ++ js "/" ++ filename note ++ js ".md" in
    call (saf_writeFile fileUri (content note))
  else
    let filePath := targetDir ++ filename note ++ js ".md" in
    call (FileSystem_writeAsStringAsync filePath (content note)).

(** [saveNote(note, oldFilename?, folderPath?)], lines 583-635. *)
Definition saveNote (note : Note) (oldFilename folderPath : option jsstring)
  : M unit :=
  if isWeb then saveWebNote note
  else
    ensureDirectoryExists;;
    tryCatch
      (do rootDir <- this getNotesDirectory;
       let targetDir := targetDirOf rootDir folderPath in
       removeOldEntry note oldFilename folderPath;;
       writeEntry targetDir note;;
       clearCache)
      (fun error =>
         log LogError (js "Error saving note:") (Some error);;
         throw error).

(** [loadUserPreferences()], lines 724-742. *)
Definition loadUserPreferences : M unit :=
  tryCatch
    (do preferencesData <- asyncStorageWithTimeout_getItem (js "user_preferences");
     match preferencesData with
     | Some (c :: text) =>
         match JSON_parse (c :: text) with
         | Ok parsed =>
             assign (set_userPreferences
                       (spread DEFAULT_PREFERENCES (ownProperties parsed)))
         | Throw e => throw e
         end
     | _ => assign (set_userPreferences DEFAULT_PREFERENCES)
     end)
    (fun error =>
       log LogWarn
         (js "AsyncStorage failed to load user preferences, using defaults")
         None;;
       assign (set_userPreferences DEFAULT_PREFERENCES)).

(** [saveUserPreferences(preferences)], lines 747-754. The argument is the
    object passed, a map of the properties it has. *)
Definition saveUserPreferences (preferences : gmap jsstring JsVal) : M unit :=
  tryCatch
    (do current <- this userPreferences;
     assign (set_userPreferences (spread current preferences));;
     do merged <- this userPreferences;
     asyncStorageWithTimeout_setItem (js "user_preferences")
       (JSON_stringify (VObj merged)))
    (fun error =>
       log LogError (js "Failed to save user preferences:") (Some error)).

Definition getUserPreferences : M UserPreferences := this userPreferences.

(** [o.p]: the property, or [undefined]. *)
Definition property (o : gmap jsstring JsVal) (p : jsstring) : JsVal :=
  default VUndef (o !! p).

Definition getShowTimestamps : M JsVal :=
  do prefs <- this userPreferences; ret (property prefs (js "showTimestamps")).

Definition setShowTimestamps (show : bool) : M unit :=
  saveUserPreferences {[ js "showTimestamps" := VBool show ]}.

Definition getWelcomeCompleted : M JsVal :=
  do prefs <- this userPreferences; ret (property prefs (js "welcomeCompleted")).

Definition setWelcomeCompleted (completed : bool) : M unit :=
  saveUserPreferences {[ js "welcomeCompleted" := VBool completed ]}.

(** [separateFoldersAndMarkdownFiles(files)], lines 947-964. *)
Fixpoint separateFoldersAndMarkdownFiles (files : list DocumentFileDetail)
  : list FolderItem * list DocumentFileDetail :=
  match files with
  | [] => ([], [])
  | file :: rest =>
      let '(folders, markdownFiles) := separateFoldersAndMarkdownFiles rest in
      if bool_decide (df_type file = TypeDirectory) then
        (mkFolderItem (df_name file) (df_uri file) (df_lastModified file)
           (df_lastModified file) :: folders, markdownFiles)
      else if JS.endsWith (df_name file) (js ".md") then
        (folders, file :: markdownFiles)
      else (folders, markdownFiles)
  end.

(** [processMarkdownFiles(files, processFile)], lines 969-973. *)
Definition processMarkdownFiles {A}
    (files : list A) (processFile : A -> M (option NoteItem))
  : M (list NoteItem) :=
  do notesResults <- mapM processFile files;
  ret (catOptions notesResults).

(** [processRegularFiles(files, currentDir)], lines 978-1015. *)
Definition processRegularFiles (files : list jsstring) (currentDir : jsstring)
  : M (list FolderItem * list jsstring) :=
  let markdownFiles :=
    filter (fun file => JS.endsWith file (js ".md") = true) files in
  let regularFiles :=
    filter (fun file => JS.endsWith file (js ".md") <> true) files in
  do folderResults <-
    mapM (fun file =>
            tryCatch
              (let filePath := currentDir ++ file in
               do stat <- call (FileSystem_getInfoAsync filePath);
               if fi_exists stat && fi_isDirectory stat then
                 do modTime <-
                   match fi_modificationTime stat with
                   | Some t => ret t
                   | None =>
                       dateNow
                   end;
                 ret (Some (mkFolderItem file (filePath ++ js "/")
                              modTime modTime))
               else ret None)
              (fun error =>
                 log LogError (js "Error processing file " ++ file ++ js ":")
                   (Some error);;
                 ret None))
         regularFiles;
  ret (catOptions folderResults, markdownFiles).

(** [buildDirectoryContents(folders, notes, currentPath, rootPath)],
    lines 1020-1029. *)
Definition buildDirectoryContents (folders : list FolderItem)
    (notes : list NoteItem) (currentPath rootPath : jsstring)
  : DirectoryContents :=
  mkDirectoryContents
    (JS.sort (fun a b => localeCompare (fo_name a) (fo_name b)) folders)
    (JS.sort (byUpdatedDesc ni_updatedAt) notes)
    currentPath
    (getParentPath currentPath rootPath).

(** [buildEmptyDirectoryContents(currentPath, rootPath)], lines 1034-1041. *)
Definition buildEmptyDirectoryContents (currentPath rootPath : jsstring)
  : DirectoryContents :=
  mkDirectoryContents [] [] currentPath (getParentPath currentPath rootPath).

(** [getSAFDirectoryContents(directoryUri, rootPath)], lines 853-875. *)
Definition getSAFDirectoryContents (directoryUri rootPath : jsstring)
  : M DirectoryContents :=
  tryCatch
    (do files <- call (saf_listFiles directoryUri);
     let '(folders, markdownFiles) := separateFoldersAndMarkdownFiles files in
     do notes <-
       processMarkdownFiles markdownFiles
         (fun file =>
            do content <- call (saf_readFile (df_uri file));
            ret (Some (mkNoteItem
                         (JS.removeFirst (js ".md") (df_name file))
                         (JS.substring_to 200 content)
                         (df_lastModified file) (df_lastModified file)
                         (df_uri file))));
     ret (buildDirectoryContents folders notes directoryUri rootPath))
    (fun error =>
       log LogError (js "Error reading SAF directory contents:") (Some error);;
       ret (buildEmptyDirectoryContents directoryUri rootPath)).

(** [getFileSystemDirectoryContents(currentDir, rootPath)], lines 880-907. *)
Definition getFileSystemDirectoryContents (currentDir rootPath : jsstring)
  : M DirectoryContents :=
  tryCatch
    (do files <- call (FileSystem_readDirectoryAsync currentDir);
     do separated <- processRegularFiles files currentDir;
     let '(folders, markdownFiles) := separated in
     do notes <-
       processMarkdownFiles markdownFiles
         (fun file =>
            let filePath := currentDir ++ file in
            do content <- call (FileSystem_readAsStringAsync filePath);
            do stat <- call (FileSystem_getInfoAsync filePath);
            do modTime <- modTimeOf stat;
            ret (Some (mkNoteItem
                         (JS.removeFirst (js ".md") file)
                         (JS.substring_to 200 content)
                         modTime modTime filePath)));
     ret (buildDirectoryContents folders notes currentDir rootPath))
    (fun error =>
       log LogError (js "Error reading filesystem directory contents:")
         (Some error);;
       ret (buildEmptyDirectoryContents currentDir rootPath)).

(** [getWebDirectoryContents(targetPath, rootPath)], lines 912-942. *)
Definition getWebDirectoryContents (targetPath rootPath : jsstring)
  : M DirectoryContents :=
  do notesData <- call localStorage_getItem;
  do notes <-
    match notesData with
    | None | Some TextEmpty => ret []
    | Some t =>
        tryCatch
          (do allNotes <- parsedEntries t;
           ret ((fun note =>
                   mkNoteItem (w_filename note)
                     (match w_preview note with
                      | Some (c :: p) => c :: p
                      | _ => JS.substring_to 200 (w_content note)
                      end)
                     (w_createdAt note) (w_updatedAt note)
                     (orElse (w_filePath note)
                        (targetPath ++ js "/" ++ w_filename note ++ js ".md")))
                  <$> allNotes))
          (fun _ => ret [])
    end;
  ret (mkDirectoryContents [] (JS.sort (byUpdatedDesc ni_updatedAt) notes)
         targetPath None).

(** [getDirectoryContents(directoryPath?)], lines 794-822. *)
Definition getDirectoryContents (directoryPath : option jsstring)
  : M DirectoryContents :=
  do current <- this getCurrentDirectory;
  let targetPath := orElse (default [] directoryPath) current in
  do rootPath <- this getNotesDirectory;
  loadDirectoryPreference;;
  ensureDirectoryExists;;
  if isWeb then getWebDirectoryContents targetPath rootPath
  else
    tryCatch
      (if JS.startsWith targetPath (js "content://")
       then getSAFDirectoryContents targetPath rootPath
       else getFileSystemDirectoryContents targetPath rootPath)
      (fun error =>
         log LogError (js "Error reading directory contents:") (Some error);;
         ret (mkDirectoryContents [] [] targetPath
                (getParentPath targetPath rootPath))).

(** [navigateToDirectory(path)], lines 1046-1049. *)
Definition navigateToDirectory (path : jsstring) : M DirectoryContents :=
  setCurrentDirectory path;;
  getDirectoryContents (Some path).

(** [navigateToParent()], lines 1054-1061. *)
Definition navigateToParent : M (option DirectoryContents) :=
  do currentContents <- getDirectoryContents None;
  match parentPath currentContents with
  | Some (c :: p) =>
      setCurrentDirectory (c :: p);;
      do contents <- getDirectoryContents (Some (c :: p));
      ret (Some contents)
  | _ => ret None
  end.

(** [navigateToRoot()], lines 1066-1069. *)
Definition navigateToRoot : M DirectoryContents :=
  resetToRootDirectory;;
  getDirectoryContents None.

End Service.

(** ** A reference host

    An in-memory implementation of the host interface, used to run the
    service on concrete inputs: a store of files and directories by
    locator, a list of locators the store refuses to change, the two
    key-value stores, a clock that advances with every reading, and a JSON
    reader and writer for integers, strings, arrays and objects. *)

Module RefJSON.

Definition isSpace (c : N) : bool := bool_decide (c ∈ [32; 9; 10; 13]%N).

Fixpoint skipSpace (s : jsstring) : jsstring :=
  match s with
  | c :: r => if isSpace c then skipSpace r else s
  | [] => []
  end.

Definition isDigit (c : N) : bool := (48 <=? c)%N && (c <=? 57)%N.

Fixpoint digits (s : jsstring) (acc : Z) : Z * jsstring :=
  match s with
  | c :: r => if isDigit c then digits r (10 * acc + Z.of_N (c - 48)) else (acc, s)
  | [] => (acc, [])
  end.

(** The text of a string after its opening quote. *)
Fixpoint stringBody (s acc : jsstring) : option (jsstring * jsstring) :=
  match s with
  | [] => None
  | 34%N :: r => Some (reverse acc, r)
  | 92%N :: 117%N :: a :: b :: c :: d :: r =>
      match JS.hexDigit a, JS.hexDigit b, JS.hexDigit c, JS.hexDigit d with
      | Some x, Some y, Some z, Some t =>
          stringBody r ((4096 * x + 256 * y + 16 * z + t)%N :: acc)
      | _, _, _, _ => None
      end
  | 92%N :: e :: r =>
      if bool_decide (e ∈ [34; 92; 47]%N) then stringBody r (e :: acc)
      else if N.eqb e 110 then stringBody r (10%N :: acc)
      else if N.eqb e 116 then stringBody r (9%N :: acc)
      else if N.eqb e 114 then stringBody r (13%N :: acc)
      else if N.eqb e 98 then stringBody r (8%N :: acc)
      else if N.eqb e 102 then stringBody r (12%N :: acc)
      else None
  | c :: r => if (c <? 32)%N then None else stringBody r (c :: acc)
  end.

Fixpoint value (fuel : nat) (s : jsstring) : option (JsVal * jsstring) :=
  match fuel with
  | O => None
  | S fuel' =>
      match skipSpace s with
      | 110%N :: 117%N :: 108%N :: 108%N :: r => Some (VNull, r)
      | 116%N :: 114%N :: 117%N :: 101%N :: r => Some (VBool true, r)
      | 102%N :: 97%N :: 108%N :: 115%N :: 101%N :: r => Some (VBool false, r)
      | 34%N :: r =>
          match stringBody r [] with
          | Some (str, r') => Some (VStr str, r')
          | None => None
          end
      | 91%N :: r =>
          match skipSpace r with
          | 93%N :: r' => Some (VArr [], r')
          | _ =>
              match elements fuel' r with
              | Some (l, r') => Some (VArr l, r')
              | None => None
              end
          end
      | 123%N :: r =>
          match skipSpace r with
          | 125%N :: r' => Some (VObj ∅, r')
          | _ =>
              match members fuel' r with
              | Some (m, r') => Some (VObj m, r')
              | None => None
              end
          end
      | 45%N :: c :: r =>
          if isDigit c then
            let '(z, r') := digits (c :: r) 0 in Some (VNum (- z), r')
          else None
      | c :: r =>
          if isDigit c then
            let '(z, r') := digits (c :: r) 0 in Some (VNum z, r')
          else None
      | [] => None
      end
  end
with elements (fuel : nat) (s : jsstring) : option (list JsVal * jsstring) :=
  match fuel with
  | O => None
  | S fuel' =>
      match value fuel' s with
      | Some (v, r) =>
          match skipSpace r with
          | 44%N :: r' =>
              match elements fuel' r' with
              | Some (l, r'') => Some (v :: l, r'')
              | None => None
              end
          | 93%N :: r' => Some ([v], r')
          | _ => None
          end
      | None => None
      end
  end
with members (fuel : nat) (s : jsstring)
  : option (gmap jsstring JsVal * jsstring) :=
  match fuel with
  | O => None
  | S fuel' =>
      match skipSpace s with
      | 34%N :: r =>
          match stringBody r [] with
          | Some (key, r1) =>
              match skipSpace r1 with
              | 58%N :: r2 =>
                  match value fuel' r2 with
                  | Some (v, r3) =>
                      match skipSpace r3 with
                      | 44%N :: r4 =>
                          match members fuel' r4 with
                          | Some (m, r5) =>
                              (* a later duplicate key wins *)
                              Some (m ∪ {[ key := v ]}, r5)
                          | None => None
                          end
                      | 125%N :: r4 => Some ({[ key := v ]}, r4)
                      | _ => None
                      end
                  | None => None
                  end
              | _ => None
              end
          | None => None
          end
      | _ => None
      end
  end.

Definition parse (s : jsstring) : Res JsVal :=
  match value (3 * S (length s)) s with
  | Some (v, r) =>
      match skipSpace r with
      | [] => Ok v
      | _ => Throw SyntaxError
      end
  | None => Throw SyntaxError
  end.

Definition natNumeral (z : Z) : jsstring :=
  if z <? 0 then 45%N :: numeral (Z.to_nat (- z)) else numeral (Z.to_nat z).

Definition hexUnit (n : N) : N :=
  if (n <? 10)%N then (48 + n)%N else (87 + n)%N.

Definition quote (s : jsstring) : jsstring :=
  34%N :: concat ((fun c : N =>
                     if bool_decide (c ∈ [34; 92]%N) then [92%N; c]
                     else if (c <? 32)%N
                     then [92; 117; 48; 48; hexUnit (c / 16); hexUnit (c mod 16)]%N
                     else [c]) <$> s) ++ [34%N].

Definition isUndef (v : JsVal) : bool :=
  match v with VUndef => true | _ => false end.

Fixpoint stringify (v : JsVal) : jsstring :=
  match v with
  | VUndef | VNull => js "null"
  | VBool true => js "true"
  | VBool false => js "false"
  | VNum z => natNumeral z
  | VStr s => quote s
  | VArr l => js "[" ++ JS.join (js ",") (map stringify l) ++ js "]"
  | VObj m =>
      js "{"
      ++ JS.join (js ",")
           (map_fold (fun k x acc =>
                        if isUndef x then acc
                        else (quote k ++ js ":" ++ stringify x) :: acc) [] m)
      ++ js "}"
  end.

End RefJSON.


Record RefWorld := mkRefWorld {
  rw_clock : Z;
  rw_files : gmap jsstring (jsstring * Z);  (* locator -> content, time *)
  rw_dirs : gmap jsstring Z;                (* locator -> time *)
  rw_locked : list jsstring;                (* locators that refuse changes *)
  rw_picked : option jsstring;              (* what the folder picker returns *)
  rw_local : option NotesText;              (* localStorage, key 'notes' *)
  rw_async : gmap jsstring jsstring;        (* AsyncStorage *)
  rw_async_hangs : bool;                    (* AsyncStorage never settles *)
}.

Module Ref.

Definition with_clock (t : Z) (w : RefWorld) : RefWorld :=
  mkRefWorld t (rw_files w) (rw_dirs w) (rw_locked w) (rw_picked w)
    (rw_local w) (rw_async w) (rw_async_hangs w).
Definition with_files (f : gmap jsstring (jsstring * Z)) (w : RefWorld)
  : RefWorld :=
  mkRefWorld (rw_clock w) f (rw_dirs w) (rw_locked w) (rw_picked w)
    (rw_local w) (rw_async w) (rw_async_hangs w).
Definition with_dirs (d : gmap jsstring Z) (w : RefWorld) : RefWorld :=
  mkRefWorld (rw_clock w) (rw_files w) d (rw_locked w) (rw_picked w)
    (rw_local w) (rw_async w) (rw_async_hangs w).
Definition with_local (l : option NotesText) (w : RefWorld) : RefWorld :=
  mkRefWorld (rw_clock w) (rw_files w) (rw_dirs w) (rw_locked w) (rw_picked w)
    l (rw_async w) (rw_async_hangs w).
Definition with_async (a : gmap jsstring jsstring) (w : RefWorld) : RefWorld :=
  mkRefWorld (rw_clock w) (rw_files w) (rw_dirs w) (rw_locked w) (rw_picked w)
    (rw_local w) a (rw_async_hangs w).

Definition now (w : RefWorld) : Z * RefWorld :=
  (rw_clock w, with_clock (rw_clock w + 1) w).

Definition locked (p : jsstring) (w : RefWorld) : bool :=
  bool_decide (p ∈ rw_locked w).

(** [faults] switches the refusals on; without it the store never fails
    on an entry it has. *)

Definition denied : Exn := Error (js "EACCES").
Definition missing : Exn := Error (js "ENOENT").

(** A directory is stored without the closing separator. *)
Definition dirKey (p : jsstring) : jsstring :=
  if JS.endsWith p (js "/") then take (length p - 1) p else p.

(** The names directly under the prefix [d]. *)
Definition namesUnder {A} (d : jsstring) (m : gmap jsstring A)
  : list (jsstring * A) :=
  omap (fun '(k, x) =>
          let n := drop (length d) k in
          if JS.startsWith k d
             && negb (bool_decide (n = []))
             && negb (JS.includes n (js "/"))
          then Some (n, x) else None)
       (map_to_list m).

Definition getInfoAsync (p : jsstring) (w : RefWorld) : Res FileInfo * RefWorld :=
  match rw_dirs w !! dirKey p, rw_files w !! p with
  | Some t, _ => (Ok (mkFileInfo true true (Some t)), w)
  | None, Some (_, t) => (Ok (mkFileInfo true false (Some t)), w)
  | None, None => (Ok (mkFileInfo false false None), w)
  end.

Definition makeDirectoryAsync (faults : bool) (p : jsstring) (w : RefWorld)
  : Res unit * RefWorld :=
  if faults && locked p w then (Throw denied, w)
  else (Ok tt, with_dirs (<[dirKey p := rw_clock w]> (rw_dirs w)) w).

Definition readDirectoryAsync (p : jsstring) (w : RefWorld)
  : Res (list jsstring) * RefWorld :=
  match rw_dirs w !! dirKey p with
  | Some _ =>
      (Ok ((fst <$> namesUnder p (rw_files w))
           ++ (fst <$> namesUnder p (rw_dirs w))), w)
  | None => (Throw missing, w)
  end.

Definition read (p : jsstring) (w : RefWorld) : Res jsstring * RefWorld :=
  match rw_files w !! p with
  | Some (c, _) => (Ok c, w)
  | None => (Throw missing, w)
  end.

Definition write (faults : bool) (p c : jsstring) (w : RefWorld)
  : Res unit * RefWorld :=
  if faults && locked p w then (Throw denied, w)
  else (Ok tt, with_files (<[p := (c, rw_clock w)]> (rw_files w)) w).

Definition remove (faults : bool) (p : jsstring) (w : RefWorld)
  : Res unit * RefWorld :=
  if faults && locked p w then (Throw denied, w)
  else
    match rw_files w !! p with
    | Some _ => (Ok tt, with_files (delete p (rw_files w)) w)
    | None => (Throw missing, w)
    end.

Definition unlink (faults : bool) (p : jsstring) (w : RefWorld)
  : Res bool * RefWorld :=
  match remove faults p w with
  | (Ok _, w') => (Ok true, w')
  | (Throw e, w') => (Throw e, w')
  end.

Definition stat (p : jsstring) (w : RefWorld)
  : Res DocumentFileDetail * RefWorld :=
  match rw_files w !! p, rw_dirs w !! p with
  | Some (_, t), _ =>
      (Ok (mkDocumentFileDetail
             (default [] (last (JS.split JS.slash p))) TypeFile p t), w)
  | None, Some t =>
      (Ok (mkDocumentFileDetail
             (default [] (last (JS.split JS.slash p))) TypeDirectory p t), w)
  | None, None => (Throw missing, w)
  end.

Definition listFiles (p : jsstring) (w : RefWorld)
  : Res (list DocumentFileDetail) * RefWorld :=
  match rw_dirs w !! p with
  | Some _ =>
      let d := p ++ js "/" in
      (Ok (((fun '(n, (_, t)) => mkDocumentFileDetail n TypeFile (d ++ n) t)
              <$> namesUnder d (rw_files w))
           ++ ((fun '(n, t) => mkDocumentFileDetail n TypeDirectory (d ++ n) t)
                 <$> namesUnder d (rw_dirs w))), w)
  | None => (Throw missing, w)
  end.

(** AsyncStorage: a call settles at once, or, in a world whose
    AsyncStorage hangs, never. *)
Definition getItem (key : jsstring) (w : RefWorld)
  : Outcome (option jsstring) * RefWorld :=
  if rw_async_hangs w then (Pending, w)
  else (SettledAt 0 (Ok (rw_async w !! key)), w).

Definition setItem (key value : jsstring) (w : RefWorld)
  : Outcome unit * RefWorld :=
  if rw_async_hangs w then (Pending, w)
  else (SettledAt 0 (Ok tt), with_async (<[key := value]> (rw_async w)) w).

Definition removeItem (key : jsstring) (w : RefWorld)
  : Outcome unit * RefWorld :=
  if rw_async_hangs w then (Pending, w)
  else (SettledAt 0 (Ok tt), with_async (delete key (rw_async w)) w).

(** Lexicographic comparison of code units. *)
Fixpoint compareUnits (a b : jsstring) : Z :=
  match a, b with
  | [], [] => 0
  | [], _ :: _ => -1
  | _ :: _, [] => 1
  | x :: a', y :: b' =>
      if (x <? y)%N then -1 else if (y <? x)%N then 1 else compareUnits a' b'
  end.

(** A collation that ignores the case of A-Z. *)
Definition compareNames (a b : jsstring) : Z :=
  compareUnits (JS.toLowerCase a) (JS.toLowerCase b).

Definition host (os : Platform) (faults : bool) : Host RefWorld := {|
  Platform_OS := os;
  FileSystem_documentDirectory := js "file:///data/";
  Date_now := now;
  FileSystem_getInfoAsync := getInfoAsync;
  FileSystem_makeDirectoryAsync := makeDirectoryAsync faults;
  FileSystem_readDirectoryAsync := readDirectoryAsync;
  FileSystem_readAsStringAsync := read;
  FileSystem_writeAsStringAsync := write faults;
  FileSystem_deleteAsync := remove faults;
  saf_openDocumentTree := fun w => (Ok (rw_picked w), w);
  saf_listFiles := listFiles;
  saf_readFile := read;
  saf_writeFile := write faults;
  saf_unlink := unlink faults;
  saf_stat := stat;
  localStorage_getItem := fun w => (Ok (rw_local w), w);
  localStorage_setItem :=
    fun l w => (Ok tt, with_local (Some (TextEntries l)) w);
  AsyncStorage_getItem := getItem;
  AsyncStorage_setItem := setItem;
  AsyncStorage_removeItem := removeItem;
  JSON_parse := RefJSON.parse;
  JSON_stringify := RefJSON.stringify;
  localeCompare := compareNames;
|}.

(** A world with nothing stored, at the clock [t]. *)
Definition emptyWorld (t : Z) : RefWorld :=
  mkRefWorld t ∅ ∅ [] None None ∅ false.

(** The state of a fresh process on the platform [os]. *)
Definition start (os : Platform) (w : RefWorld) : State RefWorld :=
  mkState (@newService RefWorld (host os false)) w [].

End Ref.


(** ** The service as a state machine *)

(** The public methods, as a caller invokes them. *)
Inductive Call :=
  | CallSetCurrentDirectory (path : jsstring)
  | CallResetToRootDirectory
  | CallSetCustomDirectory (directory : jsstring)
  | CallLoadDirectoryPreference
  | CallSelectCustomDirectory
  | CallGetStorageLocationInfo
  | CallEnsureDirectoryExists
  | CallGetAllNotes
  | CallGetNote (filename : jsstring) (folderPath : option jsstring)
  | CallSaveNote (note : Note) (oldFilename folderPath : option jsstring)
  | CallDeleteNote (id : jsstring) (folderPath : option jsstring)
  | CallLoadUserPreferences
  | CallSaveUserPreferences (preferences : gmap jsstring JsVal)
  | CallSetShowTimestamps (show : bool)
  | CallSetWelcomeCompleted (completed : bool)
  | CallGetDirectoryContents (directoryPath : option jsstring)
  | CallNavigateToDirectory (path : jsstring)
  | CallNavigateToParent
  | CallNavigateToRoot.

Section Machine.
Context {W : Type} `{Host W}.

(** The state a call leaves, whether it returned or threw. *)
Definition perform (c : Call) (s : State W) : State W :=
  match c with
  | CallSetCurrentDirectory path => (setCurrentDirectory path s).2
  | CallResetToRootDirectory => (resetToRootDirectory s).2
  | CallSetCustomDirectory directory => (setCustomDirectory directory s).2
  | CallLoadDirectoryPreference => (loadDirectoryPreference s).2
  | CallSelectCustomDirectory => (selectCustomDirectory s).2
  | CallGetStorageLocationInfo => (getStorageLocationInfo s).2
  | CallEnsureDirectoryExists => (ensureDirectoryExists s).2
  | CallGetAllNotes => (getAllNotes s).2
  | CallGetNote filename folderPath => (getNote filename folderPath s).2
  | CallSaveNote note oldFilename folderPath =>
      (saveNote note oldFilename folderPath s).2
  | CallDeleteNote id folderPath => (deleteNote id folderPath s).2
  | CallLoadUserPreferences => (loadUserPreferences s).2
  | CallSaveUserPreferences preferences => (saveUserPreferences preferences s).2
  | CallSetShowTimestamps show => (setShowTimestamps show s).2
  | CallSetWelcomeCompleted completed => (setWelcomeCompleted completed s).2
  | CallGetDirectoryContents directoryPath =>
      (getDirectoryContents directoryPath s).2
  | CallNavigateToDirectory path => (navigateToDirectory path s).2
  | CallNavigateToParent => (navigateToParent s).2
  | CallNavigateToRoot => (navigateToRoot s).2
  end.

(** The states of a process: it starts with a fresh singleton in some
    world, callers invoke public methods, and the world may change
    between two calls. *)
Inductive Reachable : State W -> Prop :=
  | reach_start (w : W) : Reachable (mkState newService w [])
  | reach_call (c : Call) (s : State W) :
      Reachable s -> Reachable (perform c s)
  | reach_world (s : State W) (w : W) :
      Reachable s -> Reachable (mkState (svc s) w (console s)).

(** Both caches empty and the timestamp at zero: what [clearCache]
    leaves. *)
Definition cacheCleared (v : Service) : Prop :=
  notesCache v = ∅ /\ noteContentCache v = ∅ /\ lastCacheUpdate v = 0.

(** [getAllNotes] with the cache lookups of the two listings taken as
    misses: the validity check runs, then the backend is read. *)
Definition getAllNotesFromBackend : M W (list NotePreview) :=
  loadDirectoryPreference;;
  ensureDirectoryExists;;
  if isWeb then getWebNotes
  else
    do currentDir <- this getNotesDirectory;
    tryCatch
      (isCacheValid;;
       if JS.startsWith currentDir (js "content://")
       then listSAFNotesFromBackend currentDir (getCacheKey currentDir)
       else listFileSystemNotesFromBackend currentDir (getCacheKey currentDir))
      (fun error =>
         log LogError (js "Error reading notes:") (Some error);;
         ret []).

(** [getNote] with its cache lookup taken as a miss. *)
Definition getNoteFromBackend (filename : jsstring)
    (folderPath : option jsstring) : M W (option Note) :=
  if isWeb then getWebNote filename
  else
    isCacheValid;;
    readNoteOrNull filename folderPath (noteCacheKey filename folderPath).

(** The two mutations of the note store. *)
Inductive Mutation : M W unit -> Prop :=
  | mutation_save note oldFilename folderPath :
      Mutation (saveNote note oldFilename folderPath)
  | mutation_delete id folderPath :
      Mutation (deleteNote id folderPath).

(** Orders of a listing. *)
Definition foldersAscending (l : list FolderItem) : Prop :=
  StronglySorted
    (fun a b => localeCompare (fo_name a) (fo_name b) <= 0) l.

Definition foldersAscendingIgnoringCase (l : list FolderItem) : Prop :=
  StronglySorted
    (fun a b => localeCompare (JS.toLowerCase (fo_name a))
                  (JS.toLowerCase (fo_name b)) <= 0) l.

Definition notesNewestFirst (l : list NoteItem) : Prop :=
  StronglySorted (fun a b => ni_updatedAt b <= ni_updatedAt a) l.

(** Every [updatedAt] of the notes is a valid Date. *)
Definition notesDated (l : list NoteItem) : Prop :=
  Forall (fun n => validTime (ni_updatedAt n)) l.

Definition listingInOrder (dc : DirectoryContents) : Prop :=
  foldersAscending (folders dc)
  /\ (notesDated (notes dc) -> notesNewestFirst (notes dc)).

(** A method keeps a property of the service object. *)
Definition keeps (P : Service -> Prop) {A} (m : M W A) : Prop :=
  forall s, P (svc s) -> P (svc (m s).2).

(** What a method returns, when it returns. *)
Definition returns {A} (m : M W A) (Q : A -> Prop) : Prop :=
  forall s a s', m s = (Ok a, s') -> Q a.

End Machine.

(** ** Assumptions on hosts *)

(** A collation: [localeCompare] is a consistent comparator, as ECMA-262
    (22.1.3.12) requires of it: it defines a total ordering of the
    strings. Which ordering is left to the implementation; nothing is
    assumed of case. *)
Class Collation (W : Type) `{Host W} := {
  collation_total : forall a b,
    0 < localeCompare a b -> localeCompare b a <= 0;
  collation_trans : forall a b c,
    localeCompare a b <= 0 -> localeCompare b c <= 0 -> localeCompare a c <= 0;
}.

(** A file store: the two file backends keep one content per locator, and
    [entries] is what they hold. Writing and deleting change the one
    locator; looking does not change anything. *)
Class FileStore (W : Type) `{Host W} := {
  entries : W -> gmap jsstring jsstring;
  store_now : forall w, entries (Date_now w).2 = entries w;
  store_getInfo : forall p w,
    entries (FileSystem_getInfoAsync p w).2 = entries w;
  store_makeDirectory : forall p w,
    entries (FileSystem_makeDirectoryAsync p w).2 = entries w;
  store_read : forall p w,
    entries (FileSystem_readAsStringAsync p w).2 = entries w;
  store_write : forall p c w w',
    FileSystem_writeAsStringAsync p c w = (Ok tt, w') ->
    entries w' = <[p := c]> (entries w);
  store_delete : forall p w w',
    FileSystem_deleteAsync p w = (Ok tt, w') ->
    entries w' = delete p (entries w);
  store_readFile : forall p w,
    entries (saf_readFile p w).2 = entries w;
  store_stat : forall p w,
    entries (saf_stat p w).2 = entries w;
  store_writeFile : forall p c w w',
    saf_writeFile p c w = (Ok tt, w') ->
    entries w' = <[p := c]> (entries w);
  store_unlink : forall p w w',
    saf_unlink p w = (Ok true, w') ->
    entries w' = delete p (entries w);
}.

(** A reliable file store: a deletion fails only for want of the entry,
    and an entry that is there can be read. *)
Class ReliableStore (W : Type) `{FileStore W} := {
  reliable_delete : forall p e w w',
    FileSystem_deleteAsync p w = (Throw e, w') ->
    entries w !! p = None /\ entries w' = entries w;
  reliable_unlink : forall p r w w',
    saf_unlink p w = (r, w') -> r <> Ok true ->
    entries w !! p = None /\ entries w' = entries w;
  reliable_read : forall p c w,
    entries w !! p = Some c ->
    (FileSystem_readAsStringAsync p w).1 = Ok c;
  reliable_getInfo : forall p w,
    exists i, (FileSystem_getInfoAsync p w).1 = Ok i;
  reliable_readFile : forall p c w,
    entries w !! p = Some c ->
    (saf_readFile p w).1 = Ok c;
  reliable_stat : forall p c w,
    entries w !! p = Some c ->
    exists d, (saf_stat p w).1 = Ok d;
}.

(** ** Further notions for the properties *)

Section Notions.
Context {W : Type} `{Host W}.

(** What a method returns from a state whose service object has the
    property [P]. *)
Definition yields (P : Service -> Prop) {A} (m : M W A) (Q : A -> Prop)
  : Prop :=
  forall s a s', P (svc s) -> m s = (Ok a, s') -> Q a.

(** Newest first, as far as the comparator can tell: when every
    [updatedAt] is a valid Date. *)
Definition previewsNewestFirst (l : list NotePreview) : Prop :=
  Forall (fun p => validTime (np_updatedAt p)) l ->
  StronglySorted (fun a b => np_updatedAt b <= np_updatedAt a) l.

(** Every listing the cache holds is in the order of [getAllNotes], as
    far as its Dates are valid. *)
Definition cachedListingsInOrder (v : Service) : Prop :=
  forall k l, notesCache v !! k = Some l -> previewsNewestFirst l.

(** The three fields of the cache. *)
Definition cacheOf (v : Service)
  : gmap jsstring (list NotePreview) * gmap jsstring Note * Z :=
  (notesCache v, noteContentCache v, lastCacheUpdate v).

(** A listing of the directory [targetPath] whose parent is [parent]. *)
Definition listingAt (targetPath : jsstring) (parent : option jsstring)
    (dc : DirectoryContents) : Prop :=
  currentPath dc = targetPath /\ parentPath dc = parent.

(** The state of a process that starts in the world [w]. *)
Definition freshProcess (w : W) : State W := mkState newService w [].

End Notions.

Section MoreNotions.
Context {W : Type} `{Host W}.

(** A method that returns from every state. *)
Definition neverRejects {A} (m : M W A) : Prop :=
  forall s, exists a s', m s = (Ok a, s').

(** The filename a save moves the note away from: the old filename, when
    one is given and differs from the new one. *)
Definition renamedFrom (note : Note) (oldFilename : option jsstring)
  : option jsstring :=
  match oldFilename with
  | Some (c :: old) =>
      if bool_decide (c :: old = filename note) then None else Some (c :: old)
  | _ => None
  end.

End MoreNotions.

(** The storage of the browser: [stored] is what it holds under the key
    of the notes. Reading it and reading the clock do not change it; a
    write that succeeds replaces it, one that fails leaves it. *)
Class WebStore (W : Type) `{Host W} := {
  stored : W -> option NotesText;
  web_now : forall w, stored (Date_now w).2 = stored w;
  web_getItem : forall w,
    (localStorage_getItem w).1 = Ok (stored w)
    /\ stored (localStorage_getItem w).2 = stored w;
  web_setItem : forall l w,
    match localStorage_setItem l w with
    | (Ok _, w') => stored w' = Some (TextEntries l)
    | (Throw _, w') => stored w' = stored w
    end;
}.

(** The entries a text of the storage gives [saveWebNote]: a text that
    does not parse counts as the empty array. *)
Definition entriesOf (t : option NotesText) : list WebEntry :=
  match t with
  | Some (TextEntries l) => l
  | _ => []
  end.

(** A folder of the plain backend: its path is the directory, its name
    and the separator, and its name does not end in [.md]. *)
Definition plainFolder (currentDir : jsstring) (f : FolderItem) : Prop :=
  fo_path f = currentDir ++ fo_name f ++ js "/"
  /\ JS.endsWith (fo_name f) (js ".md") = false.

(** A note of the plain backend: its path is the directory and a file
    name that ends in [.md]; its filename is the stem of the file name
    when the stem holds no [.md] of its own. *)
Definition plainNote (currentDir : jsstring) (n : NoteItem) : Prop :=
  exists stem,
    ni_filePath n = currentDir ++ stem ++ js ".md"
    /\ (JS.includes stem (js ".md") = false -> ni_filename n = stem).

(** ** Notions for a rename *)

Section StoreNotions.
Context {W : Type} `{FileStore W}.

(** The deletion of the backend can fail only because the entry does not
    exist: a [deleteAsync] that rejects, and an [unlink] that rejects or
    resolves with [false], found no entry, and changed none. *)
Definition deletionFailsOnlyWhenMissing : Prop :=
  (forall p e w w',
      FileSystem_deleteAsync p w = (Throw e, w') ->
      entries w !! p = None /\ entries w' = entries w)
  /\ (forall p r w w',
         saf_unlink p w = (r, w') -> r <> Ok true ->
         entries w !! p = None /\ entries w' = entries w).

(** Lines 619-634 of [saveNote]: the write of the backend, the clearing
    of the cache, and the [catch] of the method. *)
Definition writeAndClearCache (targetDir : jsstring) (note : Note) : M W unit :=
  tryCatch
    (writeEntry targetDir note;;
     clearCache)
    (fun error =>
       log LogError (js "Error saving note:") (Some error);;
       throw error).

(** The two lines the console gets when the deletion of the old file
    rejects with [e]: the one of [deleteNote], line 703, and the one of
    [saveNote], line 615. *)
Definition failedDeletionLogged (e : Exn) : list LogEntry :=
  [mkLogEntry LogError (js "Error deleting note:") (Some e);
   mkLogEntry LogLog (js "Old file not found or could not be deleted:")
     (Some e)].

End StoreNotions.

(** ** Sample inputs *)

Module Sample.

Definition root : jsstring := js "file:///data/Notes/".

(** A store with two notes and three folders under the root of the app,
    the note "old" refusing changes, and persisted preferences that say
    only that timestamps are hidden. *)
Definition world : RefWorld :=
  mkRefWorld 1700000000000
    (<[root ++ js "old.md" := (js "# old", 1000)]>
       (<[root ++ js "b.md" := (js "b", 3000)]> ∅))
    (<[js "file:///data/Notes" := 500]>
       (<[root ++ js "beta" := 600]>
          (<[root ++ js "Alpha" := 700]>
             (<[root ++ js "Gamma" := 800]> ∅))))
    [root ++ js "old.md"]
    None
    None
    {[ js "user_preferences" :=
         js "{" ++ RefJSON.quote (js "showTimestamps") ++ js ":false}" ]}
    false.

(** The same world with an AsyncStorage that never settles. *)
Definition hangingWorld : RefWorld :=
  mkRefWorld (rw_clock world) (rw_files world) (rw_dirs world)
    (rw_locked world) (rw_picked world) (rw_local world) (rw_async world)
    true.

Definition renamed : Note := mkNote (js "new") (js "# new") 1000 2000 [].

Definition todo : Note := mkNote (js "todo") (js "# buy milk") 1000 1000 [].

End Sample.

(** ** Further sample inputs *)

Module Cases.

(** A directory handle of the picker, and a store that holds two notes
    under it. *)
Definition tree : jsstring :=
  js "content://com.android.externalstorage.documents/tree/primary%3ANotes".

Definition safWorld : RefWorld :=
  mkRefWorld 1700000000000
    (<[tree ++ js "/a.md" := (js "# a", 1000)]>
       (<[tree ++ js "/b.md" := (js "# b", 3000)]> ∅))
    (<[tree := 500]> (<[tree ++ js "/sub" := 600]> ∅))
    [] (Some tree) None ∅ false.

(** The storage of a browser with two entries, the older one first, as
    two saves leave them. *)
Definition first : WebEntry :=
  mkWebEntry None (js "first") (js "# first") None 1000 1000 [].
Definition second : WebEntry :=
  mkWebEntry None (js "second") (js "# second") None 2000 2000 [].

Definition webWorld : RefWorld :=
  mkRefWorld 1700000000000 ∅ ∅ [] None
    (Some (TextEntries [first; second])) ∅ false.

(** A store of the app with a file whose name holds [.md] twice. *)
Definition plainWorld : RefWorld :=
  mkRefWorld 1700000000000
    (<[Sample.root ++ js "b.md" := (js "b", 3000)]>
       (<[Sample.root ++ js "x.mdy.md" := (js "x", 2000)]> ∅))
    (<[js "file:///data/Notes" := 500]>
       (<[Sample.root ++ js "sub" := 600]> ∅))
    [] None None ∅ false.

(** A store that refuses to create the directory of the app. *)
Definition lockedWorld : RefWorld :=
  mkRefWorld 0 ∅ ∅ [Sample.root] None None ∅ false.

(** A host whose store refuses to write the locked locators and deletes
    whatever it is asked to delete. *)
Definition writeProtected (os : Platform) : Host RefWorld := {|
  Platform_OS := os;
  FileSystem_documentDirectory := js "file:///data/";
  Date_now := Ref.now;
  FileSystem_getInfoAsync := Ref.getInfoAsync;
  FileSystem_makeDirectoryAsync := Ref.makeDirectoryAsync false;
  FileSystem_readDirectoryAsync := Ref.readDirectoryAsync;
  FileSystem_readAsStringAsync := Ref.read;
  FileSystem_writeAsStringAsync := Ref.write true;
  FileSystem_deleteAsync := Ref.remove false;
  saf_openDocumentTree := fun w => (Ok (rw_picked w), w);
  saf_listFiles := Ref.listFiles;
  saf_readFile := Ref.read;
  saf_writeFile := Ref.write true;
  saf_unlink := Ref.unlink false;
  saf_stat := Ref.stat;
  localStorage_getItem := fun w => (Ok (rw_local w), w);
  localStorage_setItem :=
    fun l w => (Ok tt, Ref.with_local (Some (TextEntries l)) w);
  AsyncStorage_getItem := Ref.getItem;
  AsyncStorage_setItem := Ref.setItem;
  AsyncStorage_removeItem := Ref.removeItem;
  JSON_parse := RefJSON.parse;
  JSON_stringify := RefJSON.stringify;
  localeCompare := Ref.compareNames;
|}.

(** The store of the app with the note old, and no room for the note new. *)
Definition fullWorld : RefWorld :=
  mkRefWorld 1700000000000
    (<[Sample.root ++ js "old.md" := (js "# old", 1000)]> ∅)
    (<[js "file:///data/Notes" := 500]> ∅)
    [Sample.root ++ js "new.md"] None None ∅ false.

(** A note that takes the place of the entry [first]. *)
Definition changed : Note := mkNote (js "first") (js "# changed") 1000 1000 [].

(** The host of the app with a [localeCompare] that compares code units,
    as an engine built without the internationalisation library has it:
    the capital letters come before the small ones. *)
Definition codeUnits (os : Platform) : Host RefWorld := {|
  Platform_OS := os;
  FileSystem_documentDirectory := js "file:///data/";
  Date_now := Ref.now;
  FileSystem_getInfoAsync := Ref.getInfoAsync;
  FileSystem_makeDirectoryAsync := Ref.makeDirectoryAsync false;
  FileSystem_readDirectoryAsync := Ref.readDirectoryAsync;
  FileSystem_readAsStringAsync := Ref.read;
  FileSystem_writeAsStringAsync := Ref.write false;
  FileSystem_deleteAsync := Ref.remove false;
  saf_openDocumentTree := fun w => (Ok (rw_picked w), w);
  saf_listFiles := Ref.listFiles;
  saf_readFile := Ref.read;
  saf_writeFile := Ref.write false;
  saf_unlink := Ref.unlink false;
  saf_stat := Ref.stat;
  localStorage_getItem := fun w => (Ok (rw_local w), w);
  localStorage_setItem :=
    fun l w => (Ok tt, Ref.with_local (Some (TextEntries l)) w);
  AsyncStorage_getItem := Ref.getItem;
  AsyncStorage_setItem := Ref.setItem;
  AsyncStorage_removeItem := Ref.removeItem;
  JSON_parse := RefJSON.parse;
  JSON_stringify := RefJSON.stringify;
  localeCompare := Ref.compareUnits;
|}.

(** An [unlink] that never rejects: it resolves with [false] for a
    locked locator and for one that holds nothing, and leaves the store
    as it is. *)
Definition unlinkQuietly (p : jsstring) (w : RefWorld) : Res bool * RefWorld :=
  if Ref.locked p w then (Ok false, w)
  else
    match rw_files w !! p with
    | Some _ => (Ok true, Ref.with_files (delete p (rw_files w)) w)
    | None => (Ok false, w)
    end.

Definition quietUnlink (os : Platform) : Host RefWorld := {|
  Platform_OS := os;
  FileSystem_documentDirectory := js "file:///data/";
  Date_now := Ref.now;
  FileSystem_getInfoAsync := Ref.getInfoAsync;
  FileSystem_makeDirectoryAsync := Ref.makeDirectoryAsync false;
  FileSystem_readDirectoryAsync := Ref.readDirectoryAsync;
  FileSystem_readAsStringAsync := Ref.read;
  FileSystem_writeAsStringAsync := Ref.write false;
  FileSystem_deleteAsync := Ref.remove false;
  saf_openDocumentTree := fun w => (Ok (rw_picked w), w);
  saf_listFiles := Ref.listFiles;
  saf_readFile := Ref.read;
  saf_writeFile := Ref.write false;
  saf_unlink := unlinkQuietly;
  saf_stat := Ref.stat;
  localStorage_getItem := fun w => (Ok (rw_local w), w);
  localStorage_setItem :=
    fun l w => (Ok tt, Ref.with_local (Some (TextEntries l)) w);
  AsyncStorage_getItem := Ref.getItem;
  AsyncStorage_setItem := Ref.setItem;
  AsyncStorage_removeItem := Ref.removeItem;
  JSON_parse := RefJSON.parse;
  JSON_stringify := RefJSON.stringify;
  localeCompare := Ref.compareNames;
|}.

(** The store under the handle, with the note a refusing changes. *)
Definition lockedSafWorld : RefWorld :=
  mkRefWorld 1700000000000
    (<[tree ++ js "/a.md" := (js "# a", 1000)]> ∅)
    (<[tree := 500]> ∅)
    [tree ++ js "/a.md"] (Some tree) None ∅ false.

(** The service on that store, with the handle as its directory. *)
Definition lockedSaf : State RefWorld :=
  mkState
    (set_customDirectory (Some tree)
       (@newService RefWorld (quietUnlink Android)))
    lockedSafWorld [].

Definition moved : Note := mkNote (js "c") (js "# c") 1000 2000 [].

End Cases.

(** * Properties *)

(** Closed decidable facts, by evaluation. *)
Ltac decide_by_compute := apply (bool_decide_unpack _); vm_compute; exact I.

(** ** Strings *)

Section StringFacts.

Lemma startsWith_app (p r : jsstring) : JS.startsWith (p ++ r) p = true.
Proof.
  unfold JS.startsWith. apply bool_decide_eq_true.
  by rewrite take_app_length.
Qed.

Lemma startsWith_prefix (s p : jsstring) :
  JS.startsWith s p = true <-> exists r, s = p ++ r.
Proof.
  unfold JS.startsWith. rewrite bool_decide_eq_true. split.
  - intros E. exists (drop (length p) s).
    rewrite <- E at 1. by rewrite take_drop.
  - intros [r ->]. by rewrite take_app_length.
Qed.

Lemma startsWith_app_l (s r p : jsstring) :
  JS.startsWith s p = true -> JS.startsWith (s ++ r) p = true.
Proof.
  rewrite !startsWith_prefix. intros [t ->]. exists (t ++ r).
  by rewrite <- app_assoc.
Qed.

Lemma split_nonempty (c : N) (s : jsstring) : JS.split c s <> [].
Proof.
  induction s as [|x r IH]; simpl; [done|].
  destruct (N.eqb x c); [done|]. by destruct (JS.split c r).
Qed.

(** A separator at the end opens one more, empty, part. *)
Lemma split_snoc (c : N) (s : jsstring) :
  JS.split c (s ++ [c]) = JS.split c s ++ [[]].
Proof.
  induction s as [|x r IH]; simpl.
  - by rewrite N.eqb_refl.
  - rewrite IH. destruct (N.eqb x c); [done|].
    pose proof (split_nonempty c r). by destruct (JS.split c r).
Qed.

(** A last part without separator is split off as it is. *)
Lemma split_app_part (c : N) (s n : jsstring) :
  c ∉ n -> JS.split c (s ++ c :: n) = JS.split c s ++ [n].
Proof.
  intros Hn. induction s as [|x r IH]; simpl.
  - rewrite N.eqb_refl. f_equal.
    clear -Hn. induction n as [|y n IH]; simpl; [done|].
    destruct (N.eqb_spec y c) as [->|_]; [set_solver|].
    rewrite IH; [done|set_solver].
  - rewrite IH. destruct (N.eqb x c); [done|].
    pose proof (split_nonempty c r). by destruct (JS.split c r).
Qed.

(** A first part without separator is split off as it is. *)
Lemma split_part_app (c : N) (n s : jsstring) :
  c ∉ n -> JS.split c (n ++ c :: s) = n :: JS.split c s.
Proof.
  intros Hn. induction n as [|y n IH]; simpl.
  - by rewrite N.eqb_refl.
  - destruct (N.eqb_spec y c) as [->|_]; [set_solver|].
    rewrite IH; [done|set_solver].
Qed.

Lemma split_no_separator (c : N) (n : jsstring) :
  c ∉ n -> JS.split c n = [n].
Proof.
  induction n as [|y n IH]; simpl; [done|]. intros Hn.
  destruct (N.eqb_spec y c) as [->|_]; [set_solver|].
  rewrite IH; [done|set_solver].
Qed.

(** Joining the parts with the separator gives the string back. *)
Lemma join_split (c : N) (s : jsstring) : JS.join [c] (JS.split c s) = s.
Proof.
  induction s as [|x r IH]; simpl; [done|].
  pose proof (split_nonempty c r) as Hne.
  destruct (N.eqb_spec x c) as [->|_].
  - destruct (JS.split c r) as [|p ps] eqn:E; [done|].
    simpl in *. by rewrite IH.
  - destruct (JS.split c r) as [|p ps] eqn:E; [done|].
    destruct ps as [|q qs]; simpl in *; by rewrite <- IH.
Qed.

Lemma slice_0_m1_snoc {A} (l : list A) (x : A) : JS.slice_0_m1 (l ++ [x]) = l.
Proof.
  unfold JS.slice_0_m1. rewrite length_app. simpl.
  replace (length l + 1 - 1)%nat with (length l) by lia.
  by rewrite take_app_length.
Qed.

Lemma includes_here (s p : jsstring) :
  JS.startsWith s p = true -> JS.includes s p = true.
Proof. intros E. destruct s; simpl; by rewrite E. Qed.

Lemma includes_app_r (a s p : jsstring) :
  JS.includes s p = true -> JS.includes (a ++ s) p = true.
Proof.
  intros E. induction a as [|x a IH]; simpl; [done|].
  rewrite IH. apply orb_true_r.
Qed.

(** [includes] finds the unit [c] exactly when it occurs. *)
Lemma includes_unit (s : jsstring) (c : N) :
  JS.includes s [c] = true <-> c ∈ s.
Proof.
  induction s as [|x r IH]; simpl.
  - split; [done|]. by intros ?%elem_of_nil.
  - rewrite orb_true_iff, IH, elem_of_cons.
    unfold JS.startsWith. cbn [length take]. rewrite bool_decide_eq_true.
    rewrite take_0.
    split; (intros [E|E]; [left|right]); congruence.
Qed.

End StringFacts.

(** ** decodeURIComponent: the fuel of the loop is enough *)

Lemma parseOctet_shorter (s r : jsstring) (b : N) :
  JS.parseOctet s = Some (b, r) -> (length r < length s)%nat.
Proof.
  unfold JS.parseOctet. intros E.
  repeat case_match; simplify_eq. simpl. lia.
Qed.

Lemma parseOctets_shorter (n : nat) (s r : jsstring) (bs : list N) :
  JS.parseOctets n s = Some (bs, r) -> (length r <= length s)%nat.
Proof.
  revert s bs. induction n as [|n IH]; simpl; intros s bs E.
  - by simplify_eq.
  - destruct (JS.parseOctet s) as [[b r1]|] eqn:E1; [|done].
    destruct (JS.parseOctets n r1) as [[bs' r2]|] eqn:E2; [|done].
    simplify_eq. apply parseOctet_shorter in E1. apply IH in E2. lia.
Qed.

(** More fuel than the length of the input changes nothing. *)
Lemma decodeLoop_fuel (f f' : nat) (s : jsstring) :
  (length s <= f)%nat -> (length s <= f')%nat ->
  JS.decodeLoop f s = JS.decodeLoop f' s.
Proof.
  revert f' s. induction f as [|f IH]; intros f' s Hf Hf'.
  - destruct s; [by destruct f'|simpl in Hf; lia].
  - destruct s as [|c r]; [by destruct f'|].
    destruct f' as [|f']; [simpl in Hf'; lia|].
    simpl in Hf, Hf'. cbn [JS.decodeLoop].
    destruct (N.eqb c JS.percent).
    + destruct (JS.parseOctet (c :: r)) as [[b r1]|] eqn:E1; [|done].
      pose proof (parseOctet_shorter _ _ _ E1) as L1. simpl in L1.
      destruct (JS.leadingOnes b) as [|n].
      * rewrite (IH f' r1); [done|lia|lia].
      * destruct (bool_decide (n = 0%nat) || bool_decide (3 < n)%nat); [done|].
        destruct (JS.parseOctets n r1) as [[bs r2]|] eqn:E2; [|done].
        pose proof (parseOctets_shorter _ _ _ _ E2) as L2.
        destruct (JS.utf8CodePoint b bs); [|done].
        rewrite (IH f' r2); [done|lia|lia].
    + rewrite (IH f' r); [done|lia|lia].
Qed.

(** Text without escapes decodes to itself. *)
Lemma decodeURIComponent_plain (s : jsstring) :
  JS.percent ∉ s -> JS.decodeURIComponent s = Some s.
Proof.
  unfold JS.decodeURIComponent. induction s as [|c r IH]; [done|].
  intros Hn. cbn [length JS.decodeLoop].
  destruct (N.eqb_spec c JS.percent) as [->|_]; [set_solver|].
  rewrite IH; [done|set_solver].
Qed.

(** What [matchTree] captures follows "/tree/", is not empty and holds no
    line terminator. *)
Lemma matchTree_sound (s seg : jsstring) :
  JS.matchTree s = Some seg ->
  (exists pre, s = pre ++ js "/tree/" ++ seg)
  /\ seg <> []
  /\ Forall (fun c => JS.isLineTerminator c = false) seg.
Proof.
  induction s as [|c r IH].
  - by cbn.
  - cbn [JS.matchTree].
    destruct (JS.startsWith (c :: r) (js "/tree/")
              && negb (bool_decide (drop 6 (c :: r) = []))
              && forallb (fun c => negb (JS.isLineTerminator c)) (drop 6 (c :: r)))
      eqn:E.
    + intros [= <-]. apply andb_true_iff in E as [E E3].
      apply andb_true_iff in E as [E1 E2].
      apply startsWith_prefix in E1 as [t Ht].
      split; [|split].
      * simpl in Ht. injection Ht as -> ->. by exists [].
      * apply negb_true_iff, bool_decide_eq_false in E2. done.
      * rewrite forallb_forall in E3. apply List.Forall_forall.
        intros x Hx. apply E3 in Hx. by destruct (JS.isLineTerminator x).
    + intros E'. destruct (IH E') as ([pre ->] & ? & ?).
      split; [|done]. by exists (c :: pre).
Qed.

Lemma decodeURIComponent_nonempty (s p : jsstring) :
  s <> [] -> JS.decodeURIComponent s = Some p -> p <> [].
Proof.
  unfold JS.decodeURIComponent. destruct s as [|c r]; [done|]. intros _.
  cbn [length JS.decodeLoop].
  destruct (N.eqb c JS.percent).
  - destruct (JS.parseOctet (c :: r)) as [[b r1]|]; [|done].
    destruct (JS.leadingOnes b) as [|n].
    + destruct (JS.decodeLoop _ r1); simpl; [|done]. by intros [= <-].
    + destruct (bool_decide (n = 0%nat) || bool_decide (3 < n)%nat); [done|].
      destruct (JS.parseOctets n r1) as [[bs r2]|]; [|done].
      destruct (JS.utf8CodePoint b bs) as [cp|]; [|done].
      destruct (JS.decodeLoop _ r2); simpl; [|done]. intros [= <-].
      unfold JS.utf16Encode. by destruct (cp <? 65536)%N.
  - destruct (JS.decodeLoop _ r); simpl; [|done]. by intros [= <-].
Qed.

(** Only the name "primary" puts "primary:" at the head of "name:rest". *)
Lemma startsWith_primary (name rel : jsstring) :
  JS.colon ∉ name ->
  JS.startsWith (name ++ js ":" ++ rel) (js "primary:") = true ->
  name = js "primary".
Proof.
  intros Hn [t Ht]%startsWith_prefix. simpl in Ht. unfold JS.colon in Hn.
  do 7 (destruct name as [|? name]; simplify_eq/=).
  destruct name as [|? name]; simplify_eq/=; [done|].
  exfalso. apply Hn. set_solver.
Qed.

Lemma startsWith_primary_colon (p : jsstring) :
  JS.startsWith p (js "primary:") = true -> JS.colon ∈ p.
Proof. intros [t ->]%startsWith_prefix. unfold JS.colon. simpl. set_solver. Qed.

(** ** Parent paths *)

(** At the root there is no parent, whatever the backend. *)
Lemma getParentPath_root (root : jsstring) : getParentPath root root = None.
Proof. unfold getParentPath. by rewrite bool_decide_eq_true_2. Qed.

(** X3: a handle one level below the root has the root as parent. *)
Lemma getParentPath_handle_child (root name : jsstring) :
  JS.startsWith root (js "content://") = true ->
  JS.slash ∉ name ->
  getParentPath (root ++ js "/" ++ name) root = Some root.
Proof.
  intros Hroot Hname. unfold getParentPath.
  rewrite bool_decide_eq_false_2.
  2: { intros E. apply (f_equal length) in E. rewrite length_app in E.
       simpl in E. lia. }
  rewrite (startsWith_app_l _ _ _ Hroot).
  change (js "/" ++ name) with (JS.slash :: name).
  rewrite split_app_part by done.
  rewrite slice_0_m1_snoc.
  change (js "/") with [JS.slash]. rewrite join_split.
  by destruct (4 <? _)%nat.
Qed.

(** X4: a plain path written without the closing separator has the directory
    that holds it as parent. *)
Lemma getParentPath_plain_child (dir name : jsstring) :
  JS.startsWith (dir ++ js "/" ++ name) (js "content://") = false ->
  JS.slash ∉ name -> name <> [] ->
  getParentPath (dir ++ js "/" ++ name) (dir ++ js "/") = Some (dir ++ js "/").
Proof.
  intros Hplain Hname Hne. unfold getParentPath.
  rewrite bool_decide_eq_false_2.
  2: { intros E. apply (f_equal length) in E. rewrite !length_app in E.
       simpl in E. destruct name; [done|simpl in E; lia]. }
  rewrite Hplain.
  change (js "/" ++ name) with (JS.slash :: name).
  rewrite split_app_part by done.
  rewrite slice_0_m1_snoc, length_app. simpl.
  pose proof (split_nonempty JS.slash dir) as Hs.
  destruct (JS.split JS.slash dir) as [|p ps] eqn:E; [done|].
  replace (1 <? length (p :: ps) + 1)%nat with true
    by (symmetry; apply Nat.ltb_lt; simpl; lia).
  rewrite <- E. change (js "/") with [JS.slash]. rewrite join_split.
  by rewrite Nat.leb_refl.
Qed.

(** C3: [getParentPath] on the folder paths of the plain backend. The
    claim wants the parent of a path one level below the root to be the
    root. A folder path of the plain backend ends with the separator
    ([processRegularFiles] builds [filePath + '/']), the split leaves an
    empty last part, and dropping that part gives the path itself back:
    such a path is returned as its own parent. *)
Theorem getParentPath_plain_folder (root name : jsstring) :
  JS.startsWith (root ++ name ++ js "/") (js "content://") = false ->
  getParentPath (root ++ name ++ js "/") root = Some (root ++ name ++ js "/").
Proof.
  intros Hplain. unfold getParentPath.
  rewrite bool_decide_eq_false_2.
  2: { intros E. apply (f_equal length) in E. rewrite !length_app in E.
       simpl in E. lia. }
  rewrite Hplain.
  rewrite !app_assoc. change (js "/") with [JS.slash].
  rewrite split_snoc, slice_0_m1_snoc, length_app. simpl.
  pose proof (split_nonempty JS.slash (root ++ name)) as Hs.
  destruct (JS.split JS.slash (root ++ name)) as [|p ps] eqn:E; [done|].
  replace (1 <? length (p :: ps) + 1)%nat with true
    by (symmetry; apply Nat.ltb_lt; simpl; lia).
  rewrite <- E, join_split.
  replace (length root <=? length ((root ++ name) ++ [JS.slash]))%nat with true;
    [done|].
  symmetry. apply Nat.leb_le. rewrite !length_app. lia.
Qed.

(** The folder "sub" of the root "file:///data/Notes/". *)
Lemma getParentPath_plain_folder_witness :
  JS.startsWith (js "file:///data/Notes/" ++ js "sub" ++ js "/") (js "content://")
    = false
  /\ getParentPath (js "file:///data/Notes/" ++ js "sub" ++ js "/")
       (js "file:///data/Notes/")
     = Some (js "file:///data/Notes/sub/").
Proof.
  split; [reflexivity|].
  apply (getParentPath_plain_folder (js "file:///data/Notes/") (js "sub")).
  reflexivity.
Defined.

(** ** Readable locations *)

(** C7: [parseSafUriToReadablePath], case by case. A string that is no
    content URI comes back as it is; a content URI without a tree segment,
    or whose segment does not decode, gives "Custom Folder"; a decoded
    segment "primary:rest" gives the rest, or "Internal Storage"; a decoded
    segment "name:rest" whose name contains "sd" or "external" in any case
    gives "SD Card/rest" ("SD Card" for an empty rest), any other name
    gives "name/rest" (the name for an empty rest); a decoded segment
    without colon is returned as it is; and the handle
    "content://auth/tree/primary:Documents" reads "Documents". *)
Theorem parseSafUriToReadablePath_cases :
  (forall s,
      JS.startsWith s (js "content://") = false ->
      parseSafUriToReadablePath s = s)
  /\ (forall s,
         JS.startsWith s (js "content://") = true ->
         JS.matchTree s = None ->
         parseSafUriToReadablePath s = js "Custom Folder")
  /\ (forall s seg,
         JS.startsWith s (js "content://") = true ->
         JS.matchTree s = Some seg ->
         JS.decodeURIComponent seg = None ->
         parseSafUriToReadablePath s = js "Custom Folder")
  /\ (forall s seg rel,
         JS.startsWith s (js "content://") = true ->
         JS.matchTree s = Some seg ->
         JS.decodeURIComponent seg = Some (js "primary:" ++ rel) ->
         parseSafUriToReadablePath s = orElse rel (js "Internal Storage"))
  /\ (forall s seg name rel,
         JS.startsWith s (js "content://") = true ->
         JS.matchTree s = Some seg ->
         JS.decodeURIComponent seg = Some (name ++ js ":" ++ rel) ->
         JS.colon ∉ name -> name <> js "primary" ->
         parseSafUriToReadablePath s =
           if JS.includes (JS.toLowerCase name) (js "sd")
              || JS.includes (JS.toLowerCase name) (js "external")
           then match rel with [] => js "SD Card" | _ => js "SD Card/" ++ rel end
           else match rel with [] => name | _ => name ++ js "/" ++ rel end)
  /\ (forall s seg p,
         JS.startsWith s (js "content://") = true ->
         JS.matchTree s = Some seg ->
         JS.decodeURIComponent seg = Some p ->
         JS.colon ∉ p ->
         parseSafUriToReadablePath s = p)
  /\ parseSafUriToReadablePath (js "content://auth/tree/primary:Documents")
     = js "Documents".
Proof.
  repeat split.
  - intros s Hs. unfold parseSafUriToReadablePath. by rewrite Hs.
  - intros s Hs Hm. unfold parseSafUriToReadablePath. by rewrite Hs, Hm.
  - intros s seg Hs Hm Hd. unfold parseSafUriToReadablePath.
    by rewrite Hs, Hm, Hd.
  - intros s seg rel Hs Hm Hd. unfold parseSafUriToReadablePath.
    rewrite Hs, Hm, Hd. cbn [negb]. by rewrite startsWith_app.
  - intros s seg name rel Hs Hm Hd Hc Hp. unfold parseSafUriToReadablePath.
    rewrite Hs, Hm, Hd. cbn [negb].
    destruct (JS.startsWith (name ++ js ":" ++ rel) (js "primary:")) eqn:E.
    { by apply startsWith_primary in E. }
    change (js ":" ++ rel) with (JS.colon :: rel).
    rewrite split_part_app by done.
    replace (JS.includes (name ++ JS.colon :: rel) (js ":")) with true.
    2: { symmetry. apply includes_unit. set_solver. }
    pose proof (split_nonempty JS.colon rel) as Hne.
    replace (2 <=? length (name :: JS.split JS.colon rel))%nat with true.
    2: { symmetry. apply Nat.leb_le. simpl.
         destruct (JS.split JS.colon rel); [done|simpl; lia]. }
    cbn [andb hd JS.slice_1 drop]. rewrite drop_0.
    change (js ":") with [JS.colon]. rewrite join_split.
    rewrite (bool_decide_eq_false_2 (name = js "primary")) by done.
    done.
  - intros s seg p Hs Hm Hd Hc. unfold parseSafUriToReadablePath.
    rewrite Hs, Hm, Hd. cbn [negb].
    destruct (JS.startsWith p (js "primary:")) eqn:E.
    { by apply startsWith_primary_colon in E. }
    destruct (JS.includes p (js ":")) eqn:E2.
    { by apply includes_unit in E2. }
    cbn [andb].
    destruct (matchTree_sound _ _ Hm) as (_ & Hne & _).
    pose proof (decodeURIComponent_nonempty _ _ Hne Hd). by destruct p.
Qed.

(** The cases of C7 on handles as the document provider of the platform
    writes them. *)
Lemma parseSafUriToReadablePath_cases_witness :
  parseSafUriToReadablePath (js "/storage/emulated/0/Notes")
    = js "/storage/emulated/0/Notes"
  /\ parseSafUriToReadablePath (js "content://auth/document/7") = js "Custom Folder"
  /\ parseSafUriToReadablePath (js "content://auth/tree/primary%3") = js "Custom Folder"
  /\ parseSafUriToReadablePath (js "content://auth/tree/primary%3ADocuments%2FNotes")
     = js "Documents/Notes"
  /\ parseSafUriToReadablePath (js "content://auth/tree/primary%3A")
     = js "Internal Storage"
  /\ parseSafUriToReadablePath (js "content://auth/tree/SDCARD1%3ANotes")
     = js "SD Card/Notes"
  /\ parseSafUriToReadablePath (js "content://auth/tree/12FE-3A01%3ANotes")
     = js "12FE-3A01/Notes"
  /\ parseSafUriToReadablePath (js "content://auth/tree/downloads") = js "downloads".
Proof.
  destruct parseSafUriToReadablePath_cases
    as (Hplain & Hnotree & Hbad & Hprimary & Hnamed & Hraw & _).
  split; [by apply Hplain|].
  split; [by apply Hnotree|].
  split; [by apply (Hbad _ (js "primary%3"))|].
  split; [by apply (Hprimary _ (js "primary%3ADocuments%2FNotes") (js "Documents/Notes"))|].
  split; [by apply (Hprimary _ (js "primary%3A") [])|].
  split.
  { rewrite (Hnamed _ (js "SDCARD1%3ANotes") (js "SDCARD1") (js "Notes"));
      [reflexivity..| |done].
    decide_by_compute. }
  split.
  { rewrite (Hnamed _ (js "12FE-3A01%3ANotes") (js "12FE-3A01") (js "Notes"));
      [reflexivity..| |done].
    decide_by_compute. }
  apply (Hraw _ (js "downloads")); [reflexivity..|].
  decide_by_compute.
Defined.

(** ** User preferences *)

Lemma spread_lookup_r (a b : gmap jsstring JsVal) (k : jsstring) (v : JsVal) :
  b !! k = Some v -> spread a b !! k = Some v.
Proof. intros E. unfold spread. by apply lookup_union_Some_l. Qed.

Lemma spread_lookup_l (a b : gmap jsstring JsVal) (k : jsstring) :
  b !! k = None -> spread a b !! k = a !! k.
Proof. intros E. unfold spread. by apply lookup_union_r. Qed.

Section Preferences.
Context {W : Type} `{Host W}.

(** C8: [loadUserPreferences] lays the persisted payload over the
    defaults. With a payload that parses, every property of the payload
    keeps its persisted value, and a payload without [welcomeCompleted]
    (or without [showTimestamps]) gets the default, [false] (or [true]). *)
Theorem loadUserPreferences_merges
    (s : State W) (payload : jsstring) (parsed : JsVal) (w' : W) :
  AsyncStorage_raced_getItem (js "user_preferences") 5000 (world s)
    = (Ok (Some payload), w') ->
  payload <> [] ->
  JSON_parse payload = Ok parsed ->
  let prefs := userPreferences (svc (loadUserPreferences s).2) in
  (loadUserPreferences s).1 = Ok tt
  /\ prefs = spread DEFAULT_PREFERENCES (ownProperties parsed)
  /\ (forall k v, ownProperties parsed !! k = Some v -> prefs !! k = Some v)
  /\ (ownProperties parsed !! js "welcomeCompleted" = None ->
      prefs !! js "welcomeCompleted" = Some (VBool false))
  /\ (ownProperties parsed !! js "showTimestamps" = None ->
      prefs !! js "showTimestamps" = Some (VBool true)).
Proof.
  intros Hget Hne Hparse.
  assert (loadUserPreferences s
          = (Ok tt, mkState (set_userPreferences
                               (spread DEFAULT_PREFERENCES (ownProperties parsed))
                               (svc s)) w' (console s))) as E.
  { unfold loadUserPreferences, tryCatch, bind,
      asyncStorageWithTimeout_getItem, call.
    rewrite Hget. destruct payload as [|c text]; [done|].
    by rewrite Hparse. }
  rewrite E. cbn. repeat split.
  - intros k v Hk. by apply spread_lookup_r.
  - intros Hk. by rewrite spread_lookup_l.
  - intros Hk. by rewrite spread_lookup_l.
Qed.

(** X29: without a payload, or with one that does not parse or does not
    arrive, the preferences are the defaults and nothing is thrown. *)
Lemma loadUserPreferences_defaults (s : State W) :
  (forall payload parsed w',
      AsyncStorage_raced_getItem (js "user_preferences") 5000 (world s)
        = (Ok (Some payload), w') ->
      payload <> [] -> JSON_parse payload <> Ok parsed) ->
  (loadUserPreferences s).1 = Ok tt
  /\ userPreferences (svc (loadUserPreferences s).2) = DEFAULT_PREFERENCES.
Proof.
  intros Hno.
  unfold loadUserPreferences, tryCatch, bind,
    asyncStorageWithTimeout_getItem, call, assign, log, throw.
  destruct (AsyncStorage_raced_getItem _ _ _) as [[[payload|]|e] w'] eqn:E;
    cbn; [|done..].
  destruct payload as [|c text]; [done|].
  destruct (JSON_parse (c :: text)) as [parsed|e] eqn:Ep; cbn; [|done].
  exfalso. by eapply (Hno (c :: text) parsed w').
Qed.

(** C10: [saveUserPreferences] never rejects. The record in memory is the
    merged one whether or not the write to AsyncStorage succeeds, so
    [getUserPreferences] and [getShowTimestamps] return what was set; a
    write that fails or times out leaves one line on the console and
    nothing else. The same holds for [setShowTimestamps] and
    [setWelcomeCompleted], which only call it. *)
Theorem saveUserPreferences_never_rejects :
  (forall (preferences : gmap jsstring JsVal) (s : State W),
      exists s',
        saveUserPreferences preferences s = (Ok tt, s')
        /\ userPreferences (svc s')
           = spread (userPreferences (svc s)) preferences
        /\ (getUserPreferences s').1
           = Ok (spread (userPreferences (svc s)) preferences)
        /\ (forall e w,
               AsyncStorage_raced_setItem (js "user_preferences")
                 (JSON_stringify
                    (VObj (spread (userPreferences (svc s)) preferences)))
                 5000 (world s) = (Throw e, w) ->
               console s'
               = console s
                 ++ [mkLogEntry LogError
                       (js "Failed to save user preferences:") (Some e)]))
  /\ (forall (show : bool) (s : State W),
         exists s',
           setShowTimestamps show s = (Ok tt, s')
           /\ (getShowTimestamps s').1 = Ok (VBool show))
  /\ (forall (completed : bool) (s : State W),
         exists s',
           setWelcomeCompleted completed s = (Ok tt, s')
           /\ (getWelcomeCompleted s').1 = Ok (VBool completed)).
Proof.
  assert (forall preferences s,
             exists s',
               saveUserPreferences preferences s = (Ok tt, s')
               /\ userPreferences (svc s')
                  = spread (userPreferences (svc s)) preferences
               /\ (forall e w,
                      AsyncStorage_raced_setItem (js "user_preferences")
                        (JSON_stringify
                           (VObj (spread (userPreferences (svc s)) preferences)))
                        5000 (world s) = (Throw e, w) ->
                      console s'
                      = console s
                        ++ [mkLogEntry LogError
                              (js "Failed to save user preferences:") (Some e)]))
    as Hsave.
  { intros preferences s.
    unfold saveUserPreferences, tryCatch, bind, this, assign,
      asyncStorageWithTimeout_setItem, call, log. cbn.
    destruct (AsyncStorage_raced_setItem _ _ _ _) as [[[]|e] w'] eqn:E; cbn.
    - eexists. split; [reflexivity|]. split; [done|]. intros ? ? [=].
    - eexists. split; [reflexivity|]. split; [done|].
      by intros ? ? [= <- <-]. }
  split; [|split].
  - intros preferences s. destruct (Hsave preferences s) as (s' & E & Hp & Hl).
    exists s'. split; [done|]. split; [done|]. split; [|done].
    unfold getUserPreferences, this. cbn. by rewrite Hp.
  - intros show s. unfold setShowTimestamps.
    destruct (Hsave {[ js "showTimestamps" := VBool show ]} s)
      as (s' & E & Hp & _).
    exists s'. split; [done|].
    unfold getShowTimestamps, bind, this, ret, property. cbn. rewrite Hp.
    by rewrite (spread_lookup_r _ _ _ (VBool show))
      by apply lookup_singleton_eq.
  - intros completed s. unfold setWelcomeCompleted.
    destruct (Hsave {[ js "welcomeCompleted" := VBool completed ]} s)
      as (s' & E & Hp & _).
    exists s'. split; [done|].
    unfold getWelcomeCompleted, bind, this, ret, property. cbn. rewrite Hp.
    by rewrite (spread_lookup_r _ _ _ (VBool completed))
      by apply lookup_singleton_eq.
Qed.

End Preferences.

(** ** Reasoning about methods *)

Section Reasoning.
Context {W : Type} `{Host W}.

Lemma bind_ok_inv {A B} (m : M W A) (k : A -> M W B) s b s' :
  bind m k s = (Ok b, s') ->
  exists a s1, m s = (Ok a, s1) /\ k a s1 = (Ok b, s').
Proof.
  unfold bind. destruct (m s) as [[a|e] s1]; [|done]. intros E. eauto.
Qed.

Lemma bind_ok {A B} (m : M W A) (k : A -> M W B) s a s1 :
  m s = (Ok a, s1) -> bind m k s = k a s1.
Proof. unfold bind. by intros ->. Qed.

Lemma bind_throw {A B} (m : M W A) (k : A -> M W B) s e s1 :
  m s = (Throw e, s1) -> bind m k s = (Throw e, s1).
Proof. unfold bind. by intros ->. Qed.

(** A handler that throws again lets no failure through as a success. *)
Lemma tryCatch_rethrow_ok {A} (m : M W A) (h : Exn -> M W unit) s a s' :
  tryCatch m (fun e => h e;; throw e) s = (Ok a, s') -> m s = (Ok a, s').
Proof.
  unfold tryCatch, bind, throw. destruct (m s) as [[a'|e] s1]; [done|].
  by destruct (h e s1) as [[u|e'] s2].
Qed.

Context (P : Service -> Prop).

Lemma keeps_ret {A} (a : A) : keeps (W := W) P (ret a).
Proof. by intros s. Qed.

Lemma keeps_throw {A} (e : Exn) : keeps (W := W) P (throw (A := A) e).
Proof. by intros s. Qed.

Lemma keeps_this {A} (f : Service -> A) : keeps (W := W) P (this f).
Proof. by intros s. Qed.

Lemma keeps_call {A} (p : W -> Res A * W) : keeps P (call p).
Proof. intros s. unfold call. by destruct (p (world s)). Qed.

Lemma keeps_log l text v : keeps (W := W) P (log l text v).
Proof. by intros s. Qed.

Lemma keeps_assign (f : Service -> Service) :
  (forall v, P v -> P (f v)) -> keeps (W := W) P (assign f).
Proof. intros Hf s. apply Hf. Qed.

Lemma keeps_bind {A B} (m : M W A) (k : A -> M W B) :
  keeps P m -> (forall a, keeps P (k a)) -> keeps P (bind m k).
Proof.
  intros Hm Hk s Hs. unfold bind. specialize (Hm s Hs).
  destruct (m s) as [[a|e] s1]; [by apply Hk|done].
Qed.

Lemma keeps_tryCatch {A} (m : M W A) (h : Exn -> M W A) :
  keeps P m -> (forall e, keeps P (h e)) -> keeps P (tryCatch m h).
Proof.
  intros Hm Hh s Hs. unfold tryCatch. specialize (Hm s Hs).
  destruct (m s) as [[a|e] s1]; [done|by apply Hh].
Qed.

Lemma keeps_mapM {A B} (f : A -> M W B) (l : list A) :
  (forall x, keeps P (f x)) -> keeps P (mapM f l).
Proof.
  intros Hf. induction l as [|x l IH]; simpl.
  - apply keeps_ret.
  - apply keeps_bind; [apply Hf|]. intros y.
    apply keeps_bind; [apply IH|]. intros ys. apply keeps_ret.
Qed.

(** Two continuations that agree on the states with the property can be
    exchanged after a method that keeps it. *)
Lemma bind_ext_keeps {A B} (m : M W A) (k k' : A -> M W B) s :
  keeps P m -> P (svc s) ->
  (forall a s1, P (svc s1) -> k a s1 = k' a s1) ->
  bind m k s = bind m k' s.
Proof.
  intros Hm Hs Hk. unfold bind. specialize (Hm s Hs).
  destruct (m s) as [[a|e] s1]; [by apply Hk|done].
Qed.

Lemma tryCatch_ext {A} (m m' : M W A) (h : Exn -> M W A) s :
  m s = m' s -> tryCatch m h s = tryCatch m' h s.
Proof. unfold tryCatch. by intros ->. Qed.

End Reasoning.

(** One step of a proof that a method keeps a property: the structure of
    the method decides the rule. *)
Ltac keeps_step :=
  cbv zeta;
  first
    [ apply keeps_ret
    | apply keeps_throw
    | apply keeps_this
    | apply keeps_call
    | apply keeps_log
    | assumption
    | apply keeps_bind; [|intros ?]
    | apply keeps_tryCatch; [|intros ?]
    | apply keeps_mapM; intros ?
    | match goal with
      | |- keeps _ (match ?x with _ => _ end) => destruct x
      | |- keeps _ (if ?x then _ else _) => destruct x
      | |- keeps _ (let '(_, _) := ?x in _) => destruct x
      end ].

Ltac keeps_auto := repeat keeps_step.

(** ** The cache *)

Ltac unfold_methods :=
  unfold setCurrentDirectory, resetToRootDirectory, setCustomDirectory,
    loadDirectoryPreference, selectCustomDirectory, getStorageLocationInfo,
    ensureDirectoryExists, getAllNotes, getSAFNotes, getFileSystemNotes,
    listSAFNotesFromBackend, listFileSystemNotesFromBackend, getWebNotes,
    getNote, readNoteOrNull, readNoteFromBackend, getWebNote, saveNote,
    removeOldEntry, writeEntry, saveWebNote, deleteNote, removeEntry,
    deleteWebNote, loadUserPreferences, saveUserPreferences,
    setShowTimestamps, setWelcomeCompleted, getDirectoryContents,
    getSAFDirectoryContents, getFileSystemDirectoryContents,
    getWebDirectoryContents, processMarkdownFiles, processRegularFiles,
    navigateToDirectory, navigateToParent, navigateToRoot, clearCache,
    isCacheValid, dateNow, modTimeOf, parsedEntries, asyncStorageWithTimeout_getItem,
    asyncStorageWithTimeout_setItem, asyncStorageWithTimeout_removeItem in *.

Section Cache.
Context {W : Type} `{Host W}.

Lemma cacheCleared_newService : cacheCleared newService.
Proof. by repeat split. Qed.

Lemma clearCache_cleared (s s' : State W) (r : Res unit) :
  clearCache s = (r, s') -> r = Ok tt /\ cacheCleared (svc s').
Proof. intros [= <- <-]. by repeat split. Qed.

(** Apart from the listings and the note read of the file backends, no
    method puts anything into the cache: on the web platform every public
    method leaves a cleared cache cleared. *)
Lemma perform_keeps_cleared_on_web (c : Call) (s : State W) :
  isWeb = true -> cacheCleared (svc s) -> cacheCleared (svc (perform c s)).
Proof.
  intros Hweb. revert s.
  destruct c; cbn [perform];
    match goal with
    | |- forall s, _ -> cacheCleared (svc (?m s).2) =>
        change (keeps cacheCleared m)
    end;
    unfold_methods;
    repeat first
      [ match goal with
        | |- keeps _ (if isWeb then _ else _) => rewrite Hweb
        end
      | apply keeps_assign; intros ? (? & ? & ?); by repeat split
      | keeps_step
      | progress unfold_methods ].
Qed.

(** The window of validity is never assigned. *)
Lemma perform_keeps_window (c : Call) (s : State W) :
  cacheValidityDuration (svc s) = 300000 ->
  cacheValidityDuration (svc (perform c s)) = 300000.
Proof.
  revert s.
  destruct c; cbn [perform];
    match goal with
    | |- forall s, _ -> cacheValidityDuration (svc (?m s).2) = _ =>
        change (keeps (fun v => cacheValidityDuration v = 300000) m)
    end;
    unfold_methods;
    repeat first
      [ apply keeps_assign; intros ? ?; assumption
      | keeps_step
      | progress unfold_methods ].
Qed.

(** In every state of a process the window is five minutes, and on the
    web platform the cache is empty. *)
Lemma reachable_invariant (s : State W) :
  Reachable s ->
  cacheValidityDuration (svc s) = 300000
  /\ (isWeb = true -> cacheCleared (svc s)).
Proof.
  induction 1 as [w|c s _ [IHw IHc]|s w _ IH]; cbn.
  - split; [done|]. intros _. apply cacheCleared_newService.
  - split; [by apply perform_keeps_window|].
    intros Hweb. by apply perform_keeps_cleared_on_web; [|apply IHc].
  - done.
Qed.

(** A save that succeeds on a file backend ends with [clearCache]. *)
Lemma saveNote_ok_cleared note oldFilename folderPath (s s' : State W) :
  isWeb = false ->
  saveNote note oldFilename folderPath s = (Ok tt, s') ->
  cacheCleared (svc s').
Proof.
  intros Hweb. unfold saveNote. rewrite Hweb.
  intros (_ & s1 & _ & E)%bind_ok_inv.
  apply tryCatch_rethrow_ok with
    (h := fun e => log LogError (js "Error saving note:") (Some e)) in E.
  apply bind_ok_inv in E as (rootDir & s2 & _ & E). cbv zeta in E.
  apply bind_ok_inv in E as (_ & s3 & _ & E).
  apply bind_ok_inv in E as (_ & s4 & _ & E).
  by apply clearCache_cleared in E as [_ ?].
Qed.

(** A deletion that succeeds on a file backend ends with [clearCache]. *)
Lemma deleteNote_ok_cleared id folderPath (s s' : State W) :
  isWeb = false ->
  deleteNote id folderPath s = (Ok tt, s') ->
  cacheCleared (svc s').
Proof.
  intros Hweb. unfold deleteNote. rewrite Hweb. intros E.
  apply tryCatch_rethrow_ok with
    (h := fun e => log LogError (js "Error deleting note:") (Some e)) in E.
  apply bind_ok_inv in E as (rootDir & s2 & _ & E). cbv zeta in E.
  apply bind_ok_inv in E as (_ & s3 & _ & E).
  by apply clearCache_cleared in E as [_ ?].
Qed.

(** With the timestamp at zero the validity check fails as soon as the
    clock is past the window. *)
Lemma isCacheValid_cleared (s : State W) :
  lastCacheUpdate (svc s) = 0 ->
  cacheValidityDuration (svc s) <= (Date_now (world s)).1 ->
  (isCacheValid s).1 = Ok false.
Proof.
  intros Hlast Hnow. unfold isCacheValid, dateNow, bind, call, this, ret.
  destruct (Date_now (world s)) as [now w'] eqn:E. cbn in *.
  rewrite Hlast. f_equal. apply Z.ltb_ge. lia.
Qed.

(** [isCacheValid] reads the clock and nothing else. *)
Lemma isCacheValid_state (s : State W) :
  exists b,
    isCacheValid s
    = (Ok b, mkState (svc s) (Date_now (world s)).2 (console s)).
Proof.
  unfold isCacheValid, dateNow, bind, call, this, ret.
  destruct (Date_now (world s)) as [now w'] eqn:E. cbn. eauto.
Qed.

(** With an empty note cache [getNote] goes to the backend. *)
Lemma getNote_cold filename folderPath (s : State W) :
  noteContentCache (svc s) = ∅ ->
  getNote filename folderPath s = getNoteFromBackend filename folderPath s.
Proof.
  intros Hcache. unfold getNote, getNoteFromBackend.
  destruct isWeb; [done|]. cbv zeta. unfold bind at 1 3.
  destruct (isCacheValid_state s) as (b & ->).
  unfold bind, this. cbn. rewrite Hcache, lookup_empty. by destruct b.
Qed.

(** With an empty listing cache the two listings go to the backend. *)
Lemma getSAFNotes_cold directoryUri (s : State W) :
  notesCache (svc s) = ∅ ->
  getSAFNotes directoryUri s
  = (isCacheValid;;
     listSAFNotesFromBackend directoryUri (getCacheKey directoryUri)) s.
Proof.
  intros Hcache. unfold getSAFNotes. cbv zeta. unfold bind at 1 3.
  destruct (isCacheValid_state s) as (b & ->).
  unfold bind, this. cbn. rewrite Hcache, lookup_empty. by destruct b.
Qed.

Lemma getFileSystemNotes_cold currentDir (s : State W) :
  notesCache (svc s) = ∅ ->
  getFileSystemNotes currentDir s
  = (isCacheValid;;
     listFileSystemNotesFromBackend currentDir (getCacheKey currentDir)) s.
Proof.
  intros Hcache. unfold getFileSystemNotes. cbv zeta. unfold bind at 1 3.
  destruct (isCacheValid_state s) as (b & ->).
  unfold bind, this. cbn. rewrite Hcache, lookup_empty. by destruct b.
Qed.

Lemma getAllNotes_cold (s : State W) :
  notesCache (svc s) = ∅ ->
  getAllNotes s = getAllNotesFromBackend s.
Proof.
  intros Hcache. unfold getAllNotes, getAllNotesFromBackend.
  apply (bind_ext_keeps (fun v => notesCache v = ∅)); [|done|].
  { unfold_methods.
    repeat first [ apply keeps_assign; intros ? ?; assumption | keeps_step ]. }
  intros _ s1 H1.
  apply (bind_ext_keeps (fun v => notesCache v = ∅)); [|done|].
  { unfold_methods. keeps_auto. }
  intros _ s2 H2. destruct isWeb; [done|].
  unfold bind at 1 3, this. cbn. apply tryCatch_ext.
  destruct (JS.startsWith _ _).
  - by rewrite getSAFNotes_cold.
  - by rewrite getFileSystemNotes_cold.
Qed.

(** C1: a [saveNote] or [deleteNote] that succeeds leaves the whole cache
    cleared, in every state of a process and on every backend: both maps
    are empty and the timestamp is zero, so the validity check fails
    whenever the clock is past the window of five minutes, and the next
    [getNote] and the next [getAllNotes] read the backend instead of
    answering from the cache. On the file backends the mutation ends with
    [clearCache]; on the web backend nothing is ever cached. *)
Theorem mutation_invalidates_cache
    (m : M W unit) (s s' : State W) :
  Reachable s -> Mutation m -> m s = (Ok tt, s') ->
  (notesCache (svc s') = ∅
   /\ noteContentCache (svc s') = ∅
   /\ lastCacheUpdate (svc s') = 0)
  /\ (forall w,
         300000 <= (Date_now w).1 ->
         (isCacheValid (mkState (svc s') w (console s'))).1 = Ok false)
  /\ (forall filename folderPath,
         getNote filename folderPath s'
         = getNoteFromBackend filename folderPath s')
  /\ getAllNotes s' = getAllNotesFromBackend s'.
Proof.
  intros Hreach Hm Hok.
  assert (Reachable s') as Hreach'.
  { destruct Hm as [note oldFilename folderPath|id folderPath].
    - replace s' with (perform (CallSaveNote note oldFilename folderPath) s)
        by (cbn; by rewrite Hok).
      by constructor.
    - replace s' with (perform (CallDeleteNote id folderPath) s)
        by (cbn; by rewrite Hok).
      by constructor. }
  destruct (reachable_invariant s' Hreach') as [Hwindow Hweb].
  assert (cacheCleared (svc s')) as (Hn & Hc & Hl).
  { destruct isWeb eqn:E; [by apply Hweb|].
    destruct Hm; [by eapply saveNote_ok_cleared|by eapply deleteNote_ok_cleared]. }
  split; [done|]. split; [|split].
  - intros w Hnow. apply isCacheValid_cleared; cbn; [done|]. by rewrite Hwindow.
  - intros filename folderPath. by apply getNote_cold.
  - by apply getAllNotes_cold.
Qed.

End Cache.

(** ** Sorting *)

Section SortFacts.
Context {A : Type} (cmp : A -> A -> Z).

Local Abbreviation before := (fun a b => cmp a b <= 0).

Lemma insertSorted_Forall (Q : A -> Prop) (x : A) (l : list A) :
  Q x -> Forall Q l -> Forall Q (JS.insertSorted cmp x l).
Proof.
  intros Hx Hl. induction Hl as [|y l Hy Hl IH]; simpl.
  - by constructor.
  - destruct (cmp x y <=? 0); repeat constructor; done.
Qed.

Lemma insertSorted_Permutation (x : A) (l : list A) :
  Permutation (JS.insertSorted cmp x l) (x :: l).
Proof.
  induction l as [|y l IH]; simpl; [done|].
  destruct (cmp x y <=? 0); [done|].
  rewrite IH. apply perm_swap.
Qed.

(** The sort rearranges; it neither drops nor invents an element. *)
Lemma sort_Permutation (l : list A) : Permutation (JS.sort cmp l) l.
Proof.
  induction l as [|x l IH]; simpl; [done|].
  rewrite insertSorted_Permutation. by constructor.
Qed.

Context (cmp_total : forall a b, 0 < cmp a b -> cmp b a <= 0).
Context (cmp_trans : forall a b c, cmp a b <= 0 -> cmp b c <= 0 -> cmp a c <= 0).

Lemma insertSorted_sorted (x : A) (l : list A) :
  StronglySorted before l -> StronglySorted before (JS.insertSorted cmp x l).
Proof.
  induction 1 as [|y l Hl IH Hy]; simpl.
  - repeat constructor.
  - destruct (cmp x y <=? 0) eqn:E.
    + apply Z.leb_le in E. constructor; [by constructor|].
      constructor; [done|].
      eapply Forall_impl; [exact Hy|]. intros z Hz. by eapply cmp_trans.
    + apply Z.leb_gt in E. constructor; [done|].
      apply insertSorted_Forall; [by apply cmp_total|done].
Qed.

(** With a consistent comparator the result is in order. *)
Lemma sort_sorted (l : list A) : StronglySorted before (JS.sort cmp l).
Proof.
  induction l as [|x l IH]; simpl; [constructor|].
  by apply insertSorted_sorted.
Qed.

End SortFacts.

Lemma StronglySorted_weaken {A} (R R' : A -> A -> Prop) (l : list A) :
  (forall a b, R a b -> R' a b) -> StronglySorted R l -> StronglySorted R' l.
Proof.
  intros HR. induction 1 as [|x l Hl IH Hx]; constructor; [done|].
  eapply Forall_impl; [exact Hx|]. intros y. apply HR.
Qed.

(** The sort looks at the comparator on the elements of the list only. *)
Lemma insertSorted_ext {A} (cmp cmp' : A -> A -> Z) (x : A) (l : list A) :
  (forall y, y ∈ l -> cmp x y = cmp' x y) ->
  JS.insertSorted cmp x l = JS.insertSorted cmp' x l.
Proof.
  induction l as [|y l IH]; intros Hl; simpl; [done|].
  rewrite (Hl y) by left. rewrite IH; [done|].
  intros z Hz. apply Hl. by right.
Qed.

Lemma sort_ext {A} (cmp cmp' : A -> A -> Z) (l : list A) :
  (forall x y, x ∈ l -> y ∈ l -> cmp x y = cmp' x y) ->
  JS.sort cmp l = JS.sort cmp' l.
Proof.
  induction l as [|x l IH]; intros Hl; simpl; [done|].
  rewrite IH by (intros y z Hy Hz; apply Hl; by right).
  apply insertSorted_ext. intros y Hy. apply Hl; [by left|].
  right. by rewrite <- (sort_Permutation cmp' l).
Qed.

(** On valid Dates the comparator of the notes is the difference of the
    times. *)
Lemma byUpdatedDesc_valid {A} (upd : A -> Z) (a b : A) :
  validTime (upd a) -> validTime (upd b) ->
  byUpdatedDesc upd a b = upd b - upd a.
Proof.
  unfold byUpdatedDesc, getTime, validTime. intros Ha Hb.
  by rewrite !(proj2 (Z.leb_le _ _)).
Qed.

(** Newest first: on valid Dates the comparator of the notes is
    consistent. *)
Lemma sort_byUpdatedDesc {A} (upd : A -> Z) (l : list A) :
  Forall (fun a => validTime (upd a)) (JS.sort (byUpdatedDesc upd) l) ->
  StronglySorted (fun a b => upd b <= upd a) (JS.sort (byUpdatedDesc upd) l).
Proof.
  intros Hvalid. rewrite sort_Permutation in Hvalid.
  rewrite (sort_ext _ (fun a b => upd b - upd a)).
  2: { intros x y Hx Hy.
       apply byUpdatedDesc_valid; by apply (proj1 (Forall_forall _ _) Hvalid). }
  eapply StronglySorted_weaken; [|apply sort_sorted].
  - intros a b Hab. cbn in Hab. lia.
  - intros a b. lia.
  - intros a b c. lia.
Qed.

(** ** Directory listings *)

Section Listing.
Context {W : Type} `{Collation W}.

Lemma returns_ret {A} (a : A) (Q : A -> Prop) :
  Q a -> returns (W := W) (ret a) Q.
Proof. by intros Ha s a' s' [= <- <-]. Qed.

Lemma returns_bind {A B} (m : M W A) (k : A -> M W B) (Q : B -> Prop) :
  (forall a, returns (k a) Q) -> returns (bind m k) Q.
Proof. intros Hk s b s' (a & s1 & _ & E)%bind_ok_inv. by eapply Hk. Qed.

Lemma returns_tryCatch {A} (m : M W A) (h : Exn -> M W A) (Q : A -> Prop) :
  returns m Q -> (forall e, returns (h e) Q) -> returns (tryCatch m h) Q.
Proof.
  intros Hm Hh s a s'. unfold tryCatch.
  destruct (m s) as [[a'|e] s1] eqn:E.
  - intros [= <- <-]. by eapply Hm.
  - by apply Hh.
Qed.

Lemma listingInOrder_empty currentPath parent :
  listingInOrder (mkDirectoryContents [] [] currentPath parent).
Proof. split; [constructor|]. intros _. constructor. Qed.

Lemma listingInOrder_web l currentPath parent :
  listingInOrder
    (mkDirectoryContents [] (JS.sort (byUpdatedDesc ni_updatedAt) l)
       currentPath parent).
Proof. split; [constructor|]. apply sort_byUpdatedDesc. Qed.

Lemma listingInOrder_build l n currentPath rootPath :
  listingInOrder (buildDirectoryContents l n currentPath rootPath).
Proof.
  assert (foldersAscending
            (JS.sort (fun a b => localeCompare (fo_name a) (fo_name b)) l))
    as Hsorted.
  { apply (sort_sorted (fun a b => localeCompare (fo_name a) (fo_name b))).
    - intros a b. apply collation_total.
    - intros a b c. apply collation_trans. }
  split; [done|]. apply sort_byUpdatedDesc.
Qed.

(** C5, as the code has it: the listing [getDirectoryContents] returns
    has its folders in ascending order of their names under the
    [localeCompare] of the host, called without options, and, when the
    [updatedAt] of every note is a valid Date, its notes in descending
    order of [updatedAt]. This holds for every directory, on every
    backend, and for the empty listing an error leaves as well. Whether
    the order of the folders ignores case is the matter of the collation
    of the host, not of the code; an Invalid Date makes the comparator of
    the notes return NaN, and the order of the notes is then not
    determined. *)
Theorem getDirectoryContents_in_order
    (directoryPath : option jsstring) (s s' : State W)
    (dc : DirectoryContents) :
  getDirectoryContents directoryPath s = (Ok dc, s') ->
  foldersAscending (folders dc)
  /\ (Forall (fun n => validTime (ni_updatedAt n)) (notes dc) ->
      notesNewestFirst (notes dc)).
Proof.
  revert s dc s'. change (returns (getDirectoryContents directoryPath)
                            listingInOrder).
  unfold getDirectoryContents, getWebDirectoryContents,
    getSAFDirectoryContents, getFileSystemDirectoryContents.
  repeat first
    [ apply returns_ret;
      first [ apply listingInOrder_empty
            | apply listingInOrder_web
            | apply listingInOrder_build ]
    | apply returns_bind; intros ?
    | apply returns_tryCatch; [|intros ?]
    | cbv zeta;
      match goal with
      | |- returns (match ?x with _ => _ end) _ => destruct x
      | |- returns (if ?x then _ else _) _ => destruct x
      | |- returns (let '(_, _) := ?x in _) _ => destruct x
      end ].
Qed.

End Listing.

(** ** Failures of the note operations *)

Section Failures.
Context {W : Type} `{Host W}.

(** The deletion of the old file during a rename never fails the save. *)
Lemma removeOldEntry_ok note oldFilename folderPath (s : State W) :
  exists s', removeOldEntry note oldFilename folderPath s = (Ok tt, s').
Proof.
  unfold removeOldEntry. destruct oldFilename as [[|c old]|]; [by eexists| |by eexists].
  destruct (negb _); [|by eexists].
  unfold tryCatch, log.
  destruct (deleteNote (c :: old) folderPath s) as [[[]|e] s1]; by eexists.
Qed.

(** [saveNote] on a file backend, step by step. *)
Lemma saveNote_native note oldFilename folderPath (s : State W) :
  isWeb = false ->
  saveNote note oldFilename folderPath s
  = match ensureDirectoryExists s with
    | (Throw e, s1) => (Throw e, s1)
    | (Ok _, s1) =>
        let targetDir := targetDirOf (getNotesDirectory (svc s1)) folderPath in
        match removeOldEntry note oldFilename folderPath s1 with
        | (Throw e, s2) =>
            (Throw e, mkState (svc s2) (world s2)
                        (console s2 ++ [mkLogEntry LogError
                                          (js "Error saving note:") (Some e)]))
        | (Ok _, s2) =>
            match writeEntry targetDir note s2 with
            | (Throw e, s3) =>
                (Throw e, mkState (svc s3) (world s3)
                            (console s3 ++ [mkLogEntry LogError
                                              (js "Error saving note:") (Some e)]))
            | (Ok _, s3) => clearCache s3
            end
        end
    end.
Proof.
  intros Hweb. unfold saveNote. rewrite Hweb. unfold bind at 1.
  destruct (ensureDirectoryExists s) as [[[]|e] s1]; [|done].
  unfold tryCatch, bind, this, throw, log. cbn.
  destruct (removeOldEntry note oldFilename folderPath s1) as [[[]|e] s2]; [|done].
  by destruct (writeEntry _ note s2) as [[[]|e] s3].
Qed.

(** [deleteNote] on a file backend, step by step. *)
Lemma deleteNote_native id folderPath (s : State W) :
  isWeb = false ->
  deleteNote id folderPath s
  = match removeEntry (targetDirOf (getNotesDirectory (svc s)) folderPath) id s with
    | (Throw e, s1) =>
        (Throw e, mkState (svc s1) (world s1)
                    (console s1 ++ [mkLogEntry LogError
                                      (js "Error deleting note:") (Some e)]))
    | (Ok _, s1) => clearCache s1
    end.
Proof.
  intros Hweb. unfold deleteNote. rewrite Hweb.
  unfold tryCatch, bind, this, throw, log. cbn.
  by destruct (removeEntry _ id s) as [[[]|e] s1].
Qed.



End Failures.

(** ** Entries of the file backends *)

Lemma locatorOf_inj (dir a b : jsstring) :
  locatorOf dir a = locatorOf dir b -> a = b.
Proof.
  unfold locatorOf. destruct (JS.startsWith dir _); intros E.
  - apply app_inv_head in E. apply app_inv_head in E.
    by apply app_inv_tail in E.
  - apply app_inv_head in E. by apply app_inv_tail in E.
Qed.

Section Store.
Context {W : Type} `{ReliableStore W}.

Lemma ensureDirectoryExists_effect (s s1 : State W) r :
  ensureDirectoryExists s = (r, s1) ->
  svc s1 = svc s /\ entries (world s1) = entries (world s).
Proof.
  unfold ensureDirectoryExists. destruct isWeb; [by intros [= <- <-]|].
  unfold bind, this, call, ret. cbn.
  destruct (JS.startsWith _ _); [by intros [= <- <-]|].
  pose proof (store_getInfo (getNotesDirectory (svc s)) (world s)) as E1.
  destruct (FileSystem_getInfoAsync _ (world s)) as [[i|e] w1]; cbn in *;
    [|by intros [= <- <-]].
  destruct (negb (fi_exists i)); [|by intros [= <- <-]]. cbn.
  pose proof (store_makeDirectory (getNotesDirectory (svc s)) w1) as E2.
  destruct (FileSystem_makeDirectoryAsync _ w1) as [r' w2]; cbn in *.
  intros [= <- <-]. cbn. split; [done|congruence].
Qed.

(** After [removeEntry] the entry is gone, whether the backend deleted
    it or had none to delete. *)
Lemma removeEntry_gone dir id (s s1 : State W) r :
  removeEntry dir id s = (r, s1) ->
  svc s1 = svc s
  /\ entries (world s1) !! locatorOf dir id = None
  /\ (forall p, p <> locatorOf dir id ->
                entries (world s1) !! p = entries (world s) !! p).
Proof.
  unfold removeEntry, locatorOf. destruct (JS.startsWith dir _).
  - unfold bind, call, ret.
    destruct (saf_unlink _ (world s)) as [[[|]|e] w1] eqn:E; cbn;
      intros [= <- <-]; cbn; (split; [done|]).
    + rewrite (store_unlink _ _ _ E). split; [apply lookup_delete_eq|].
      intros p Hp. by rewrite lookup_delete_ne.
    + destruct (reliable_unlink _ _ _ _ E) as [E1 E2]; [done|].
      rewrite E2. split; [done|]. done.
    + destruct (reliable_unlink _ _ _ _ E) as [E1 E2]; [done|].
      rewrite E2. split; [done|]. done.
  - unfold call.
    destruct (FileSystem_deleteAsync _ (world s)) as [[[]|e] w1] eqn:E; cbn;
      intros [= <- <-]; cbn; (split; [done|]).
    + rewrite (store_delete _ _ _ E). split; [apply lookup_delete_eq|].
      intros p Hp. by rewrite lookup_delete_ne.
    + destruct (reliable_delete _ _ _ _ E) as [E1 E2].
      rewrite E2. split; [done|]. done.
Qed.

Lemma deleteNote_gone id folderPath (s s1 : State W) r :
  isWeb = false ->
  deleteNote id folderPath s = (r, s1) ->
  getNotesDirectory (svc s1) = getNotesDirectory (svc s)
  /\ entries (world s1)
     !! locatorOf (targetDirOf (getNotesDirectory (svc s)) folderPath) id = None.
Proof.
  intros Hweb. rewrite deleteNote_native by done.
  destruct (removeEntry _ id s) as [[[]|e] s2] eqn:E;
    destruct (removeEntry_gone _ _ _ _ _ E) as (Hsvc & Hgone & _);
    intros [= <- <-]; cbn; by rewrite Hsvc.
Qed.

Lemma removeOldEntry_directory note oldFilename folderPath (s s1 : State W) r :
  isWeb = false ->
  removeOldEntry note oldFilename folderPath s = (r, s1) ->
  getNotesDirectory (svc s1) = getNotesDirectory (svc s).
Proof.
  intros Hweb. unfold removeOldEntry.
  destruct oldFilename as [[|c old]|]; [by intros [= <- <-]| |by intros [= <- <-]].
  destruct (negb _); [|by intros [= <- <-]].
  unfold tryCatch, log.
  destruct (deleteNote (c :: old) folderPath s) as [[[]|e] s2] eqn:E;
    destruct (deleteNote_gone _ _ _ _ _ Hweb E) as [Hdir _];
    by intros [= <- <-].
Qed.

Lemma writeEntry_effect dir note (s s1 : State W) :
  writeEntry dir note s = (Ok tt, s1) ->
  svc s1 = svc s
  /\ entries (world s1)
     = <[locatorOf dir (filename note) := content note]> (entries (world s)).
Proof.
  unfold writeEntry, locatorOf, call. destruct (JS.startsWith dir _).
  - destruct (saf_writeFile _ _ (world s)) as [[[]|e] w1] eqn:E;
      intros [= <-]. cbn. split; [done|]. by apply store_writeFile.
  - destruct (FileSystem_writeAsStringAsync _ _ (world s)) as [[[]|e] w1] eqn:E;
      intros [= <-]. cbn. split; [done|]. by apply store_write.
Qed.

(** A successful save on a file backend, taken apart. *)
Lemma saveNote_ok_steps note oldFilename folderPath (s s' : State W) :
  isWeb = false ->
  saveNote note oldFilename folderPath s = (Ok tt, s') ->
  exists s1 s2 s3,
    ensureDirectoryExists s = (Ok tt, s1)
    /\ removeOldEntry note oldFilename folderPath s1 = (Ok tt, s2)
    /\ writeEntry (targetDirOf (getNotesDirectory (svc s1)) folderPath) note s2
       = (Ok tt, s3)
    /\ clearCache s3 = (Ok tt, s').
Proof.
  intros Hweb. rewrite saveNote_native by done.
  destruct (ensureDirectoryExists s) as [[[]|e] s1] eqn:E1; [|done]. cbv zeta.
  destruct (removeOldEntry _ _ _ s1) as [[[]|e] s2] eqn:E2; [|done].
  destruct (writeEntry _ note s2) as [[[]|e] s3] eqn:E3; [|done].
  intros E4. by exists s1, s2, s3.
Qed.

(** After a successful save the backend holds the content under the
    locator of the note. *)
Lemma saveNote_ok_entry note oldFilename folderPath (s s' : State W) :
  isWeb = false ->
  saveNote note oldFilename folderPath s = (Ok tt, s') ->
  getNotesDirectory (svc s') = getNotesDirectory (svc s)
  /\ cacheCleared (svc s')
  /\ entries (world s')
     !! locatorOf (targetDirOf (getNotesDirectory (svc s)) folderPath)
          (filename note)
     = Some (content note).
Proof.
  intros Hweb Hok.
  destruct (saveNote_ok_steps _ _ _ _ _ Hweb Hok)
    as (s1 & s2 & s3 & E1 & E2 & E3 & E4).
  destruct (ensureDirectoryExists_effect _ _ _ E1) as [Hs1 _].
  pose proof (removeOldEntry_directory _ _ _ _ _ _ Hweb E2) as Hd2.
  destruct (writeEntry_effect _ _ _ _ E3) as [Hs3 He3].
  injection E4 as <-. cbn. rewrite Hs3. split; [|split].
  - unfold getNotesDirectory in *. cbn. rewrite <- Hs1. exact Hd2.
  - by repeat split.
  - rewrite He3, Hs1. apply lookup_insert_eq.
Qed.

End Store.

(** ** Renames *)

Section Rename.
Context {W : Type} `{FileStore W}.

Lemma ensureDirectoryExists_console (s s1 : State W) r :
  ensureDirectoryExists s = (r, s1) -> console s1 = console s.
Proof.
  unfold ensureDirectoryExists. destruct isWeb; [by intros [= <- <-]|].
  unfold bind, this, call, ret. cbn.
  destruct (JS.startsWith _ _); [by intros [= <- <-]|].
  destruct (FileSystem_getInfoAsync _ (world s)) as [[i|e] w1]; cbn in *;
    [|by intros [= <- <-]].
  destruct (negb (fi_exists i)); [|by intros [= <- <-]]. cbn.
  destruct (FileSystem_makeDirectoryAsync _ w1) as [r' w2]; cbn in *.
  by intros [= <- <-].
Qed.

Lemma removeEntry_frame dir id (s s1 : State W) r :
  removeEntry dir id s = (r, s1) ->
  svc s1 = svc s /\ console s1 = console s.
Proof.
  unfold removeEntry. destruct (JS.startsWith dir _).
  - unfold bind, call, ret.
    by destruct (saf_unlink _ (world s)) as [[[|]|e] w1]; intros [= <- <-].
  - unfold call.
    by destruct (FileSystem_deleteAsync _ (world s)) as [[[]|e] w1];
      intros [= <- <-].
Qed.

(** An [unlink] that resolves, with whatever, lets [removeEntry] return. *)
Lemma removeEntry_unlink dir id (s : State W) deleted w1 :
  JS.startsWith dir (js "content://") = true ->
  saf_unlink (locatorOf dir id) (world s) = (Ok deleted, w1) ->
  removeEntry dir id s = (Ok tt, mkState (svc s) w1 (console s)).
Proof.
  unfold removeEntry, locatorOf. intros -> E.
  unfold bind, call, ret. by rewrite E.
Qed.

(** What [writeAndClearCache] leaves when it returns. *)
Lemma writeAndClearCache_ok dir note (s s' : State W) :
  writeAndClearCache dir note s = (Ok tt, s') ->
  console s' = console s
  /\ entries (world s')
     = <[locatorOf dir (filename note) := content note]> (entries (world s)).
Proof.
  unfold writeAndClearCache, tryCatch, bind at 1.
  destruct (writeEntry dir note s) as [[[]|e] s3] eqn:E; [|done].
  destruct (writeEntry_effect _ _ _ _ E) as [_ He].
  intros [= <-]. cbn. split; [|done].
  revert E. unfold writeEntry, call.
  destruct (JS.startsWith dir _).
  - by destruct (saf_writeFile _ _ (world s)) as [r w]; intros [= _ <-].
  - by destruct (FileSystem_writeAsStringAsync _ _ (world s)) as [r w];
      intros [= _ <-].
Qed.

(** The save after the directory check and the deletion of the old
    file. *)
Lemma saveNote_after_removal note oldFilename folderPath (s s1 s2 : State W) :
  isWeb = false ->
  ensureDirectoryExists s = (Ok tt, s1) ->
  removeOldEntry note oldFilename folderPath s1 = (Ok tt, s2) ->
  saveNote note oldFilename folderPath s
  = writeAndClearCache (targetDirOf (getNotesDirectory (svc s)) folderPath)
      note s2.
Proof.
  intros Hweb E1 E2. rewrite saveNote_native, E1 by done. cbv zeta.
  destruct (ensureDirectoryExists_effect _ _ _ E1) as [-> _].
  rewrite E2. unfold writeAndClearCache, tryCatch, bind, log, throw.
  by destruct (writeEntry _ note s2) as [[[]|e] s3].
Qed.

(** The deletion of the old file of a rename, by what the backend did. *)
Lemma removeOldEntry_rejected note old folderPath (s s2 : State W) e :
  isWeb = false -> old <> [] -> old <> filename note ->
  removeEntry (targetDirOf (getNotesDirectory (svc s)) folderPath) old s
  = (Throw e, s2) ->
  removeOldEntry note (Some old) folderPath s
  = (Ok tt, mkState (svc s2) (world s2)
              (console s2 ++ failedDeletionLogged e)).
Proof.
  intros Hweb Hne Hneq E. unfold removeOldEntry.
  destruct old as [|c old]; [done|].
  rewrite bool_decide_eq_false_2 by done. cbn [negb].
  unfold tryCatch, log. rewrite deleteNote_native, E by done. cbn.
  by rewrite <- app_assoc.
Qed.

Lemma removeOldEntry_returned note old folderPath (s s2 : State W) :
  isWeb = false -> old <> [] -> old <> filename note ->
  removeEntry (targetDirOf (getNotesDirectory (svc s)) folderPath) old s
  = (Ok tt, s2) ->
  removeOldEntry note (Some old) folderPath s = (Ok tt, (clearCache s2).2).
Proof.
  intros Hweb Hne Hneq E. unfold removeOldEntry.
  destruct old as [|c old]; [done|].
  rewrite bool_decide_eq_false_2 by done. cbn [negb].
  unfold tryCatch. by rewrite deleteNote_native, E by done.
Qed.

(** Under the proviso the entry is gone after [removeEntry], whatever
    the backend answered. *)
Lemma removeEntry_missing dir id (s s1 : State W) r :
  deletionFailsOnlyWhenMissing ->
  removeEntry dir id s = (r, s1) ->
  entries (world s1) !! locatorOf dir id = None.
Proof.
  intros [Hdelete Hunlink]. unfold removeEntry, locatorOf.
  destruct (JS.startsWith dir _).
  - unfold bind, call, ret.
    destruct (saf_unlink _ (world s)) as [[[|]|e] w1] eqn:E; cbn;
      intros [= <- <-]; cbn.
    + rewrite (store_unlink _ _ _ E). apply lookup_delete_eq.
    + destruct (Hunlink _ _ _ _ E) as [E1 E2]; [done|]. by rewrite E2.
    + destruct (Hunlink _ _ _ _ E) as [E1 E2]; [done|]. by rewrite E2.
  - unfold call.
    destruct (FileSystem_deleteAsync _ (world s)) as [[[]|e] w1] eqn:E; cbn;
      intros [= <- <-]; cbn.
    + rewrite (store_delete _ _ _ E). apply lookup_delete_eq.
    + destruct (Hdelete _ _ _ _ E) as [E1 E2]. by rewrite E2.
Qed.

(** C4, as the code has it, on the file backends, for a rename: a save
    with an old filename that is not empty and differs from the new one.
    (1) Provided the deletion of the backend can fail only because the
    entry does not exist, a rename that returns leaves no entry under
    the old filename and the new content under the new filename.
    (2) A deletion of the old file that rejects does not abort the save:
    the two lines of the failure go to the console and the save goes on
    with the write; when it returns, the console holds these two lines
    and no other new one, the store is the one the failed deletion left
    with the new content under the new filename, so what the old
    filename held then it holds still.
    (3) An [unlink] of the directory handle that resolves with [false]
    is not a failure for the code: the save goes on with the write as
    after a deletion; when it returns, nothing was logged, and what the
    old filename held after the [unlink] it holds still. *)
Theorem rename_leaves_one_entry
    (note : Note) (old : jsstring) (folderPath : option jsstring)
    (s : State W) :
  isWeb = false ->
  old <> [] -> old <> filename note ->
  let targetDir := targetDirOf (getNotesDirectory (svc s)) folderPath in
  let oldEntry := locatorOf targetDir old in
  let newEntry := locatorOf targetDir (filename note) in
  (deletionFailsOnlyWhenMissing ->
   forall s',
     saveNote note (Some old) folderPath s = (Ok tt, s') ->
     entries (world s') !! oldEntry = None
     /\ entries (world s') !! newEntry = Some (content note))
  /\ (forall s1 s2 e,
         ensureDirectoryExists s = (Ok tt, s1) ->
         removeEntry targetDir old s1 = (Throw e, s2) ->
         saveNote note (Some old) folderPath s
         = writeAndClearCache targetDir note
             (mkState (svc s2) (world s2)
                (console s ++ failedDeletionLogged e))
         /\ forall s',
              saveNote note (Some old) folderPath s = (Ok tt, s') ->
              console s' = console s ++ failedDeletionLogged e
              /\ entries (world s')
                 = <[newEntry := content note]> (entries (world s2))
              /\ entries (world s') !! oldEntry = entries (world s2) !! oldEntry)
  /\ (forall s1 w2,
         ensureDirectoryExists s = (Ok tt, s1) ->
         JS.startsWith targetDir (js "content://") = true ->
         saf_unlink oldEntry (world s1) = (Ok false, w2) ->
         saveNote note (Some old) folderPath s
         = writeAndClearCache targetDir note
             (clearCache (mkState (svc s) w2 (console s))).2
         /\ forall s',
              saveNote note (Some old) folderPath s = (Ok tt, s') ->
              console s' = console s
              /\ entries (world s') = <[newEntry := content note]> (entries w2)
              /\ entries (world s') !! oldEntry = entries w2 !! oldEntry).
Proof.
  intros Hweb Hne Hneq targetDir oldEntry newEntry.
  assert (oldEntry <> newEntry) as Hdiff.
  { intros E%locatorOf_inj. congruence. }
  split; [|split].
  - intros Hproviso s' Hok.
    rewrite saveNote_native in Hok by done.
    destruct (ensureDirectoryExists s) as [[[]|e] s1] eqn:E1; [|done].
    destruct (ensureDirectoryExists_effect _ _ _ E1) as [Hs1 _].
    cbv zeta in Hok. rewrite Hs1 in Hok. fold targetDir in Hok.
    destruct (removeEntry targetDir old s1) as [r s2] eqn:E2.
    pose proof (removeEntry_missing _ _ _ _ _ Hproviso E2) as Hgone.
    fold oldEntry in Hgone.
    assert (exists s2',
               removeOldEntry note (Some old) folderPath s1 = (Ok tt, s2')
               /\ world s2' = world s2) as (s2' & E2' & Hw).
    { destruct r as [[]|e].
      - eexists. split; [apply removeOldEntry_returned; by rewrite ?Hs1|done].
      - eexists. split; [apply removeOldEntry_rejected; by rewrite ?Hs1|done]. }
    rewrite E2' in Hok.
    destruct (writeEntry targetDir note s2') as [[[]|e] s3] eqn:E3; [|done].
    destruct (writeEntry_effect _ _ _ _ E3) as [_ He3].
    injection Hok as <-. cbn. rewrite He3, Hw. fold newEntry. split.
    + by rewrite lookup_insert_ne.
    + apply lookup_insert_eq.
  - intros s1 s2 e E1 E2.
    destruct (ensureDirectoryExists_effect _ _ _ E1) as [Hs1 _].
    pose proof (ensureDirectoryExists_console _ _ _ E1) as Hc1.
    destruct (removeEntry_frame _ _ _ _ _ E2) as [_ Hc2].
    assert (saveNote note (Some old) folderPath s
            = writeAndClearCache targetDir note
                (mkState (svc s2) (world s2)
                   (console s ++ failedDeletionLogged e))) as Hsave.
    { rewrite (saveNote_after_removal _ _ _ _ _ _ Hweb E1
                 (removeOldEntry_rejected _ _ _ _ _ _ Hweb Hne Hneq
                    ltac:(rewrite Hs1; exact E2))).
      by rewrite Hc2, Hc1. }
    split; [exact Hsave|]. intros s' Hok. rewrite Hsave in Hok.
    destruct (writeAndClearCache_ok _ _ _ _ Hok) as [Hc He]. cbn in Hc, He.
    split; [done|]. split; [done|].
    rewrite He. fold newEntry. by rewrite lookup_insert_ne.
  - intros s1 w2 E1 Hsaf E2.
    destruct (ensureDirectoryExists_effect _ _ _ E1) as [Hs1 _].
    pose proof (ensureDirectoryExists_console _ _ _ E1) as Hc1.
    pose proof (removeEntry_unlink _ _ _ _ _ Hsaf E2) as E2'.
    assert (saveNote note (Some old) folderPath s
            = writeAndClearCache targetDir note
                (clearCache (mkState (svc s) w2 (console s))).2) as Hsave.
    { rewrite (saveNote_after_removal _ _ _ _ _ _ Hweb E1
                 (removeOldEntry_returned _ _ _ _ _ Hweb Hne Hneq
                    ltac:(rewrite Hs1; exact E2'))).
      by rewrite Hs1, Hc1. }
    split; [exact Hsave|]. intros s' Hok. rewrite Hsave in Hok.
    destruct (writeAndClearCache_ok _ _ _ _ Hok) as [Hc He]. cbn in Hc, He.
    split; [done|]. split; [done|].
    rewrite He. fold newEntry. by rewrite lookup_insert_ne.
Qed.

End Rename.

(** ** Reading back what was written *)

Section ReadBack.
Context {W : Type} `{ReliableStore W}.

(** An entry that is there is read, and remembered. *)
Lemma readNoteFromBackend_entry name folderPath cacheKey c (s : State W) :
  entries (world s)
  !! locatorOf (targetDirOf (getNotesDirectory (svc s)) folderPath) name
  = Some c ->
  exists n s',
    readNoteFromBackend name folderPath cacheKey s = (Ok (Some n), s')
    /\ filename n = name /\ content n = c.
Proof.
  intros Hentry. unfold readNoteFromBackend, locatorOf in *.
  unfold bind at 1, this. cbn. cbv zeta.
  destruct (JS.startsWith (targetDirOf _ _) _).
  - unfold bind at 1 2, call. cbn.
    pose proof (reliable_readFile _ _ _ Hentry) as E1.
    pose proof (store_readFile
                  (targetDirOf (getNotesDirectory (svc s)) folderPath
                   ++ js "/" ++ name ++ js ".md") (world s)) as E2.
    destruct (saf_readFile _ (world s)) as [r1 w1]. cbn in E1, E2. subst r1.
    cbn. unfold bind at 1. cbn.
    rewrite <- E2 in Hentry.
    destruct (reliable_stat _ _ _ Hentry) as [d E3].
    destruct (saf_stat _ w1) as [r2 w2]. cbn in E3. subst r2.
    cbn. eexists _, _. split; [reflexivity|done].
  - unfold bind at 1 2, call. cbn.
    pose proof (reliable_read _ _ _ Hentry) as E1.
    destruct (FileSystem_readAsStringAsync _ (world s)) as [r1 w1].
    cbn in E1. subst r1. cbn. unfold bind at 1. cbn.
    destruct (reliable_getInfo
                (targetDirOf (getNotesDirectory (svc s)) folderPath
                 ++ name ++ js ".md") w1) as [i E3].
    destruct (FileSystem_getInfoAsync _ w1) as [r2 w2]. cbn in E3. subst r2.
    cbn. unfold modTimeOf, dateNow, bind, call, ret, this, assign.
    destruct (fi_exists i), (fi_modificationTime i); cbn;
      try destruct (Date_now w2); cbn;
      eexists _, _; (split; [reflexivity|done]).
Qed.

(** X28: on a reliable file backend a note that was saved is read back with
    the content that was saved, whatever the cache held before. *)
Lemma getNote_after_saveNote_native note oldFilename folderPath (s s' : State W) :
  isWeb = false ->
  saveNote note oldFilename folderPath s = (Ok tt, s') ->
  exists n s'',
    getNote (filename note) folderPath s' = (Ok (Some n), s'')
    /\ content n = content note.
Proof.
  intros Hweb Hok.
  destruct (saveNote_ok_entry _ _ _ _ _ Hweb Hok) as (Hdir & (_ & Hc & _) & Hentry).
  rewrite getNote_cold by done. unfold getNoteFromBackend. rewrite Hweb.
  unfold bind. destruct (isCacheValid_state s') as (b & ->).
  unfold readNoteOrNull, tryCatch.
  edestruct (readNoteFromBackend_entry (filename note) folderPath
               (noteCacheKey (filename note) folderPath) (content note)
               (mkState (svc s') (Date_now (world s')).2 (console s')))
    as (n & s'' & -> & _ & Hn).
  { cbn. by rewrite store_now, Hdir. }
  by exists n, s''.
Qed.

End ReadBack.



(** ** The timeout of the preference store *)


Lemma awaitWithTimeout_pending {A} (operation key : jsstring) (timeoutMs : Z) :
  awaitWithTimeout (A := A) operation key timeoutMs Pending
  = Throw (timeoutError operation key).
Proof. done. Qed.

Lemma awaitWithTimeout_late {A} (operation key : jsstring) (timeoutMs t : Z)
    (r : Res A) :
  Z.max 0 timeoutMs < t ->
  awaitWithTimeout operation key timeoutMs (SettledAt t r)
  = Throw (timeoutError operation key).
Proof.
  intros Ht. unfold awaitWithTimeout, asyncStorageWithTimeout, rejectAfter,
    Promise_race.
  by destruct (Z.leb_spec t (Z.max 0 timeoutMs)); [lia|].
Qed.


Section Timeout.
Context {W : Type} `{Host W}.


End Timeout.

(** ** The reference host meets the assumptions *)

Lemma compareUnits_flip (a b : jsstring) :
  Ref.compareUnits b a = - Ref.compareUnits a b.
Proof.
  revert b. induction a as [|x a IH]; intros [|y b]; simpl; try done.
  destruct (N.ltb_spec x y), (N.ltb_spec y x); try done; try lia; apply IH.
Qed.

Lemma compareUnits_trans (a b c : jsstring) :
  Ref.compareUnits a b <= 0 -> Ref.compareUnits b c <= 0 ->
  Ref.compareUnits a c <= 0.
Proof.
  revert b c. induction a as [|x a IH]; intros [|y b] [|z c]; simpl;
    try done; try lia.
  destruct (N.ltb_spec x y), (N.ltb_spec y x), (N.ltb_spec y z),
    (N.ltb_spec z y), (N.ltb_spec x z), (N.ltb_spec z x);
    try done; try lia; apply IH.
Qed.

#[global] Instance Ref_collation (os : Platform) (faults : bool) :
  @Collation RefWorld (Ref.host os faults).
Proof.
  split; cbn; unfold Ref.compareNames.
  - intros a b Hab. rewrite compareUnits_flip. lia.
  - intros a b c. apply compareUnits_trans.
Qed.

#[global] Instance Ref_store (os : Platform) (faults : bool) :
  @FileStore RefWorld (Ref.host os faults).
Proof.
  refine {| entries := fun w => fst <$> rw_files w |}; cbn.
  - done.
  - intros p w. unfold Ref.getInfoAsync.
    by destruct (rw_dirs w !! _), (rw_files w !! p) as [[]|].
  - intros p w. unfold Ref.makeDirectoryAsync. by destruct (_ && _).
  - intros p w. unfold Ref.read. by destruct (rw_files w !! p) as [[]|].
  - intros p c w w'. unfold Ref.write. destruct (_ && _); [done|].
    intros [= <-]. cbn. by rewrite fmap_insert.
  - intros p w w'. unfold Ref.remove. destruct (_ && _); [done|].
    destruct (rw_files w !! p); [|done].
    intros [= <-]. cbn. by rewrite fmap_delete.
  - intros p w. unfold Ref.read. by destruct (rw_files w !! p) as [[]|].
  - intros p w. unfold Ref.stat.
    by destruct (rw_files w !! p) as [[]|], (rw_dirs w !! p).
  - intros p c w w'. unfold Ref.write. destruct (_ && _); [done|].
    intros [= <-]. cbn. by rewrite fmap_insert.
  - intros p w w'. unfold Ref.unlink, Ref.remove. destruct (_ && _); [done|].
    destruct (rw_files w !! p); [|done].
    intros [= <-]. cbn. by rewrite fmap_delete.
Defined.

#[global] Instance Ref_reliable (os : Platform) :
  @ReliableStore RefWorld (Ref.host os false) (Ref_store os false).
Proof.
  split; cbn.
  - intros p e w w'. unfold Ref.remove. cbn.
    destruct (rw_files w !! p) eqn:E; [done|].
    intros [= _ <-]. by rewrite lookup_fmap, E.
  - intros p r w w'. unfold Ref.unlink, Ref.remove. cbn.
    destruct (rw_files w !! p) eqn:E; [by intros [= <- _]|].
    intros [= _ <-] _. by rewrite lookup_fmap, E.
  - intros p c w. rewrite lookup_fmap. unfold Ref.read.
    by destruct (rw_files w !! p) as [[]|]; intros [= <-].
  - intros p w. unfold Ref.getInfoAsync.
    destruct (rw_dirs w !! _), (rw_files w !! p) as [[]|]; by eexists.
  - intros p c w. rewrite lookup_fmap. unfold Ref.read.
    by destruct (rw_files w !! p) as [[]|]; intros [= <-].
  - intros p c w. rewrite lookup_fmap. unfold Ref.stat.
    destruct (rw_files w !! p) as [[]|]; [|done]. intros _. by eexists.
Qed.

#[global] Instance codeUnits_collation (os : Platform) :
  @Collation RefWorld (Cases.codeUnits os).
Proof.
  split; cbn.
  - intros a b Hab. rewrite compareUnits_flip. lia.
  - intros a b c. apply compareUnits_trans.
Qed.

(** The names of a list of folders that is in order are in order. *)
Lemma sorted_names (cmp : jsstring -> jsstring -> Z) (l : list FolderItem) :
  StronglySorted (fun a b => cmp (fo_name a) (fo_name b) <= 0) l ->
  StronglySorted (fun a b => cmp a b <= 0) (fo_name <$> l).
Proof.
  induction 1 as [|a l _ IH Hall]; [constructor|].
  cbn. constructor; [done|].
  apply Forall_fmap. by apply (Forall_impl _ _ _ Hall).
Qed.

#[global] Instance quietUnlink_store (os : Platform) :
  @FileStore RefWorld (Cases.quietUnlink os).
Proof.
  refine {| entries := fun w => fst <$> rw_files w |}; cbn.
  - done.
  - intros p w. unfold Ref.getInfoAsync.
    by destruct (rw_dirs w !! _), (rw_files w !! p) as [[]|].
  - done.
  - intros p w. unfold Ref.read. by destruct (rw_files w !! p) as [[]|].
  - intros p c w w'. unfold Ref.write. cbn.
    intros [= <-]. cbn. by rewrite fmap_insert.
  - intros p w w'. unfold Ref.remove. cbn.
    destruct (rw_files w !! p); [|done].
    intros [= <-]. cbn. by rewrite fmap_delete.
  - intros p w. unfold Ref.read. by destruct (rw_files w !! p) as [[]|].
  - intros p w. unfold Ref.stat.
    by destruct (rw_files w !! p) as [[]|], (rw_dirs w !! p).
  - intros p c w w'. unfold Ref.write. cbn.
    intros [= <-]. cbn. by rewrite fmap_insert.
  - intros p w w'. unfold Cases.unlinkQuietly.
    destruct (Ref.locked p w); [done|].
    destruct (rw_files w !! p); [|done].
    intros [= <-]. cbn. by rewrite fmap_delete.
Defined.

(** On the reference host without faults a deletion fails only for want
    of the entry. *)
Lemma Ref_deletion (os : Platform) :
  @deletionFailsOnlyWhenMissing RefWorld (Ref.host os false) (Ref_store os false).
Proof.
  split.
  - apply (@reliable_delete _ _ _ (Ref_reliable os)).
  - apply (@reliable_unlink _ _ _ (Ref_reliable os)).
Qed.

(** ** The theorems on concrete inputs *)

(** A call whose result is known returned that result and its state. *)
Lemma run_result {A B} (p : A * B) (a : A) : p.1 = a -> p = (a, p.2).
Proof. destruct p. cbn. by intros ->. Qed.

Ltac result_of r dummy E :=
  let a := fresh "a" in
  let E1 := fresh "E" in
  pose (a := match r.1 with Ok x => x | Throw _ => dummy end);
  assert (r.1 = Ok a) as E1 by (vm_compute; reflexivity);
  pose proof (run_result r (Ok a) E1) as E;
  clear E1.

(** Valid Dates, by computation. *)
Lemma validTimes_check {A} (upd : A -> Z) (l : list A) :
  forallb (fun a => Z.abs (upd a) <=? maxTime) l = true ->
  Forall (fun a => validTime (upd a)) l.
Proof.
  intros Hall. apply Forall_forall. intros a Ha.
  apply Z.leb_le.
  apply (proj1 (forallb_forall _ _) Hall). by apply list_elem_of_In.
Qed.

(** C1 at work: a listing fills the cache, a save empties it, and the read
    that follows goes to the backend. *)
Lemma mutation_invalidates_cache_witness :
  let h := Ref.host Ios false in
  let s0 := (@getAllNotes _ h (Ref.start Ios Sample.world)).2 in
  let s1 := (@saveNote _ h Sample.todo None None s0).2 in
  notesCache (svc s0) <> ∅
  /\ @saveNote _ h Sample.todo None None s0 = (Ok tt, s1)
  /\ notesCache (svc s1) = ∅
  /\ noteContentCache (svc s1) = ∅
  /\ lastCacheUpdate (svc s1) = 0
  /\ @getNote _ h (js "todo") None s1 = @getNoteFromBackend _ h (js "todo") None s1
  /\ @getAllNotes _ h s1 = @getAllNotesFromBackend _ h s1.
Proof.
  intros h s0 s1.
  assert (@saveNote _ h Sample.todo None None s0 = (Ok tt, s1)) as E
    by (vm_compute; reflexivity).
  assert (@Reachable _ h s0) as Hreach
    by apply (@reach_call _ h CallGetAllNotes), reach_start.
  destruct (@mutation_invalidates_cache _ h _ s0 s1 Hreach
              (mutation_save Sample.todo None None) E)
    as ((Hn & Hc & Hl) & _ & Hread & Hlist).
  split; [vm_compute; discriminate|]. split; [exact E|].
  split; [exact Hn|]. split; [exact Hc|]. split; [exact Hl|].
  split; [apply Hread|exact Hlist].
Defined.

(** C4 refuted: the store refuses to delete "old.md"; the rename to "new"
    completes all the same, and both entries are there afterwards. *)
Lemma rename_keeps_old_entry_when_deletion_fails :
  let h := Ref.host Ios true in
  let s0 := Ref.start Ios Sample.world in
  let r := @saveNote _ h Sample.renamed (Some (js "old")) None s0 in
  r.1 = Ok tt
  /\ @entries _ h _ (world r.2) !! (Sample.root ++ js "old.md") = Some (js "# old")
  /\ @entries _ h _ (world r.2) !! (Sample.root ++ js "new.md") = Some (js "# new").
Proof. vm_compute. repeat split. Qed.

(** C4 as amended. On the store that deletes what it is asked to, the
    rename of old to new leaves no entry under old. On the store that
    refuses to delete old, the rename returns, the console has the two
    lines of the failed deletion, and old is still there. Under a handle
    whose [unlink] resolves with [false] for the note a, the rename of a
    to c returns, the console is empty, and a is still there. *)
Lemma rename_leaves_one_entry_witness :
  let h := Ref.host Ios false in
  let h' := Ref.host Ios true in
  let q := Cases.quietUnlink Android in
  let s0 := Ref.start Ios Sample.world in
  let r := @saveNote _ h Sample.renamed (Some (js "old")) None s0 in
  let r' := @saveNote _ h' Sample.renamed (Some (js "old")) None s0 in
  let rq := @saveNote _ q Cases.moved (Some (js "a")) None Cases.lockedSaf in
  (r.1 = Ok tt
   /\ @entries _ h _ (world r.2) !! (Sample.root ++ js "old.md") = None
   /\ @entries _ h _ (world r.2) !! (Sample.root ++ js "new.md")
      = Some (js "# new"))
  /\ (r'.1 = Ok tt
      /\ console r'.2 = failedDeletionLogged Ref.denied
      /\ @entries _ h' _ (world r'.2) !! (Sample.root ++ js "old.md")
         = Some (js "# old")
      /\ @entries _ h' _ (world r'.2) !! (Sample.root ++ js "new.md")
         = Some (js "# new"))
  /\ (rq.1 = Ok tt
      /\ console rq.2 = []
      /\ @entries _ q _ (world rq.2) !! (Cases.tree ++ js "/a.md")
         = Some (js "# a")
      /\ @entries _ q _ (world rq.2) !! (Cases.tree ++ js "/c.md")
         = Some (js "# c")).
Proof.
  intros h h' q s0 r r' rq.
  assert (js "old" <> filename Sample.renamed) as Hold by done.
  assert (js "a" <> filename Cases.moved) as Ha by done.
  split; [|split].
  - assert (r.1 = Ok tt) as E1 by (vm_compute; reflexivity).
    pose proof (run_result r (Ok tt) E1) as E.
    destruct (@rename_leaves_one_entry _ h _ Sample.renamed (js "old") None s0
                eq_refl ltac:(done) Hold) as (Hone & _ & _).
    destruct (Hone (Ref_deletion Ios) r.2 E) as [Hgone Hnew].
    split; [exact E1|]. split; [exact Hgone|exact Hnew].
  - assert (r'.1 = Ok tt) as E1 by (vm_compute; reflexivity).
    pose proof (run_result r' (Ok tt) E1) as E.
    destruct (@rename_leaves_one_entry _ h' _ Sample.renamed (js "old") None s0
                eq_refl ltac:(done) Hold) as (_ & Hrejected & _).
    pose (d := @ensureDirectoryExists _ h' s0).
    assert (d.1 = Ok tt) as Ed by (vm_compute; reflexivity).
    apply run_result in Ed.
    pose (x := @removeEntry _ h' Sample.root (js "old") d.2).
    assert (x.1 = Throw Ref.denied) as Ex by (vm_compute; reflexivity).
    apply run_result in Ex.
    destruct (Hrejected d.2 x.2 Ref.denied Ed Ex) as [_ Hafter].
    destruct (Hafter r'.2 E) as (Hconsole & Hstore & Hkept).
    split; [exact E1|]. split; [exact Hconsole|]. split.
    + etransitivity; [exact Hkept|]. vm_compute. reflexivity.
    + etransitivity; [exact (f_equal (fun m => m !! _) Hstore)|].
      apply lookup_insert_eq.
  - assert (rq.1 = Ok tt) as E1 by (vm_compute; reflexivity).
    pose proof (run_result rq (Ok tt) E1) as E.
    destruct (@rename_leaves_one_entry _ q _ Cases.moved (js "a") None
                Cases.lockedSaf eq_refl ltac:(done) Ha) as (_ & _ & Hquiet).
    destruct (Hquiet Cases.lockedSaf Cases.lockedSafWorld
                eq_refl eq_refl eq_refl) as [_ Hafter].
    destruct (Hafter rq.2 E) as (Hconsole & Hstore & Hkept).
    split; [exact E1|]. split; [exact Hconsole|]. split.
    + etransitivity; [exact Hkept|]. vm_compute. reflexivity.
    + etransitivity; [exact (f_equal (fun m => m !! _) Hstore)|].
      apply lookup_insert_eq.
Defined.

(** C5 refuted: on a host whose [localeCompare] compares code units the
    folders Alpha, beta and Gamma are listed as Alpha, Gamma, beta, which
    is not the ascending order of their names without case: there beta
    comes before Gamma. *)
Lemma getDirectoryContents_folders_in_collation_order :
  let h := Cases.codeUnits Ios in
  let s0 := mkState (@newService _ h) Sample.world [] in
  let r := @getDirectoryContents _ h None s0 in
  exists dc,
    r.1 = Ok dc
    /\ fo_name <$> folders dc = [js "Alpha"; js "Gamma"; js "beta"]
    /\ ~ @foldersAscendingIgnoringCase _ h (folders dc)
    /\ ~ StronglySorted
           (fun a b => Ref.compareUnits (JS.toLowerCase a) (JS.toLowerCase b) <= 0)
           (fo_name <$> folders dc).
Proof.
  intros h s0 r.
  result_of r (mkDirectoryContents [] [] [] None) E.
  exists a. split; [by rewrite E|].
  assert (fo_name <$> folders a = [js "Alpha"; js "Gamma"; js "beta"])
    as Hnames by (vm_compute; reflexivity).
  assert (~ StronglySorted
            (fun a b => Ref.compareUnits (JS.toLowerCase a) (JS.toLowerCase b) <= 0)
            (fo_name <$> folders a)) as Hnot.
  { rewrite Hnames. intros Hs.
    apply StronglySorted_inv in Hs as [Hs _].
    apply StronglySorted_inv in Hs as [_ Hs].
    apply Forall_inv in Hs. vm_compute in Hs. by apply Hs. }
  split; [exact Hnames|]. split; [|exact Hnot].
  intros Hs. apply Hnot.
  apply (sorted_names
           (fun a b => Ref.compareUnits (JS.toLowerCase a) (JS.toLowerCase b))).
  exact Hs.
Qed.

(** C5 at work: three folders and two notes come back in order, the
    folders in the order of the [localeCompare] of the host: Alpha, beta,
    Gamma where it ignores case, Alpha, Gamma, beta where it compares
    code units. *)
Lemma getDirectoryContents_in_order_witness :
  let h := Ref.host Ios false in
  let h' := Cases.codeUnits Ios in
  let r := @getDirectoryContents _ h None (Ref.start Ios Sample.world) in
  let r' := @getDirectoryContents _ h' None
              (mkState (@newService _ h') Sample.world []) in
  exists dc dc',
    r.1 = Ok dc /\ r'.1 = Ok dc'
    /\ fo_name <$> folders dc = [js "Alpha"; js "beta"; js "Gamma"]
    /\ fo_name <$> folders dc' = [js "Alpha"; js "Gamma"; js "beta"]
    /\ ni_filename <$> notes dc = [js "b"; js "old"]
    /\ ni_updatedAt <$> notes dc = [3000; 1000]
    /\ @foldersAscending _ h (folders dc)
    /\ @foldersAscending _ h' (folders dc')
    /\ notesNewestFirst (notes dc).
Proof.
  intros h h' r r'.
  result_of r (mkDirectoryContents [] [] [] None) E.
  result_of r' (mkDirectoryContents [] [] [] None) E'.
  exists a, a0. split; [by rewrite E|]. split; [by rewrite E'|].
  split; [vm_compute; reflexivity|]. split; [vm_compute; reflexivity|].
  split; [vm_compute; reflexivity|]. split; [vm_compute; reflexivity|].
  destruct (@getDirectoryContents_in_order _ h _ None _ r.2 a E)
    as [Hfolders Hnotes].
  destruct (@getDirectoryContents_in_order _ h' _ None _ r'.2 a0 E')
    as [Hfolders' _].
  split; [exact Hfolders|]. split; [exact Hfolders'|]. apply Hnotes.
  apply validTimes_check. vm_compute. reflexivity.
Defined.



(** C8 at work: the persisted payload says only that timestamps are
    hidden; after the load that is kept and [welcomeCompleted] is the
    default. *)
Lemma loadUserPreferences_merges_witness :
  let h := Ref.host Ios false in
  let s0 := Ref.start Ios Sample.world in
  let prefs := userPreferences (svc (@loadUserPreferences _ h s0).2) in
  (@loadUserPreferences _ h s0).1 = Ok tt
  /\ prefs !! js "showTimestamps" = Some (VBool false)
  /\ prefs !! js "welcomeCompleted" = Some (VBool false).
Proof.
  intros h s0.
  destruct (@loadUserPreferences_merges _ h s0
              (js "{" ++ RefJSON.quote (js "showTimestamps") ++ js ":false}")
              (VObj {[ js "showTimestamps" := VBool false ]})
              Sample.world)
    as (Hok & _ & Hkept & Hwelcome & _).
  - vm_compute; reflexivity.
  - done.
  - vm_compute; reflexivity.
  - split; [exact Hok|]. split.
    + apply Hkept. reflexivity.
    + apply Hwelcome. reflexivity.
Defined.


(** C10 at work: AsyncStorage never settles, the timer wins, and the
    preference set is the one read back. *)
Lemma saveUserPreferences_never_rejects_witness :
  let h := Ref.host Ios false in
  let s0 := Ref.start Ios Sample.hangingWorld in
  exists s1,
    @setShowTimestamps _ h false s0 = (Ok tt, s1)
    /\ (getShowTimestamps s1).1 = Ok (VBool false)
    /\ rw_async (world s1) = rw_async (world s0)
    /\ length (console s1) = 1%nat.
Proof.
  intros h s0.
  destruct (@saveUserPreferences_never_rejects _ h) as (_ & Hshow & _).
  destruct (Hshow false s0) as (s1 & E & Hget).
  exists s1. split; [exact E|]. split; [exact Hget|].
  assert (s1 = (@setShowTimestamps _ h false s0).2) as -> by by rewrite E.
  vm_compute. repeat split.
Defined.

(** * Further properties of the service *)
(** ** Titles and filenames *)

Lemma trimStart_suffix (s : jsstring) : JS.trimStart s `suffix_of` s.
Proof.
  induction s as [|c r IH]; simpl; [done|].
  destruct (JS.isWhiteSpace c); [by apply suffix_cons_r|done].
Qed.

Lemma trimStart_head (s : jsstring) (c : N) (r : jsstring) :
  JS.trimStart s = c :: r -> JS.isWhiteSpace c = false.
Proof.
  induction s as [|x s IH]; simpl; [done|].
  destruct (JS.isWhiteSpace x) eqn:E; [done|]. by intros [= <- _].
Qed.

Lemma suffix_elem (s t : jsstring) (c : N) : s `suffix_of` t -> c ∈ s -> c ∈ t.
Proof. intros [pre ->] Hc. apply elem_of_app. by right. Qed.

Lemma trim_elem (s : jsstring) (c : N) : c ∈ JS.trim s -> c ∈ s.
Proof.
  unfold JS.trim. rewrite elem_of_reverse. intros Hc.
  apply (suffix_elem _ _ _ (trimStart_suffix _)) in Hc.
  rewrite elem_of_reverse in Hc.
  by apply (suffix_elem _ _ _ (trimStart_suffix _)) in Hc.
Qed.

Lemma trim_length (s : jsstring) : (length (JS.trim s) <= length s)%nat.
Proof.
  unfold JS.trim. rewrite length_reverse.
  etrans; [apply suffix_length, trimStart_suffix|].
  rewrite length_reverse. apply suffix_length, trimStart_suffix.
Qed.

Lemma trim_first (s : jsstring) (c : N) (r : jsstring) :
  JS.trim s = c :: r -> JS.isWhiteSpace c = false.
Proof.
  unfold JS.trim. intros E.
  destruct (JS.trimStart s) as [|x t] eqn:Es.
  { by rewrite reverse_nil in E. }
  pose proof (trimStart_head _ _ _ Es) as Hx.
  pose proof (trimStart_suffix (reverse (x :: t))) as [pre Hpre].
  apply (f_equal reverse) in Hpre.
  rewrite reverse_involutive, reverse_app, E in Hpre.
  simpl in Hpre. injection Hpre as -> _. done.
Qed.

Lemma trim_last (s r : jsstring) (c : N) :
  JS.trim s = r ++ [c] -> JS.isWhiteSpace c = false.
Proof.
  unfold JS.trim. intros E. apply (f_equal reverse) in E.
  rewrite reverse_involutive, reverse_app in E. simpl in E.
  by apply trimStart_head in E.
Qed.

Lemma collapseFrom_units (b : bool) (s : jsstring) (c : N) :
  c ∈ RegExp.collapseFrom b s -> c ∈ s \/ c = 32%N.
Proof.
  revert b. induction s as [|x s IH]; intros b; simpl; [by left|].
  destruct (JS.isWhiteSpace x).
  - destruct b.
    + intros [H|H]%IH; [left; by right|by right].
    + intros [->|[H|H]%IH]%elem_of_cons; [by right|left; by right|by right].
  - intros [->|[H|H]%IH]%elem_of_cons; [left; by left|left; by right|by right].
Qed.

(** After the collapse the only white space left is the plain space. *)
Lemma collapseFrom_space (b : bool) (s : jsstring) (c : N) :
  c ∈ RegExp.collapseFrom b s -> JS.isWhiteSpace c = true -> c = 32%N.
Proof.
  revert b. induction s as [|x s IH]; intros b; simpl; [by intros ?%elem_of_nil|].
  destruct (JS.isWhiteSpace x) eqn:E.
  - destruct b; [by apply IH|].
    intros [->|H]%elem_of_cons; [done|by eapply IH].
  - intros [->|H]%elem_of_cons; [congruence|by eapply IH].
Qed.

Lemma dropDots_suffix (s : jsstring) : RegExp.dropDots s `suffix_of` s.
Proof.
  induction s as [|c r IH]; simpl; [done|].
  destruct (N.eqb c 46); [by apply suffix_cons_r|done].
Qed.

Lemma removeTrailingDots_elem (s : jsstring) (c : N) :
  c ∈ RegExp.removeTrailingDots s -> c ∈ s.
Proof.
  unfold RegExp.removeTrailingDots. rewrite elem_of_reverse. intros Hc.
  apply (suffix_elem _ _ _ (dropDots_suffix _)) in Hc.
  by rewrite elem_of_reverse in Hc.
Qed.

(** What [sanitizeFilename] lets through. *)
Lemma sanitizeFilename_units (title : jsstring) (c : N) :
  c ∈ JS.trim
        (JS.substring_to 100
           (RegExp.removeTrailingDots
              (RegExp.collapseSpaces (RegExp.removeInvalid title)))) ->
  RegExp.isInvalidUnit c = false
  /\ (JS.isWhiteSpace c = true -> c = 32%N).
Proof.
  intros Hc.
  apply trim_elem in Hc. unfold JS.substring_to in Hc.
  apply elem_of_take in Hc as (i & Hc%list_elem_of_lookup_2 & _).
  apply removeTrailingDots_elem in Hc.
  split.
  - apply collapseFrom_units in Hc as [Hc| ->]; [|done].
    unfold RegExp.removeInvalid in Hc. by apply list_elem_of_filter in Hc as [? _].
  - intros Hw. by eapply collapseFrom_space.
Qed.

(** X1: [sanitizeFilename]: the result is a usable file name. It is never
    empty and never longer than 100 units; it holds none of the characters
    the pattern removes (angle brackets, colon, double quote, slash,
    backslash, bar, question mark, star); the only white space in it is the
    plain space, and it neither begins nor ends with one. *)
Theorem sanitizeFilename_safe (title : jsstring) :
  sanitizeFilename title <> []
  /\ (length (sanitizeFilename title) <= 100)%nat
  /\ (forall c, c ∈ sanitizeFilename title ->
                RegExp.isInvalidUnit c = false
                /\ (JS.isWhiteSpace c = true -> c = 32%N))
  /\ (forall c r, sanitizeFilename title = c :: r -> JS.isWhiteSpace c = false)
  /\ (forall r c, sanitizeFilename title = r ++ [c] -> JS.isWhiteSpace c = false).
Proof.
  unfold sanitizeFilename.
  set (t := JS.trim _).
  assert (length t <= 100)%nat as Hlen.
  { subst t. etrans; [apply trim_length|].
    unfold JS.substring_to. rewrite length_take. lia. }
  pose proof (sanitizeFilename_units title) as Hunits. fold t in Hunits.
  pose proof (trim_first
                (JS.substring_to 100
                   (RegExp.removeTrailingDots
                      (RegExp.collapseSpaces (RegExp.removeInvalid title)))))
    as Hfirst. fold t in Hfirst.
  pose proof (trim_last
                (JS.substring_to 100
                   (RegExp.removeTrailingDots
                      (RegExp.collapseSpaces (RegExp.removeInvalid title)))))
    as Hlast. fold t in Hlast.
  destruct t as [|x t']; cbn [orElse].
  - split; [done|]. split; [simpl; lia|]. split.
    + assert (Forall (fun c => RegExp.isInvalidUnit c = false
                               /\ (JS.isWhiteSpace c = true -> c = 32%N))
                (js "Untitled")) as Hall
        by (repeat constructor; done).
      intros c Hc. by apply (proj1 (Forall_forall _ _) Hall).
    + split.
      * by intros c r [= <- _].
      * intros r c E. apply (f_equal reverse) in E.
        rewrite reverse_app in E. by injection E as <- _.
  - split; [done|]. split; [done|]. split; [done|]. split; [done|done].
Qed.

Lemma split_hd_free (c : N) (s : jsstring) : c ∉ hd [] (JS.split c s).
Proof.
  induction s as [|x r IH]; simpl; [by intros ?%elem_of_nil|].
  destruct (N.eqb_spec x c) as [->|Hne]; simpl; [by intros ?%elem_of_nil|].
  destruct (JS.split c r) as [|p ps]; simpl in *.
  - intros [->|H]%elem_of_cons; [done|by apply elem_of_nil in H].
  - intros [->|H]%elem_of_cons; [done|by apply IH].
Qed.

Lemma removeHeadingMark_elem (s : jsstring) (c : N) :
  c ∈ RegExp.removeHeadingMark s -> c ∈ s.
Proof.
  unfold RegExp.removeHeadingMark. destruct s as [|x r]; [done|].
  destruct (N.eqb_spec x 35) as [->|Hne].
  - intros Hc. right. by apply (suffix_elem _ _ _ (trimStart_suffix r)).
  - by repeat case_match.
Qed.

Lemma trimStart_spaces (ws : jsstring) (c : N) (t : jsstring) :
  Forall (fun x => JS.isWhiteSpace x = true) ws ->
  JS.isWhiteSpace c = false ->
  JS.trimStart (ws ++ c :: t) = c :: t.
Proof.
  intros Hws Hc. induction Hws as [|x ws Hx _ IH]; simpl.
  - by rewrite Hc.
  - by rewrite Hx.
Qed.

(** The first line: what stands before the first line feed. *)
Lemma split_first_line (line tail : jsstring) :
  10%N ∉ line ->
  tail = [] \/ (exists rest, tail = 10%N :: rest) ->
  hd [] (JS.split 10 (line ++ tail)) = line.
Proof.
  intros Hline [->|[rest ->]].
  - by rewrite app_nil_r, split_no_separator.
  - by rewrite split_part_app.
Qed.

(** X2: [extractTitle]: the title is never empty and never holds a line
    feed. It is taken from the first line, which ends at the first line
    feed or with the content: a first line that opens with the heading
    mark gives the text after the mark and the white space that follows
    it; a first line without the mark is the title as it is. Only the
    line feed ends the line: the carriage return of a line that ends in
    CR LF stays at the end of the title. *)
Theorem extractTitle_first_line :
  (forall content,
      extractTitle content <> [] /\ 10%N ∉ extractTitle content)
  /\ (forall ws c t tail,
         Forall (fun x => JS.isWhiteSpace x = true) ws -> 10%N ∉ ws ->
         JS.isWhiteSpace c = false -> 10%N ∉ c :: t ->
         tail = [] \/ (exists rest, tail = 10%N :: rest) ->
         extractTitle (js "#" ++ ws ++ (c :: t) ++ tail) = c :: t)
  /\ (forall c t tail,
         c <> 35%N -> 10%N ∉ c :: t ->
         tail = [] \/ (exists rest, tail = 10%N :: rest) ->
         extractTitle ((c :: t) ++ tail) = c :: t)
  /\ (forall c t rest,
         c <> 35%N -> 10%N ∉ c :: t ->
         extractTitle ((c :: t) ++ 13%N :: 10%N :: rest)
         = (c :: t) ++ [13%N]).
Proof.
  split; [|split; [|split]].
  - intros content. unfold extractTitle. cbv zeta.
    set (line := orElse (hd [] (JS.split 10 content)) []).
    assert (10%N ∉ line) as Hline.
    { subst line. pose proof (split_hd_free 10 content) as Hfree.
      by destruct (hd [] (JS.split 10 content)). }
    destruct (RegExp.removeHeadingMark line) as [|x r] eqn:E; cbn [orElse].
    + split; [done|]. by apply (bool_decide_unpack _).
    + split; [done|]. intros Hx. apply Hline.
      apply removeHeadingMark_elem. by rewrite E.
  - intros ws c t tail Hws Hfree Hc Hline Htail. unfold extractTitle. cbv zeta.
    replace (js "#" ++ ws ++ (c :: t) ++ tail)
      with ((35%N :: ws ++ c :: t) ++ tail)
      by (cbn; by rewrite <- app_assoc).
    rewrite split_first_line; [|..|done].
    + cbn. by rewrite trimStart_spaces.
    + intros [?|[?|?]%elem_of_app]%elem_of_cons; done.
  - intros c t tail Hc Hline Htail. unfold extractTitle. cbv zeta.
    rewrite split_first_line by done. cbn.
    unfold RegExp.removeHeadingMark. by repeat case_match.
  - intros c t rest Hc Hline. unfold extractTitle. cbv zeta.
    replace ((c :: t) ++ 13%N :: 10%N :: rest)
      with ((c :: t ++ [13%N]) ++ 10%N :: rest)
      by (cbn; by rewrite <- app_assoc).
    rewrite split_first_line; [| |right; by eexists].
    + cbn. unfold RegExp.removeHeadingMark. by repeat case_match.
    + intros [?|[?|?%list_elem_of_singleton]%elem_of_app]%elem_of_cons;
        [| |done]; apply Hline; set_solver.
Qed.

(** X2 at work: the heading mark goes, the rest of the first line is the
    title, also in a note of one line; the carriage return of a CR LF
    line end stays; empty content is Untitled. *)
Lemma extractTitle_first_line_witness :
  extractTitle (js "# Shopping" ++ 10%N :: js "- milk") = js "Shopping"
  /\ extractTitle (js "#  Shopping") = js "Shopping"
  /\ extractTitle (js "Shopping") = js "Shopping"
  /\ extractTitle (js "# T" ++ 13%N :: 10%N :: js "b") = js "T" ++ [13%N]
  /\ extractTitle [] = js "Untitled".
Proof.
  destruct extractTitle_first_line as (_ & Hmark & Hplain & _).
  split; [|split; [|split; [|split]]].
  - apply (Hmark (js " ") 83%N (js "hopping") (10%N :: js "- milk")).
    + by repeat constructor.
    + by apply (bool_decide_unpack _).
    + reflexivity.
    + by apply (bool_decide_unpack _).
    + right. by eexists.
  - apply (Hmark (js "  ") 83%N (js "hopping") []).
    + by repeat constructor.
    + by apply (bool_decide_unpack _).
    + reflexivity.
    + by apply (bool_decide_unpack _).
    + by left.
  - apply (Hplain 83%N (js "hopping") []); [done| |by left].
    by apply (bool_decide_unpack _).
  - apply (Hmark (js " ") 84%N [13%N] (10%N :: js "b")).
    + by repeat constructor.
    + by apply (bool_decide_unpack _).
    + reflexivity.
    + by apply (bool_decide_unpack _).
    + right. by eexists.
  - reflexivity.
Defined.

(** ** The directory preference *)

Section DirectoryPreference.
Context {W : Type} `{Host W}.

Lemma setCustomDirectory_returns (directory : jsstring) (s : State W) :
  exists s',
    setCustomDirectory directory s = (Ok tt, s')
    /\ getNotesDirectory (svc s')
       = match directory with [] => notesDirectory (svc s) | _ => directory end
    /\ directoryPreferenceCache (svc s')
       = match directory with [] => NoPreference | _ => Preference directory end
    /\ cacheCleared (svc s').
Proof.
  unfold setCustomDirectory, clearCache, tryCatch, bind, assign, log,
    asyncStorageWithTimeout_setItem, asyncStorageWithTimeout_removeItem, call.
  cbn. destruct directory as [|c d].
  - destruct (AsyncStorage_raced_removeItem _ _ _) as [[[]|e] w']; cbn;
      eexists; (split; [reflexivity|]); by repeat split.
  - destruct (AsyncStorage_raced_setItem _ _ _ _) as [[[]|e] w']; cbn;
      eexists; (split; [reflexivity|]); by repeat split.
Qed.

(** X5: [setCustomDirectory] never rejects, whether or not the preference
    could be persisted. Afterwards the root of the notes is the directory
    given, or the directory of the app when the empty string was given;
    the preference counts as loaded; the cache is cleared; and the
    console is as before, or one line longer when the write to
    AsyncStorage failed or timed out. *)
Theorem setCustomDirectory_effect (directory : jsstring) (s : State W) :
  exists s',
    setCustomDirectory directory s = (Ok tt, s')
    /\ getNotesDirectory (svc s')
       = match directory with [] => notesDirectory (svc s) | _ => directory end
    /\ directoryPreferenceCache (svc s')
       = match directory with [] => NoPreference | _ => Preference directory end
    /\ cacheCleared (svc s')
    /\ (console s' = console s
        \/ exists e,
             console s'
             = console s
               ++ [mkLogEntry LogError
                     (js "Failed to save directory preference:") (Some e)]).
Proof.
  destruct (setCustomDirectory_returns directory s)
    as (s' & E & Hdir & Hpref & Hcache).
  exists s'. repeat split; try done; try apply Hcache.
  revert E.
  unfold setCustomDirectory, clearCache, tryCatch, bind, assign, log,
    asyncStorageWithTimeout_setItem, asyncStorageWithTimeout_removeItem, call.
  cbn. destruct directory as [|c d].
  - destruct (AsyncStorage_raced_removeItem _ _ _) as [[[]|e] w']; cbn -[js];
      intros [= <-]; cbn -[js]; eauto.
  - destruct (AsyncStorage_raced_setItem _ _ _ _) as [[[]|e] w']; cbn -[js];
      intros [= <-]; cbn -[js]; eauto.
Qed.

(** X6: [loadDirectoryPreference] never rejects and always resolves the
    preference; once it is resolved a further call reads nothing and
    changes nothing. *)
Theorem loadDirectoryPreference_once (s : State W) :
  exists s',
    loadDirectoryPreference s = (Ok tt, s')
    /\ directoryPreferenceCache (svc s') <> NotLoaded
    /\ loadDirectoryPreference s' = (Ok tt, s').
Proof.
  unfold loadDirectoryPreference, tryCatch, bind, this, assign, log, ret,
    asyncStorageWithTimeout_getItem, call.
  destruct s as [v w c]. destruct v as [nd cd up cur nc ncc [| |d] last dur]; cbn.
  - destruct isWeb eqn:Hweb; cbn.
    + eexists. split; [reflexivity|]. by cbn.
    + destruct (AsyncStorage_raced_getItem _ _ w) as [[[[|x d]|]|e] w']; cbn;
        eexists; (split; [reflexivity|]); by cbn.
  - eexists. split; [reflexivity|]. by cbn.
  - eexists. split; [reflexivity|]. by cbn.
Qed.

(** X7: a directory that was chosen and persisted is the root of the notes
    again after a restart: [loadDirectoryPreference], run in a fresh
    process on a host that returns the directory [setCustomDirectory]
    wrote, restores it. *)
Theorem directory_preference_survives_restart
    (directory : jsstring) (s : State W) (w1 w2 : W) :
  isWeb = false ->
  directory <> [] ->
  AsyncStorage_raced_setItem (js "notes_directory_preference") directory 5000
    (world s) = (Ok tt, w1) ->
  AsyncStorage_raced_getItem (js "notes_directory_preference") 5000 w1
    = (Ok (Some directory), w2) ->
  world (setCustomDirectory directory s).2 = w1
  /\ getNotesDirectory (svc (loadDirectoryPreference (freshProcess w1)).2)
     = directory.
Proof.
  intros Hweb Hne Hset Hget. destruct directory as [|c d]; [done|]. split.
  - unfold setCustomDirectory, clearCache, tryCatch, bind, assign, log,
      asyncStorageWithTimeout_setItem, call. cbn -[js]. by rewrite Hset.
  - unfold loadDirectoryPreference, freshProcess, tryCatch, bind, this, assign,
      log, ret, asyncStorageWithTimeout_getItem, call. cbn -[js].
    rewrite Hweb. cbn -[js]. by rewrite Hget.
Qed.

(** X8: without a stored directory, or when AsyncStorage fails or times out,
    a fresh process keeps the directory of the app. *)
Theorem loadDirectoryPreference_falls_back (w : W) :
  isWeb = false ->
  (forall c d w', AsyncStorage_raced_getItem (js "notes_directory_preference")
                    5000 w <> (Ok (Some (c :: d)), w')) ->
  getNotesDirectory (svc (loadDirectoryPreference (freshProcess w)).2)
  = FileSystem_documentDirectory ++ js "Notes/"
  /\ directoryPreferenceCache (svc (loadDirectoryPreference (freshProcess w)).2)
     = NoPreference.
Proof.
  intros Hweb Hnone.
  unfold loadDirectoryPreference, freshProcess, tryCatch, bind, this, assign,
    log, ret, asyncStorageWithTimeout_getItem, call, newService. cbn -[js].
  rewrite Hweb. cbn -[js].
  destruct (AsyncStorage_raced_getItem _ _ w) as [[[[|x d]|]|e] w'] eqn:E; cbn;
    try done.
  exfalso. by eapply Hnone.
Qed.

(** X9: no public method takes a resolved preference back to the state before
    the load, and none changes the directory of the app. *)
Theorem perform_keeps_preference_resolved (c : Call) (s : State W) :
  (directoryPreferenceCache (svc s) <> NotLoaded ->
   directoryPreferenceCache (svc (perform c s)) <> NotLoaded)
  /\ notesDirectory (svc (perform c s)) = notesDirectory (svc s).
Proof.
  split.
  - revert s.
    destruct c; cbn [perform];
      match goal with
      | |- forall s, _ -> directoryPreferenceCache (svc (?m s).2) <> _ =>
          change (keeps (fun v => directoryPreferenceCache v <> NotLoaded) m)
      end;
      unfold_methods;
      repeat first
        [ apply keeps_assign; intros ? ?; cbn;
          first [assumption | done | by case_match]
        | keeps_step
        | progress unfold_methods ].
  - set (d := notesDirectory (svc s)).
    assert (notesDirectory (svc s) = d) as Hd by done. clearbody d.
    revert s Hd.
    destruct c; cbn [perform];
      match goal with
      | |- forall s, _ -> notesDirectory (svc (?m s).2) = _ =>
          change (keeps (fun v => notesDirectory v = d) m)
      end;
      unfold_methods;
      repeat first
        [ apply keeps_assign; intros ? ?; assumption
        | keeps_step
        | progress unfold_methods ].
Qed.

(** X10: the location shown after a directory was chosen: for a content URI
    the readable form of the URI, as a custom location; after the choice
    was cleared, the folder of the app. On the web platform the location
    is always the storage of the browser. *)
Theorem location_after_setCustomDirectory :
  (forall directory (s : State W),
      isWeb = false ->
      JS.startsWith directory (js "content://") = true ->
      directory <> notesDirectory (svc s) ->
      ((setCustomDirectory directory;; getStorageLocationInfo) s).1
      = Ok (parseSafUriToReadablePath directory, LocCustom))
  /\ (forall (s : State W),
         isWeb = false ->
         ((setCustomDirectory [];; getStorageLocationInfo) s).1
         = Ok (js "App Documents Folder", LocApp))
  /\ (forall (s s' : State W) r,
         isWeb = true ->
         getStorageLocationInfo s = (Ok r, s') ->
         r = (js "Browser Local Storage", LocApp)).
Proof.
  split; [|split].
  - intros directory s Hweb Hstart Hother.
    destruct directory as [|c d]; [done|].
    unfold setCustomDirectory, getStorageLocationInfo, loadDirectoryPreference,
      clearCache, tryCatch, bind, this, assign, log, ret,
      asyncStorageWithTimeout_setItem, call.
    cbn -[js JS.startsWith JS.includes parseSafUriToReadablePath].
    destruct (AsyncStorage_raced_setItem _ _ _ _) as [[[]|e] w'];
      cbn -[js JS.startsWith JS.includes parseSafUriToReadablePath];
      rewrite Hweb, (bool_decide_eq_false_2 _ Hother), Hstart; done.
  - intros s Hweb.
    unfold setCustomDirectory, getStorageLocationInfo, loadDirectoryPreference,
      clearCache, tryCatch, bind, this, assign, log, ret,
      asyncStorageWithTimeout_removeItem, call. cbn -[js].
    destruct (AsyncStorage_raced_removeItem _ _ _) as [[[]|e] w']; cbn -[js];
      rewrite Hweb, bool_decide_eq_true_2; done.
  - intros s s' r Hweb.
    unfold getStorageLocationInfo. intros (_ & s1 & _ & E)%bind_ok_inv.
    unfold bind, this, ret in E. cbn in E. rewrite Hweb in E.
    by injection E as <- _.
Qed.

End DirectoryPreference.

(** ** Listings and navigation *)

Ltac returns_step :=
  cbv zeta;
  first
    [ apply returns_bind; intros ?
    | apply returns_tryCatch; [|intros ?]
    | match goal with
      | |- returns (match ?x with _ => _ end) _ => destruct x
      | |- returns (if ?x then _ else _) _ => destruct x
      | |- returns (let '(_, _) := ?x in _) _ => destruct x
      end ].

Ltac keeps_field :=
  unfold_methods;
  repeat first
    [ apply keeps_assign; intros ? ?; cbn; assumption
    | keeps_step
    | progress unfold_methods ].

Section Paths.
Context {W : Type} `{Host W}.

Lemma loadDirectoryPreference_ok (s : State W) :
  exists s', loadDirectoryPreference s = (Ok tt, s').
Proof.
  unfold loadDirectoryPreference, tryCatch, bind, this, assign, log, ret,
    asyncStorageWithTimeout_getItem, call.
  destruct (directoryPreferenceCache (svc s)); [|by eexists..].
  destruct isWeb; [by eexists|].
  by destruct (AsyncStorage_raced_getItem _ _ _) as [[[[|x d]|]|e] w'];
    eexists.
Qed.

Lemma loadDirectoryPreference_web (s : State W) :
  isWeb = true ->
  exists s', loadDirectoryPreference s = (Ok tt, s') /\ world s' = world s.
Proof.
  intros Hweb. unfold loadDirectoryPreference, bind, this, assign, ret.
  rewrite Hweb. destruct (directoryPreferenceCache (svc s)); by eexists.
Qed.

(** The listing is the one of the directory asked for, and its parent is
    computed against the root as it was when the call began. *)
Lemma getDirectoryContents_listingAt directoryPath (s s' : State W) dc :
  getDirectoryContents directoryPath s = (Ok dc, s') ->
  listingAt
    (orElse (default [] directoryPath) (getCurrentDirectory (svc s)))
    (if isWeb then None
     else getParentPath
            (orElse (default [] directoryPath) (getCurrentDirectory (svc s)))
            (getNotesDirectory (svc s)))
    dc.
Proof.
  unfold getDirectoryContents.
  intros (cur & s1 & [= <- <-] & E)%bind_ok_inv. cbv zeta in E.
  apply bind_ok_inv in E as (root & s2 & [= <- <-] & E).
  apply bind_ok_inv in E as (? & s3 & _ & E).
  apply bind_ok_inv in E as (? & s4 & _ & E).
  match type of E with
  | ?m _ = _ =>
      match goal with
      | |- ?Q dc => enough (returns m Q) as Hr by exact (Hr _ _ _ E)
      end
  end.
  clear. unfold getWebDirectoryContents, getSAFDirectoryContents,
    getFileSystemDirectoryContents, buildDirectoryContents,
    buildEmptyDirectoryContents.
  destruct isWeb;
    repeat first [ by apply returns_ret | returns_step ].
Qed.

Lemma getDirectoryContents_keeps_currentDirectory directoryPath x :
  keeps (W := W) (fun v => currentDirectory v = x)
    (getDirectoryContents directoryPath).
Proof. keeps_field. Qed.

(** X11: a listing that [getDirectoryContents] returns is the listing of
    the directory given, or of the current directory when none or the
    empty string is given. On the file backends its parent is
    [getParentPath] of that directory against the root of the notes as it
    was before the call, that is, before the directory preference is
    loaded; on the web platform there is no parent and there are no
    folders. *)
Theorem getDirectoryContents_paths
    (directoryPath : option jsstring) (s s' : State W)
    (dc : DirectoryContents) :
  getDirectoryContents directoryPath s = (Ok dc, s') ->
  let targetPath :=
    orElse (default [] directoryPath) (getCurrentDirectory (svc s)) in
  currentPath dc = targetPath
  /\ (isWeb = false ->
      parentPath dc = getParentPath targetPath (getNotesDirectory (svc s)))
  /\ (isWeb = true -> parentPath dc = None /\ folders dc = []).
Proof.
  intros E targetPath.
  destruct (getDirectoryContents_listingAt _ _ _ _ E) as [Hcur Hparent].
  split; [done|]. split.
  - intros Hweb. by rewrite Hweb in Hparent.
  - intros Hweb. rewrite Hweb in Hparent. split; [done|].
    revert E. unfold getDirectoryContents.
    intros (cur & s1 & _ & E)%bind_ok_inv. cbv zeta in E.
    apply bind_ok_inv in E as (root & s2 & _ & E).
    apply bind_ok_inv in E as (? & s3 & _ & E).
    apply bind_ok_inv in E as (? & s4 & _ & E).
    rewrite Hweb in E. unfold getWebDirectoryContents in E.
    apply bind_ok_inv in E as (? & s5 & _ & E).
    apply bind_ok_inv in E as (? & s6 & _ & E).
    by injection E as <- _.
Qed.

(** X12: navigation. [navigateToRoot] lists the root of the notes, which
    has no parent, and leaves no current directory set;
    [navigateToDirectory] lists the directory given and makes it the
    current one; [navigateToParent] at the root returns null and does not
    move. *)
Theorem navigation_paths :
  (forall (s s' : State W) dc,
      navigateToRoot s = (Ok dc, s') ->
      currentPath dc = getNotesDirectory (svc s)
      /\ parentPath dc = None
      /\ currentDirectory (svc s') = None)
  /\ (forall path (s s' : State W) dc,
         path <> [] ->
         navigateToDirectory path s = (Ok dc, s') ->
         currentPath dc = path
         /\ getCurrentDirectory (svc s') = path)
  /\ (forall (s s' : State W) r,
         getCurrentDirectory (svc s) = getNotesDirectory (svc s) ->
         navigateToParent s = (Ok r, s') ->
         r = None /\ currentDirectory (svc s') = currentDirectory (svc s)).
Proof.
  split; [|split].
  - intros s s' dc. unfold navigateToRoot, resetToRootDirectory.
    intros (? & s1 & [= <- <-] & E)%bind_ok_inv.
    destruct (getDirectoryContents_listingAt _ _ _ _ E) as [Hcur Hparent].
    match type of E with
    | getDirectoryContents _ ?st = _ =>
        pose proof (getDirectoryContents_keeps_currentDirectory None None st
                      eq_refl) as Hkeep
    end.
    rewrite E in Hkeep. cbn in Hcur, Hparent, Hkeep.
    unfold getCurrentDirectory in Hcur, Hparent. cbn in Hcur, Hparent.
    split; [done|]. split; [|done].
    rewrite getParentPath_root in Hparent. by destruct isWeb.
  - intros path s s' dc Hne. unfold navigateToDirectory, setCurrentDirectory.
    intros (? & s1 & [= <- <-] & E)%bind_ok_inv.
    destruct (getDirectoryContents_listingAt _ _ _ _ E) as [Hcur _].
    match type of E with
    | getDirectoryContents _ ?st = _ =>
        pose proof (getDirectoryContents_keeps_currentDirectory (Some path)
                      (Some path) st eq_refl) as Hkeep
    end.
    rewrite E in Hkeep. cbn in Hcur, Hkeep.
    destruct path as [|c p]; [done|]. split; [done|].
    unfold getCurrentDirectory. by rewrite Hkeep.
  - intros s s' r Hroot. unfold navigateToParent.
    intros (dc & s1 & E1 & E)%bind_ok_inv.
    destruct (getDirectoryContents_listingAt _ _ _ _ E1) as [_ Hparent].
    pose proof (getDirectoryContents_keeps_currentDirectory None
                  (currentDirectory (svc s)) s eq_refl) as Hkeep.
    rewrite E1 in Hkeep. cbn in Hparent, Hkeep.
    rewrite Hroot, getParentPath_root in Hparent.
    replace (parentPath dc) with (@None jsstring) in E
      by (by destruct isWeb).
    by injection E as <- <-.
Qed.

(** X13: the listing of the web platform. When the storage of the
    browser can be read, [getDirectoryContents] returns; the listing holds
    no folder and has no parent; its notes are the stored entries, one
    note for each entry whatever the directory asked for; a text that is
    no array of entries gives the empty listing. *)
Theorem getDirectoryContents_web
    (directoryPath : option jsstring) (s : State W)
    (stored : option NotesText) (w' : W) :
  isWeb = true ->
  localStorage_getItem (world s) = (Ok stored, w') ->
  exists dc s',
    getDirectoryContents directoryPath s = (Ok dc, s')
    /\ folders dc = []
    /\ parentPath dc = None
    /\ match stored with
       | Some (TextEntries l) =>
           Permutation (ni_filename <$> notes dc) (w_filename <$> l)
       | _ => notes dc = []
       end.
Proof.
  intros Hweb Hget. unfold getDirectoryContents.
  rewrite (bind_ok _ _ s (getCurrentDirectory (svc s)) s) by done. cbv zeta.
  rewrite (bind_ok _ _ s (getNotesDirectory (svc s)) s) by done.
  destruct (loadDirectoryPreference_web s Hweb) as (s1 & E1 & Hw1).
  rewrite (bind_ok _ _ _ _ _ E1).
  unfold ensureDirectoryExists. rewrite Hweb.
  rewrite (bind_ok _ _ s1 tt s1) by done.
  unfold getWebDirectoryContents.
  rewrite (bind_ok _ _ s1 stored (mkState (svc s1) w' (console s1)))
    by (unfold call; by rewrite Hw1, Hget).
  destruct stored as [[| | |l]|];
    unfold parsedEntries, tryCatch, bind, throw, ret; cbn;
    (eexists; eexists; split; [reflexivity|]); cbn;
    (split; [done|]); (split; [done|]); try done.
  by rewrite sort_Permutation, <- list_fmap_compose.
Qed.

(** X14: listing and navigating never touch the cache of the notes: the
    two cache maps and the time of the last update are after
    [getDirectoryContents], [navigateToDirectory], [navigateToParent] and
    [navigateToRoot] what they were before, whether the call returned or
    rejected. *)
Theorem listing_leaves_cache (s : State W) :
  (forall directoryPath,
      cacheOf (svc (getDirectoryContents directoryPath s).2) = cacheOf (svc s))
  /\ (forall path,
         cacheOf (svc (navigateToDirectory path s).2) = cacheOf (svc s))
  /\ cacheOf (svc (navigateToParent s).2) = cacheOf (svc s)
  /\ cacheOf (svc (navigateToRoot s).2) = cacheOf (svc s).
Proof.
  set (c := cacheOf (svc s)).
  assert (cacheOf (svc s) = c) as Hc by done. clearbody c. revert s Hc.
  assert (forall directoryPath,
             keeps (W := W) (fun v => cacheOf v = c)
               (getDirectoryContents directoryPath)) as Hget
    by (intros; keeps_field).
  intros s Hc. repeat split.
  - intros directoryPath. by apply Hget.
  - intros path. revert s Hc.
    change (keeps (fun v => cacheOf v = c) (navigateToDirectory path)).
    unfold navigateToDirectory, setCurrentDirectory.
    apply keeps_bind; [by apply keeps_assign|]. intros _. apply Hget.
  - revert s Hc. change (keeps (fun v => cacheOf v = c) navigateToParent).
    unfold navigateToParent, setCurrentDirectory.
    apply keeps_bind; [apply Hget|]. intros dc.
    destruct (parentPath dc) as [[|x p]|]; try apply keeps_ret.
    apply keeps_bind; [by apply keeps_assign|]. intros _.
    apply keeps_bind; [apply Hget|]. intros. apply keeps_ret.
  - revert s Hc. change (keeps (fun v => cacheOf v = c) navigateToRoot).
    unfold navigateToRoot, resetToRootDirectory.
    apply keeps_bind; [by apply keeps_assign|]. intros _. apply Hget.
Qed.

End Paths.

(** ** Reading notes *)

Section Reads.
Context {W : Type} `{Host W}.

Lemma neverRejects_ret {A} (a : A) : neverRejects (W := W) (ret a).
Proof. intros s. by eexists _, _. Qed.

Lemma neverRejects_this {A} (f : Service -> A) : neverRejects (W := W) (this f).
Proof. intros s. by eexists _, _. Qed.

Lemma neverRejects_assign f : neverRejects (W := W) (assign f).
Proof. intros s. by eexists _, _. Qed.

Lemma neverRejects_log l text v : neverRejects (W := W) (log l text v).
Proof. intros s. by eexists _, _. Qed.

Lemma neverRejects_bind {A B} (m : M W A) (k : A -> M W B) :
  neverRejects m -> (forall a, neverRejects (k a)) -> neverRejects (bind m k).
Proof.
  intros Hm Hk s. destruct (Hm s) as (a & s1 & E).
  rewrite (bind_ok _ _ _ _ _ E). apply Hk.
Qed.

Lemma neverRejects_tryCatch {A} (m : M W A) (h : Exn -> M W A) :
  (forall e, neverRejects (h e)) -> neverRejects (tryCatch m h).
Proof.
  intros Hh s. unfold tryCatch. destruct (m s) as [[a|e] s1].
  - by eexists _, _.
  - apply Hh.
Qed.

Lemma neverRejects_isCacheValid : neverRejects (W := W) isCacheValid.
Proof. intros s. destruct (isCacheValid_state s) as (b & ->). by eexists _, _. Qed.

Lemma neverRejects_loadDirectoryPreference :
  neverRejects (W := W) loadDirectoryPreference.
Proof. intros s. destruct (loadDirectoryPreference_ok s) as (s' & ->). by eexists _, _. Qed.

(** A rejection of [m;; k] is a rejection of [m], when [k] never
    rejects. *)
Lemma bind_throw_iff {A B} (m : M W A) (k : A -> M W B) s e :
  (forall a, neverRejects (k a)) ->
  (bind m k s).1 = Throw e <-> (m s).1 = Throw e.
Proof.
  intros Hk. unfold bind. destruct (m s) as [[a|e'] s1]; cbn.
  - destruct (Hk a s1) as (b & s2 & ->). cbn. split; intros [=].
  - split; by intros [= ->].
Qed.

Lemma getNote_neverRejects filename folderPath :
  isWeb = false -> neverRejects (W := W) (getNote filename folderPath).
Proof.
  intros Hweb. unfold getNote, readNoteOrNull. rewrite Hweb. cbv zeta.
  apply neverRejects_bind; [apply neverRejects_isCacheValid|]. intros valid.
  apply neverRejects_bind; [apply neverRejects_this|]. intros cache.
  assert (neverRejects (W := W)
            (tryCatch
               (readNoteFromBackend filename folderPath
                  (noteCacheKey filename folderPath))
               (fun error =>
                  log LogError (js "Error reading note:") (Some error);;
                  ret None))) as Hread.
  { apply neverRejects_tryCatch. intros e.
    apply neverRejects_bind; [apply neverRejects_log|]. intros _.
    apply neverRejects_ret. }
  destruct valid; [|apply Hread].
  destruct (cache !! noteCacheKey filename folderPath);
    [apply neverRejects_ret|apply Hread].
Qed.

(** X15: what the reads of the file backends reject. [getNote] never
    rejects: every failure of a read is answered with null. [getAllNotes]
    and [getDirectoryContents] reject exactly when the check of the
    directory, [ensureDirectoryExists], rejects, and with its error:
    every failure of the listing itself is answered with the empty
    listing. *)
Theorem reads_reject_only_with_the_directory_check :
  isWeb = false ->
  (forall filename folderPath (s : State W),
      exists r s', getNote filename folderPath s = (Ok r, s'))
  /\ (forall (s : State W) e,
         (getAllNotes s).1 = Throw e
         <-> ((loadDirectoryPreference;; ensureDirectoryExists) s).1 = Throw e)
  /\ (forall directoryPath (s : State W) e,
         (getDirectoryContents directoryPath s).1 = Throw e
         <-> ((loadDirectoryPreference;; ensureDirectoryExists) s).1 = Throw e).
Proof.
  intros Hweb. split; [|split].
  - intros filename folderPath. by apply getNote_neverRejects.
  - intros s e. unfold getAllNotes. rewrite Hweb.
    destruct (loadDirectoryPreference_ok s) as (s0 & E0).
    rewrite !(bind_ok _ _ _ _ _ E0). apply bind_throw_iff. intros _.
    apply neverRejects_bind; [apply neverRejects_this|]. intros currentDir.
    apply neverRejects_tryCatch. intros error.
    apply neverRejects_bind; [apply neverRejects_log|]. intros _.
    apply neverRejects_ret.
  - intros directoryPath s e. unfold getDirectoryContents. rewrite Hweb.
    rewrite (bind_ok _ _ s (getCurrentDirectory (svc s)) s) by done. cbv zeta.
    rewrite (bind_ok _ _ s (getNotesDirectory (svc s)) s) by done.
    destruct (loadDirectoryPreference_ok s) as (s0 & E0).
    rewrite !(bind_ok _ _ _ _ _ E0). apply bind_throw_iff. intros _.
    apply neverRejects_tryCatch. intros error.
    apply neverRejects_bind; [apply neverRejects_log|]. intros _.
    apply neverRejects_ret.
Qed.

(** A note that [getNote] returned is in the cache under its key, and the
    read changed neither the time of the last update nor the window. *)
Lemma getNote_returns_cached filename folderPath (s s1 : State W) n :
  isWeb = false ->
  getNote filename folderPath s = (Ok (Some n), s1) ->
  noteContentCache (svc s1) !! noteCacheKey filename folderPath = Some n
  /\ lastCacheUpdate (svc s1) = lastCacheUpdate (svc s)
  /\ cacheValidityDuration (svc s1) = cacheValidityDuration (svc s).
Proof.
  intros Hweb. unfold getNote. rewrite Hweb. cbv zeta.
  intros (valid & s2 & E1 & E)%bind_ok_inv.
  destruct (isCacheValid_state s) as (b & E1'). rewrite E1' in E1.
  injection E1 as <- <-.
  apply bind_ok_inv in E as (cache & s3 & [= <- <-] & E). cbn in E.
  assert (readNoteOrNull filename folderPath (noteCacheKey filename folderPath)
            (mkState (svc s) (Date_now (world s)).2 (console s))
          = (Ok (Some n), s1) ->
          noteContentCache (svc s1) !! noteCacheKey filename folderPath = Some n
          /\ lastCacheUpdate (svc s1) = lastCacheUpdate (svc s)
          /\ cacheValidityDuration (svc s1) = cacheValidityDuration (svc s))
    as Hread.
  { clear E. unfold readNoteOrNull, tryCatch.
    destruct (readNoteFromBackend _ _ _ _) as [[r|e] s4] eqn:E; [|done].
    intros [= -> ->]. unfold readNoteFromBackend in E.
    apply bind_ok_inv in E as (rootDir & s5 & [= <- <-] & E). cbv zeta in E.
    apply bind_ok_inv in E as (note & s6 & E6 & E).
    apply bind_ok_inv in E as (cache & s7 & [= <- <-] & E).
    apply bind_ok_inv in E as (? & s8 & [= <- <-] & [= <- <-]). cbn.
    rewrite lookup_insert_eq. split; [done|].
    assert (svc s6 = svc s) as ->; [|done].
    match type of E6 with
    | ?m ?st = _ =>
        assert (keeps (fun v => v = svc s) m) as Hkeep
          by (unfold modTimeOf, dateNow; keeps_auto);
        specialize (Hkeep st eq_refl)
    end.
    by rewrite E6 in Hkeep. }
  destruct b; [|by apply Hread].
  destruct (noteContentCache (svc s) !! _) as [cached|] eqn:Ec; [|by apply Hread].
  by injection E as <- <-.
Qed.

(** A note in the cache is returned without reading the store, while the
    cache is valid. *)
Lemma getNote_hit filename folderPath (s : State W) n :
  isWeb = false ->
  noteContentCache (svc s) !! noteCacheKey filename folderPath = Some n ->
  (Date_now (world s)).1 - lastCacheUpdate (svc s)
  < cacheValidityDuration (svc s) ->
  getNote filename folderPath s
  = (Ok (Some n), mkState (svc s) (Date_now (world s)).2 (console s)).
Proof.
  intros Hweb Hc Hvalid. unfold getNote. rewrite Hweb. cbv zeta.
  unfold isCacheValid, dateNow, bind, call, this, ret.
  destruct (Date_now (world s)) as [now w'] eqn:E. cbn in *.
  rewrite (proj2 (Z.ltb_lt _ _) Hvalid). by rewrite Hc.
Qed.

(** X16: within the window after the last listing, a note that [getNote]
    returned is returned again from the cache, whatever the store holds
    by then: the second call only reads the clock. *)
Theorem getNote_answers_from_cache
    (filename : jsstring) (folderPath : option jsstring)
    (s s1 : State W) (n : Note) (w : W) (c : list LogEntry) :
  isWeb = false ->
  getNote filename folderPath s = (Ok (Some n), s1) ->
  (Date_now w).1 - lastCacheUpdate (svc s) < cacheValidityDuration (svc s) ->
  getNote filename folderPath (mkState (svc s1) w c)
  = (Ok (Some n), mkState (svc s1) (Date_now w).2 c).
Proof.
  intros Hweb Hget Hvalid.
  destruct (getNote_returns_cached _ _ _ _ _ Hweb Hget) as (Hc & Hl & Hd).
  apply getNote_hit; cbn; [done|done|]. by rewrite Hl, Hd.
Qed.

(** X17: the key of the note cache does not tell every two notes apart.
    It is built as note_, the filename, an underscore and the folder, with
    root for a missing folder: within the window, the note read from the
    root is the answer for the same filename in a folder named root, and
    the note [a] of the folder [b_c] is the answer for the note [a_b] of
    the folder [c]. *)
Theorem getNote_confuses_notes
    (s s1 : State W) (n : Note) (w : W) (c : list LogEntry) :
  isWeb = false ->
  (Date_now w).1 - lastCacheUpdate (svc s) < cacheValidityDuration (svc s) ->
  (forall filename,
      getNote filename None s = (Ok (Some n), s1) ->
      (getNote filename (Some (js "root")) (mkState (svc s1) w c)).1
      = Ok (Some n))
  /\ (forall a b folder,
         folder <> [] ->
         getNote a (Some (b ++ js "_" ++ folder)) s = (Ok (Some n), s1) ->
         (getNote (a ++ js "_" ++ b) (Some folder) (mkState (svc s1) w c)).1
         = Ok (Some n)).
Proof.
  intros Hweb Hvalid. split.
  - intros filename Hget.
    destruct (getNote_returns_cached _ _ _ _ _ Hweb Hget) as (Hc & Hl & Hd).
    rewrite (getNote_hit _ _ _ n); cbn; [done|done|done|].
    by rewrite Hl, Hd.
  - intros a b folder Hne Hget.
    destruct (getNote_returns_cached _ _ _ _ _ Hweb Hget) as (Hc & Hl & Hd).
    rewrite (getNote_hit _ _ _ n); cbn; [done|done| |by rewrite Hl, Hd].
    rewrite <- Hc. f_equal. unfold noteCacheKey. cbn.
    destruct folder as [|x folder]; [done|].
    destruct b; cbn; by rewrite <- ?app_assoc.
Qed.

End Reads.

(** ** The exact effect of the mutations on a file store *)

Section StoreEffect.
Context {W : Type} `{ReliableStore W}.

Lemma removeEntry_effect dir id (s s1 : State W) r :
  removeEntry dir id s = (r, s1) ->
  svc s1 = svc s
  /\ entries (world s1) = delete (locatorOf dir id) (entries (world s)).
Proof.
  intros E. destruct (removeEntry_gone _ _ _ _ _ E) as (Hsvc & Hgone & Hframe).
  split; [done|]. apply map_eq. intros p.
  destruct (decide (p = locatorOf dir id)) as [->|Hp].
  - by rewrite Hgone, lookup_delete_eq.
  - by rewrite Hframe, lookup_delete_ne.
Qed.

Lemma deleteNote_entries id folderPath (s s1 : State W) r :
  isWeb = false ->
  deleteNote id folderPath s = (r, s1) ->
  getNotesDirectory (svc s1) = getNotesDirectory (svc s)
  /\ entries (world s1)
     = delete (locatorOf (targetDirOf (getNotesDirectory (svc s)) folderPath) id)
         (entries (world s)).
Proof.
  intros Hweb. rewrite deleteNote_native by done.
  destruct (removeEntry _ id s) as [[[]|e] s2] eqn:E;
    destruct (removeEntry_effect _ _ _ _ _ E) as (Hsvc & Heff);
    intros [= <- <-]; cbn; by rewrite Hsvc.
Qed.

(** X18: on a reliable file store, after [deleteNote] the store is the
    store before without the entry of the note, whether the call returned
    or rejected: the entry is gone and no other entry has changed. A call
    that returned has cleared the cache. *)
Theorem deleteNote_effect
    (id : jsstring) (folderPath : option jsstring) (s s1 : State W)
    (r : Res unit) :
  isWeb = false ->
  deleteNote id folderPath s = (r, s1) ->
  entries (world s1)
  = delete (locatorOf (targetDirOf (getNotesDirectory (svc s)) folderPath) id)
      (entries (world s))
  /\ (r = Ok tt -> cacheCleared (svc s1)).
Proof.
  intros Hweb E. split.
  - by destruct (deleteNote_entries _ _ _ _ _ Hweb E).
  - intros ->. by eapply deleteNote_ok_cleared.
Qed.

Lemma removeOldEntry_effect note oldFilename folderPath (s s1 : State W) r :
  isWeb = false ->
  removeOldEntry note oldFilename folderPath s = (r, s1) ->
  entries (world s1)
  = match renamedFrom note oldFilename with
    | Some old =>
        delete (locatorOf (targetDirOf (getNotesDirectory (svc s)) folderPath)
                  old)
          (entries (world s))
    | None => entries (world s)
    end.
Proof.
  intros Hweb. unfold removeOldEntry, renamedFrom.
  destruct oldFilename as [[|c old]|]; [by intros [= <- <-]| |by intros [= <- <-]].
  destruct (bool_decide _); cbn [negb]; [by intros [= <- <-]|].
  unfold tryCatch, log.
  destruct (deleteNote (c :: old) folderPath s) as [[[]|e] s2] eqn:E;
    destruct (deleteNote_entries _ _ _ _ _ Hweb E) as [_ Heff];
    by intros [= <- <-].
Qed.

(** X19: on a reliable file store, after a [saveNote] that returned the
    store is the store before, without the entry of the old filename when
    the note was renamed, and with the content of the note under its
    filename; no other entry has changed. *)
Theorem saveNote_effect
    (note : Note) (oldFilename folderPath : option jsstring)
    (s s' : State W) :
  isWeb = false ->
  saveNote note oldFilename folderPath s = (Ok tt, s') ->
  let targetDir := targetDirOf (getNotesDirectory (svc s)) folderPath in
  entries (world s')
  = <[locatorOf targetDir (filename note) := content note]>
      (match renamedFrom note oldFilename with
       | Some old => delete (locatorOf targetDir old) (entries (world s))
       | None => entries (world s)
       end).
Proof.
  intros Hweb Hok targetDir.
  destruct (saveNote_ok_steps _ _ _ _ _ Hweb Hok)
    as (s1 & s2 & s3 & E1 & E2 & E3 & E4).
  destruct (ensureDirectoryExists_effect _ _ _ E1) as [Hs1 He1].
  pose proof (removeOldEntry_effect _ _ _ _ _ _ Hweb E2) as He2.
  destruct (writeEntry_effect _ _ _ _ E3) as [_ He3].
  injection E4 as <-. cbn. rewrite He3, He2, Hs1, He1. done.
Qed.

End StoreEffect.

(** ** The notes of the web platform *)

Section WebNotes.
Context {W : Type} `{WebStore W}.

(** A [saveWebNote] that returned, taken apart: the storage holds the
    array it read, with the entry of the note put in the place of the
    first entry of that filename, or at the end. *)
Lemma saveWebNote_ok note (s s' : State W) :
  saveWebNote note s = (Ok tt, s') ->
  stored (world s) <> Some TextNotArray
  /\ exists now,
      stored (world s')
      = Some (TextEntries
                (let l := entriesOf (stored (world s)) in
                 let noteData :=
                   mkWebEntry None (filename note) (content note) None
                     (createdAt note) now (filePath note) in
                 match list_find (fun n => w_filename n = filename note) l with
                 | Some (i, _) => <[i := noteData]> l
                 | None => l ++ [noteData]
                 end)).
Proof.
  unfold saveWebNote.
  intros (t & s1 & E1 & E)%bind_ok_inv.
  destruct (web_getItem (world s)) as [Hget Hkeep].
  unfold call in E1. destruct (localStorage_getItem (world s)) as [r w1].
  cbn in Hget, Hkeep. subst r. injection E1 as <- <-.
  apply bind_ok_inv in E as (l & s2 & E2 & E).
  assert (stored (world s) <> Some TextNotArray
          /\ l = entriesOf (stored (world s)) /\ s2 = mkState (svc s) w1 (console s))
    as (Hne & -> & ->).
  { destruct (stored (world s)) as [[| | |l0]|]; try done;
      by injection E2 as <- <-. }
  split; [done|]. clear E2. cbv zeta in E.
  apply bind_ok_inv in E as (now & s3 & E3 & E).
  unfold dateNow, call in E3. cbn in E3.
  pose proof (web_now w1) as Hnow.
  destruct (Date_now w1) as [t w2]. cbn in Hnow. injection E3 as <- <-.
  exists t. unfold call in E. cbn in E.
  match type of E with
  | context [localStorage_setItem ?l' w2] =>
      pose proof (web_setItem l' w2) as Hset;
      destruct (localStorage_setItem l' w2) as [[[]|e] w3]; [|done]
  end.
  injection E as <-. cbn. by rewrite Hset.
Qed.

(** X20: [saveNote] on the web platform puts the note into the array of
    the storage under its filename. After a save that returned, the
    filenames of the array are those of before, in their order, with the
    filename of the note added at the end if it was not there; every
    entry of another filename is in its place, so is the entry of the old
    filename of a rename; there is an entry of the filename of the note,
    with its content and without an id; and if no two entries had one
    filename before, none have after. *)
Theorem saveNote_web_upsert
    (note : Note) (oldFilename folderPath : option jsstring)
    (s s' : State W) :
  isWeb = true ->
  saveNote note oldFilename folderPath s = (Ok tt, s') ->
  let l := entriesOf (stored (world s)) in
  exists l',
    stored (world s') = Some (TextEntries l')
    /\ w_filename <$> l'
       = (if bool_decide (filename note ∈ w_filename <$> l)
          then w_filename <$> l
          else (w_filename <$> l) ++ [filename note])
    /\ (forall i e,
           l !! i = Some e -> w_filename e <> filename note ->
           l' !! i = Some e)
    /\ (exists e,
           e ∈ l' /\ w_filename e = filename note
           /\ w_content e = content note /\ w_id e = None)
    /\ (NoDup (w_filename <$> l) -> NoDup (w_filename <$> l'))
    /\ (Forall (fun e => w_id e = None) l ->
        Forall (fun e => w_id e = None) l').
Proof.
  intros Hweb Hok l. unfold saveNote in Hok. rewrite Hweb in Hok.
  destruct (saveWebNote_ok _ _ _ Hok) as (_ & now & Hstored).
  fold l in Hstored. cbv zeta in Hstored.
  set (noteData := mkWebEntry None (filename note) (content note) None
                     (createdAt note) now (filePath note)) in *.
  destruct (list_find (fun n => w_filename n = filename note) l)
    as [[i x]|] eqn:Efind.
  - apply list_find_Some in Efind as (Hi & Hx & Hfirst).
    exists (<[i := noteData]> l). split; [done|].
    assert (w_filename <$> <[i := noteData]> l = w_filename <$> l) as Hnames.
    { rewrite list_fmap_insert. apply list_insert_id.
      by rewrite list_lookup_fmap, Hi; cbn; rewrite Hx. }
    split; [|split; [|split; [|split]]].
    + rewrite Hnames, bool_decide_eq_true_2; [done|].
      apply list_elem_of_fmap. exists x. split; [done|].
      by eapply list_elem_of_lookup_2.
    + intros j e Hj Hne. rewrite list_lookup_insert_ne; [done|].
      intros <-. rewrite Hi in Hj. by injection Hj as <-.
    + exists noteData. split; [|done].
      eapply list_elem_of_lookup_2. apply list_lookup_insert_eq.
      by eapply lookup_lt_Some.
    + by rewrite Hnames.
    + intros Hall. apply Forall_insert; done.
  - apply list_find_None in Efind.
    exists (l ++ [noteData]). split; [done|].
    assert (filename note ∉ w_filename <$> l) as Hnew.
    { intros (e & He & Hin)%list_elem_of_fmap.
      by apply (proj1 (Forall_forall _ _) Efind e Hin). }
    split; [|split; [|split; [|split]]].
    + by rewrite fmap_app, bool_decide_eq_false_2.
    + intros j e Hj _. by apply lookup_app_l_Some.
    + exists noteData. split; [|done]. apply elem_of_app. right.
      by apply list_elem_of_singleton.
    + intros Hnd. rewrite fmap_app. apply NoDup_app. split; [done|].
      split; [|apply NoDup_singleton].
      intros name Hin ->%list_elem_of_singleton. done.
    + intros Hall. apply Forall_app. split; [done|]. by constructor.
Qed.

(** X21: [deleteNote] on the web platform removes the entries whose id
    is the id given. The entries that [saveNote] writes have no id: on a
    storage whose entries have none, [deleteNote] returns and the storage
    holds the same entries as before, whatever id is given. *)
Theorem deleteNote_web_keeps_entries_without_id
    (id : jsstring) (folderPath : option jsstring) (s s' : State W)
    (r : Res unit) (l : list WebEntry) :
  isWeb = true ->
  stored (world s) = Some (TextEntries l) ->
  Forall (fun e => w_id e = None) l ->
  deleteNote id folderPath s = (r, s') ->
  r = Ok tt /\ stored (world s') = Some (TextEntries l).
Proof.
  intros Hweb Hstored Hall. unfold deleteNote, deleteWebNote. rewrite Hweb.
  destruct (web_getItem (world s)) as [Hget Hkeep].
  unfold bind at 1, call at 1.
  destruct (localStorage_getItem (world s)) as [r1 w1].
  cbn in Hget, Hkeep. subst r1. rewrite Hstored. rewrite Hstored in Hkeep.
  unfold tryCatch, bind, parsedEntries, ret, call, log. cbn.
  replace (filter (fun n => w_id n <> Some id) l) with l.
  2: { symmetry. clear -Hall. induction Hall as [|e l He _ IH]; [done|].
       rewrite filter_cons_True; [by rewrite IH|]. by rewrite He. }
  pose proof (web_setItem l w1) as Hset.
  destruct (localStorage_setItem l w1) as [[[]|e] w2];
    intros [= <- <-]; cbn; (split; [done|]); congruence.
Qed.

End WebNotes.

(** ** Preferences across restarts *)

Section PreferencesMore.
Context {W : Type} `{Host W}.

Lemma spread_defaults_is_Some (m : gmap jsstring JsVal) (k : jsstring) :
  is_Some (DEFAULT_PREFERENCES !! k) ->
  is_Some (spread DEFAULT_PREFERENCES m !! k).
Proof.
  intros Hk. unfold spread. apply lookup_union_is_Some. by right.
Qed.

(** X22: [loadUserPreferences] never rejects. Afterwards each of the two
    settings has a value, the persisted one or the default; and the
    preferences are built from the persisted payload and the defaults
    alone: what the service held in memory before plays no part. *)
Theorem loadUserPreferences_replaces (s : State W) :
  exists s',
    loadUserPreferences s = (Ok tt, s')
    /\ is_Some (userPreferences (svc s') !! js "showTimestamps")
    /\ is_Some (userPreferences (svc s') !! js "welcomeCompleted")
    /\ (forall held,
           userPreferences
             (svc (loadUserPreferences
                     (mkState (set_userPreferences held (svc s)) (world s)
                        (console s))).2)
           = userPreferences (svc s')).
Proof.
  unfold loadUserPreferences, tryCatch, bind,
    asyncStorageWithTimeout_getItem, call, assign, log, throw. cbn -[js].
  destruct (AsyncStorage_raced_getItem _ _ _) as [[[[|c text]|]|e] w'];
    cbn -[js]; try (eexists; split; [reflexivity|]; by repeat split).
  destruct (JSON_parse (c :: text)) as [parsed|e]; cbn -[js];
    eexists; (split; [reflexivity|]); cbn -[js]; [|by repeat split].
  split; [by apply spread_defaults_is_Some|].
  split; [by apply spread_defaults_is_Some|]. done.
Qed.

(** X23: a setting that was set and persisted is read back after a
    restart. When the write of [setShowTimestamps] reaches AsyncStorage,
    and the text written is what AsyncStorage returns to the fresh
    process and what [JSON.parse] turns back into the object that was
    written, then [getShowTimestamps] after [loadUserPreferences] is the
    value set; the same holds for [setWelcomeCompleted]. *)
Theorem setting_survives_restart
    (s : State W) (key : jsstring) (value : bool) (w1 w2 : W) :
  let merged := spread (userPreferences (svc s)) {[ key := VBool value ]} in
  let text := JSON_stringify (VObj merged) in
  text <> [] ->
  AsyncStorage_raced_setItem (js "user_preferences") text 5000 (world s)
    = (Ok tt, w1) ->
  AsyncStorage_raced_getItem (js "user_preferences") 5000 w1
    = (Ok (Some text), w2) ->
  JSON_parse text = Ok (VObj merged) ->
  (key = js "showTimestamps" ->
   world (setShowTimestamps value s).2 = w1
   /\ (getShowTimestamps (loadUserPreferences (freshProcess w1)).2).1
      = Ok (VBool value))
  /\ (key = js "welcomeCompleted" ->
      world (setWelcomeCompleted value s).2 = w1
      /\ (getWelcomeCompleted (loadUserPreferences (freshProcess w1)).2).1
         = Ok (VBool value)).
Proof.
  intros merged text Hne Hset Hget Hparse.
  assert (userPreferences (svc (loadUserPreferences (freshProcess w1)).2)
          = spread DEFAULT_PREFERENCES merged) as Hload.
  { unfold loadUserPreferences, freshProcess, tryCatch, bind,
      asyncStorageWithTimeout_getItem, call, assign. cbn -[js].
    rewrite Hget. destruct text as [|c t] eqn:Et; [done|].
    by rewrite Hparse. }
  assert (spread DEFAULT_PREFERENCES merged !! key = Some (VBool value))
    as Hkey.
  { apply spread_lookup_r. subst merged. apply spread_lookup_r.
    apply lookup_singleton_eq. }
  split; intros ->; (split;
    [ unfold setShowTimestamps, setWelcomeCompleted, saveUserPreferences,
        tryCatch, bind, this, assign, asyncStorageWithTimeout_setItem, call;
      cbn -[js]; fold merged; fold text; by rewrite Hset
    | unfold getShowTimestamps, getWelcomeCompleted, bind, this, ret, property;
      cbn -[js]; by rewrite Hload, Hkey ]).
Qed.

End PreferencesMore.

(** ** The order of the notes *)

Section NotesOrder.
Context {W : Type} `{Host W}.

Lemma keeps_cache_insert {B} (k : jsstring) (l : list NotePreview)
    (rest : M W B) :
  previewsNewestFirst l ->
  keeps cachedListingsInOrder rest ->
  keeps cachedListingsInOrder
    (do cache' <- this notesCache;
     assign (set_notesCache (<[k := l]> cache'));;
     rest).
Proof.
  intros Hl Hrest s Hs. unfold bind, this, assign. cbn. apply Hrest. cbn.
  intros k' l'. cbn. destruct (decide (k' = k)) as [->|Hk].
  - rewrite lookup_insert_eq. by intros [= <-].
  - rewrite lookup_insert_ne by done. apply Hs.
Qed.

(** Every listing the cache holds was sorted when it was put there; no
    method puts another one in. *)
Lemma perform_keeps_cachedListingsInOrder (c : Call) (s : State W) :
  cachedListingsInOrder (svc s) -> cachedListingsInOrder (svc (perform c s)).
Proof.
  revert s.
  destruct c; cbn [perform];
    match goal with
    | |- forall s, _ -> cachedListingsInOrder (svc (?m s).2) =>
        change (keeps cachedListingsInOrder m)
    end;
    unfold_methods;
    repeat first
      [ apply keeps_cache_insert; [exact (sort_byUpdatedDesc _ _)|]
      | apply keeps_assign; intros ? ?; first [assumption | by intros ? ?]
      | keeps_step
      | progress unfold_methods ].
Qed.

Lemma reachable_cachedListingsInOrder (s : State W) :
  Reachable s -> cachedListingsInOrder (svc s).
Proof.
  induction 1 as [w|c s _ IH|s w _ IH]; cbn.
  - by intros k l.
  - by apply perform_keeps_cachedListingsInOrder.
  - done.
Qed.

Lemma yields_ret {A} (P : Service -> Prop) (a : A) (Q : A -> Prop) :
  Q a -> yields (W := W) P (ret a) Q.
Proof. by intros Ha s a' s' _ [= <- <-]. Qed.

Lemma yields_bind {A B} (P : Service -> Prop) (m : M W A) (k : A -> M W B)
    (Q : B -> Prop) :
  keeps P m -> (forall a, yields P (k a) Q) -> yields P (bind m k) Q.
Proof.
  intros Hm Hk s b s' Hs (a & s1 & E & Ek)%bind_ok_inv.
  eapply Hk; [|exact Ek]. specialize (Hm s Hs). by rewrite E in Hm.
Qed.

Lemma yields_bind_this {A B} (P : Service -> Prop) (g : Service -> A)
    (k : A -> M W B) (Q : B -> Prop) :
  (forall v, P v -> yields P (k (g v)) Q) -> yields P (bind (this g) k) Q.
Proof.
  intros Hk s b s' Hs E. unfold bind, this in E. by eapply Hk.
Qed.

Lemma yields_tryCatch {A} (P : Service -> Prop) (m : M W A)
    (h : Exn -> M W A) (Q : A -> Prop) :
  yields P m Q -> (forall e, returns (h e) Q) -> yields P (tryCatch m h) Q.
Proof.
  intros Hm Hh s a s' Hs. unfold tryCatch.
  destruct (m s) as [[a'|e] s1] eqn:E.
  - intros [= <- <-]. by eapply Hm.
  - by apply Hh.
Qed.

Lemma returns_yields {A} (P : Service -> Prop) (m : M W A) (Q : A -> Prop) :
  returns m Q -> yields P m Q.
Proof. intros Hm s a s' _. apply Hm. Qed.

Lemma listSAFNotesFromBackend_sorted directoryUri cacheKey :
  returns (W := W) (listSAFNotesFromBackend directoryUri cacheKey)
    previewsNewestFirst.
Proof.
  unfold listSAFNotesFromBackend.
  repeat first
    [ apply returns_ret;
      first [exact (sort_byUpdatedDesc _ _) | intros _; constructor]
    | returns_step ].
Qed.

Lemma listFileSystemNotesFromBackend_sorted currentDir cacheKey :
  returns (W := W) (listFileSystemNotesFromBackend currentDir cacheKey)
    previewsNewestFirst.
Proof.
  unfold listFileSystemNotesFromBackend.
  repeat first
    [ apply returns_ret;
      first [exact (sort_byUpdatedDesc _ _) | intros _; constructor]
    | returns_step ].
Qed.

Lemma keeps_isCacheValid (P : Service -> Prop) : keeps (W := W) P isCacheValid.
Proof. unfold isCacheValid, dateNow. keeps_auto. Qed.

(** X24: on the file backends the notes of [getAllNotes] are in
    descending order of [updatedAt] whenever the [updatedAt] of each of
    them is a valid Date, in every state of a process, whether the
    listing is read from the backend or answered from the cache, and for
    the empty listing an error leaves as well. With an Invalid Date among
    them the comparator returns NaN and the order is not determined. *)
Theorem getAllNotes_newest_first
    (s s' : State W) (l : list NotePreview) :
  isWeb = false ->
  Reachable s ->
  getAllNotes s = (Ok l, s') ->
  Forall (fun p => validTime (np_updatedAt p)) l ->
  StronglySorted (fun a b => np_updatedAt b <= np_updatedAt a) l.
Proof.
  intros Hweb Hreach%reachable_cachedListingsInOrder. revert l s' Hreach.
  enough (yields cachedListingsInOrder getAllNotes previewsNewestFirst)
    as Hy by (intros l s' Hs E; exact (Hy _ _ _ Hs E)).
  unfold getAllNotes. rewrite Hweb.
  apply yields_bind.
  { unfold_methods.
    repeat first
      [ apply keeps_assign; intros ? ?; assumption | keeps_step ]. }
  intros _. apply yields_bind.
  { unfold_methods. keeps_auto. }
  intros _. apply yields_bind_this. intros v _.
  apply yields_tryCatch.
  2: { intros e. apply returns_bind. intros _. apply returns_ret.
       intros _. constructor. }
  destruct (JS.startsWith _ _).
  - unfold getSAFNotes. cbv zeta.
    apply yields_bind; [apply keeps_isCacheValid|]. intros valid.
    apply yields_bind_this. intros v' Hv'.
    destruct valid; [|apply returns_yields, listSAFNotesFromBackend_sorted].
    destruct (notesCache v' !! _) as [cached|] eqn:Ec;
      [|apply returns_yields, listSAFNotesFromBackend_sorted].
    apply yields_ret. by eapply Hv'.
  - unfold getFileSystemNotes. cbv zeta.
    apply yields_bind; [apply keeps_isCacheValid|]. intros valid.
    apply yields_bind_this. intros v' Hv'.
    destruct valid;
      [|apply returns_yields, listFileSystemNotesFromBackend_sorted].
    destruct (notesCache v' !! _) as [cached|] eqn:Ec;
      [|apply returns_yields, listFileSystemNotesFromBackend_sorted].
    apply yields_ret. by eapply Hv'.
Qed.

End NotesOrder.

(** ** The items of a listing of the plain backend *)

Lemma endsWith_inv (s p : jsstring) :
  JS.endsWith s p = true -> exists stem, s = stem ++ p.
Proof.
  unfold JS.endsWith. intros E%bool_decide_eq_true_1.
  exists (take (length s - length p) s).
  rewrite <- (take_drop (length s - length p) s) at 1. by rewrite E.
Qed.

Lemma startsWith_md_snoc (s : jsstring) :
  JS.startsWith s (js ".md") = false ->
  s <> [] ->
  JS.startsWith (s ++ js ".md") (js ".md") = false.
Proof.
  unfold JS.startsWith. intros E%bool_decide_eq_false_1 Hne.
  apply bool_decide_eq_false_2. intros E'. apply E. clear E.
  destruct s as [|a [|b [|c s]]]; [done|..]; cbn in *;
    first [discriminate E' | exact E'].
Qed.

(** [file.replace('.md', '')] gives the stem back when the stem holds no
    [.md] of its own. *)
Lemma removeFirst_md_stem (stem : jsstring) :
  JS.includes stem (js ".md") = false ->
  JS.removeFirst (js ".md") (stem ++ js ".md") = stem.
Proof.
  induction stem as [|c r IH]; [done|].
  intros Hinc. cbn [JS.includes] in Hinc.
  apply orb_false_iff in Hinc as [Hhere Hrest].
  change ((c :: r) ++ js ".md") with (c :: (r ++ js ".md")).
  cbn [JS.removeFirst].
  change (c :: (r ++ js ".md")) with ((c :: r) ++ js ".md").
  rewrite startsWith_md_snoc by done.
  f_equal. by apply IH.
Qed.

Section ListingItems.
Context {W : Type} `{Host W}.

Lemma returns_mapM_catOptions {A B} (f : A -> M W (option B))
    (Q : B -> Prop) (l : list A) :
  (forall x, x ∈ l -> returns (f x) (fun r => forall y, r = Some y -> Q y)) ->
  returns (mapM f l) (fun rs => Forall Q (catOptions rs)).
Proof.
  induction l as [|x l IH]; intros Hf; simpl.
  - apply returns_ret. constructor.
  - intros s rs s' (y & s1 & Ey & E)%bind_ok_inv.
    apply bind_ok_inv in E as (ys & s2 & Eys & [= <- <-]).
    assert (Forall Q (catOptions ys)) as Hys.
    { eapply IH; [|exact Eys]. intros z Hz. apply Hf. by right. }
    unfold catOptions in *. cbn. destruct y as [y|]; [|done].
    constructor; [|done]. eapply Hf; [by left|exact Ey|done].
Qed.

Lemma returns_weaken {A} (m : M W A) (Q Q' : A -> Prop) :
  (forall a, Q a -> Q' a) -> returns m Q -> returns m Q'.
Proof. intros HQ Hm s a s' E. apply HQ. by eapply Hm. Qed.

Lemma returns_bind_both {A B} (m : M W A) (k : A -> M W B)
    (Q : A -> Prop) (Q' : B -> Prop) :
  returns m Q -> (forall a, Q a -> returns (k a) Q') -> returns (bind m k) Q'.
Proof.
  intros Hm Hk s b s' (a & s1 & E & Ek)%bind_ok_inv.
  eapply Hk; [|exact Ek]. by eapply Hm.
Qed.

Lemma processRegularFiles_items files currentDir :
  returns (W := W) (processRegularFiles files currentDir)
    (fun r => Forall (plainFolder currentDir) r.1
              /\ Forall (fun file => JS.endsWith file (js ".md") = true) r.2).
Proof.
  unfold processRegularFiles. cbv zeta.
  eapply returns_bind_both.
  - apply (returns_mapM_catOptions _ (plainFolder currentDir)).
    intros file [Hfile _]%list_elem_of_filter.
    repeat first
      [ apply returns_ret; intros y [= <-];
        split; [symmetry; apply app_assoc|];
        cbn [fo_name]; by destruct (JS.endsWith file (js ".md"))
      | by apply returns_ret
      | returns_step ].
  - intros folders Hfolders. apply returns_ret. split; [done|].
    apply Forall_forall. by intros file [Hmd _]%list_elem_of_filter.
Qed.

Lemma getFileSystemDirectoryContents_items currentDir rootPath :
  returns (W := W) (getFileSystemDirectoryContents currentDir rootPath)
    (fun dc => Forall (plainFolder currentDir) (folders dc)
               /\ Forall (plainNote currentDir) (notes dc)).
Proof.
  unfold getFileSystemDirectoryContents.
  apply returns_tryCatch.
  2: { intros e. apply returns_bind. intros _. apply returns_ret.
       by split; constructor. }
  apply returns_bind. intros files.
  eapply returns_bind_both; [apply processRegularFiles_items|].
  intros [folders markdownFiles] [Hfolders Hfiles]. cbn in Hfolders, Hfiles.
  unfold processMarkdownFiles.
  eapply returns_bind_both.
  { eapply returns_bind_both.
    - apply (returns_mapM_catOptions _ (plainNote currentDir)).
      intros file Hfile.
      assert (JS.endsWith file (js ".md") = true) as Hmd.
      { by apply (proj1 (Forall_forall _ _) Hfiles). }
      destruct (endsWith_inv _ _ Hmd) as [stem ->].
      repeat first
        [ apply returns_ret; intros y [= <-]; exists stem;
          split; [done|]; cbn; apply removeFirst_md_stem
        | returns_step ].
    - intros rs Hrs. apply returns_ret. exact Hrs. }
  intros notes Hnotes. apply returns_ret. unfold buildDirectoryContents. cbn.
  split.
  - eapply Permutation_Forall; [symmetry; apply sort_Permutation|done].
  - eapply Permutation_Forall; [symmetry; apply sort_Permutation|done].
Qed.

(** X25: the items of a listing of the plain backend. For a directory
    that is no content URI, every folder [getDirectoryContents] lists has
    as path the directory, the name of the folder and a closing
    separator, and a name that does not end in [.md]; every note has as
    path the directory and a file name that ends in [.md], and as
    filename the file name without that ending, provided the rest holds
    no [.md] of its own: it is the first [.md] that [replace] removes. *)
Theorem getDirectoryContents_plain_items
    (directoryPath : option jsstring) (s s' : State W)
    (dc : DirectoryContents) :
  isWeb = false ->
  JS.startsWith (currentPath dc) (js "content://") = false ->
  getDirectoryContents directoryPath s = (Ok dc, s') ->
  Forall (fun f => fo_path f = currentPath dc ++ fo_name f ++ js "/"
                   /\ JS.endsWith (fo_name f) (js ".md") = false)
    (folders dc)
  /\ Forall (fun n => exists stem,
                 ni_filePath n = currentPath dc ++ stem ++ js ".md"
                 /\ (JS.includes stem (js ".md") = false ->
                     ni_filename n = stem))
       (notes dc).
Proof.
  intros Hweb Hplain E.
  destruct (getDirectoryContents_listingAt _ _ _ _ E) as [Hcur _].
  rewrite Hcur in Hplain |- *. clear Hcur. revert E.
  unfold getDirectoryContents.
  intros (cur & s1 & [= <- <-] & E)%bind_ok_inv. cbv zeta in E.
  apply bind_ok_inv in E as (root & s2 & [= <- <-] & E).
  apply bind_ok_inv in E as (? & s3 & _ & E).
  apply bind_ok_inv in E as (? & s4 & _ & E).
  rewrite Hweb, Hplain in E.
  set (target := orElse (default [] directoryPath)
                   (getCurrentDirectory (svc s))) in *.
  match type of E with
  | ?m _ = _ =>
      assert (returns m (fun dc => Forall (plainFolder target) (folders dc)
                                   /\ Forall (plainNote target) (notes dc)))
        as Hr
  end; [|exact (Hr _ _ _ E)].
  apply returns_tryCatch.
  - apply getFileSystemDirectoryContents_items.
  - intros e. apply returns_bind. intros _. apply returns_ret.
    by split; constructor.
Qed.

End ListingItems.

(** ** The notes of the web platform, listed *)

Section WebListing.
Context {W : Type} `{WebStore W}.

(** X26: on the web platform [getAllNotes] always returns, and the notes
    it returns are the entries of the storage in the order of the
    storage: they are not sorted by [updatedAt], unlike the notes of the
    file backends and unlike the notes of [getDirectoryContents]. *)
Theorem getAllNotes_web_storage_order (s : State W) :
  isWeb = true ->
  exists l s',
    getAllNotes s = (Ok l, s')
    /\ (fun p => (np_filename p, np_updatedAt p)) <$> l
       = (fun e => (w_filename e, w_updatedAt e))
           <$> entriesOf (stored (world s)).
Proof.
  intros Hweb. unfold getAllNotes.
  destruct (loadDirectoryPreference_web s Hweb) as (s1 & E1 & Hw1).
  rewrite (bind_ok _ _ _ _ _ E1).
  unfold ensureDirectoryExists. rewrite Hweb.
  rewrite (bind_ok _ _ s1 tt s1) by done.
  unfold getWebNotes.
  destruct (web_getItem (world s1)) as [Hget _].
  unfold bind at 1, call. destruct (localStorage_getItem (world s1)) as [r w1].
  cbn in Hget. subst r. rewrite Hw1.
  destruct (stored (world s)) as [[| | |l]|];
    unfold parsedEntries, tryCatch, bind, throw, ret; cbn;
    (eexists; eexists; split; [reflexivity|]); [done..| |done].
  by rewrite <- !list_fmap_compose.
Qed.

End WebListing.

Section Picker.
Context {W : Type} `{Host W}.

(** X27: [selectCustomDirectory] never rejects. Off Android it returns
    null and touches nothing. When it returns a URI, that URI is not
    empty, it is the root of the notes from then on, the preference
    counts as loaded and the cache is cleared; when it returns null,
    because the picker was left or failed, the service is as before. *)
Theorem selectCustomDirectory_effect (s : State W) :
  exists r s',
    selectCustomDirectory s = (Ok r, s')
    /\ (Platform_OS <> Android -> r = None /\ s' = s)
    /\ (forall uri,
           r = Some uri ->
           uri <> []
           /\ getNotesDirectory (svc s') = uri
           /\ directoryPreferenceCache (svc s') = Preference uri
           /\ cacheCleared (svc s'))
    /\ (r = None -> svc s' = svc s).
Proof.
  unfold selectCustomDirectory.
  destruct (bool_decide (Platform_OS = Android)) eqn:Hos; cbn [negb].
  2: { apply bool_decide_eq_false_1 in Hos. eexists _, _.
       split; [reflexivity|]. by repeat split. }
  apply bool_decide_eq_true_1 in Hos.
  unfold tryCatch, bind at 1, call at 1.
  destruct (saf_openDocumentTree (world s)) as [[[[|c uri]|]|e] w1]; cbn.
  1,3,4: eexists _, _; (split; [reflexivity|]); repeat split; try done;
         by intros [].
  destruct (setCustomDirectory_returns (c :: uri)
              (mkState (svc s) w1 (console s)))
    as (s2 & E2 & Hdir & Hpref & Hcache).
  unfold bind. rewrite E2. cbn.
  eexists _, _. split; [reflexivity|]. split; [by intros []|].
  split; [|done]. by intros ? [= <-].
Qed.

End Picker.

(** ** A rename whose write fails *)

Section FailedRename.
Context {W : Type} `{ReliableStore W}.

(** X30: a rename on a file backend is not atomic. The old entry is
    deleted before the new one is written: when the save of a renamed
    note is rejected after the directory check, on a store whose failed
    writes change nothing, the store is the store before without the
    entry of the old filename. The content is then under neither
    filename, unless the new one held an entry before. *)
Theorem failed_rename_loses_the_note
    (note : Note) (oldFilename folderPath : option jsstring) (old : jsstring)
    (s s' : State W) (e : Exn) :
  isWeb = false ->
  renamedFrom note oldFilename = Some old ->
  (forall p c w e' w',
      FileSystem_writeAsStringAsync p c w = (Throw e', w') ->
      entries w' = entries w) ->
  (forall p c w e' w',
      saf_writeFile p c w = (Throw e', w') -> entries w' = entries w) ->
  (ensureDirectoryExists s).1 = Ok tt ->
  saveNote note oldFilename folderPath s = (Throw e, s') ->
  entries (world s')
  = delete (locatorOf (targetDirOf (getNotesDirectory (svc s)) folderPath) old)
      (entries (world s)).
Proof.
  intros Hweb Hold Hwrite Hsaf Hdir. rewrite saveNote_native by done.
  destruct (ensureDirectoryExists s) as [[[]|e0] s1] eqn:E1; [|done].
  destruct (ensureDirectoryExists_effect _ _ _ E1) as [Hs1 He1]. cbv zeta.
  destruct (removeOldEntry_ok note oldFilename folderPath s1) as (s2 & E2).
  rewrite E2.
  pose proof (removeOldEntry_effect _ _ _ _ _ _ Hweb E2) as He2.
  rewrite Hold in He2.
  destruct (writeEntry _ note s2) as [[[]|e3] s3] eqn:E3; [done|].
  intros [= <- <-]. cbn.
  assert (entries (world s3) = entries (world s2)) as He3.
  { revert E3. unfold writeEntry, call.
    destruct (JS.startsWith _ _).
    - destruct (saf_writeFile _ _ (world s2)) as [[[]|e4] w3] eqn:E4; [done|].
      intros [= <- <-]. cbn. by eapply Hsaf.
    - destruct (FileSystem_writeAsStringAsync _ _ (world s2))
        as [[[]|e4] w3] eqn:E4; [done|].
      intros [= <- <-]. cbn. by eapply Hwrite. }
  by rewrite He3, He2, Hs1, He1.
Qed.

End FailedRename.

(** ** Further instances of the reference host *)

#[global] Instance Ref_web (os : Platform) (faults : bool) :
  @WebStore RefWorld (Ref.host os faults).
Proof.
  refine {| stored := rw_local |}.
  - done.
  - done.
  - done.
Defined.

#[global] Instance writeProtected_store (os : Platform) :
  @FileStore RefWorld (Cases.writeProtected os).
Proof.
  refine {| entries := fun w => fst <$> rw_files w |}; cbn.
  - done.
  - intros p w. unfold Ref.getInfoAsync.
    by destruct (rw_dirs w !! _), (rw_files w !! p) as [[]|].
  - done.
  - intros p w. unfold Ref.read. by destruct (rw_files w !! p) as [[]|].
  - intros p c w w'. unfold Ref.write. destruct (_ && _); [done|].
    intros [= <-]. cbn. by rewrite fmap_insert.
  - intros p w w'. unfold Ref.remove. cbn.
    destruct (rw_files w !! p); [|done].
    intros [= <-]. cbn. by rewrite fmap_delete.
  - intros p w. unfold Ref.read. by destruct (rw_files w !! p) as [[]|].
  - intros p w. unfold Ref.stat.
    by destruct (rw_files w !! p) as [[]|], (rw_dirs w !! p).
  - intros p c w w'. unfold Ref.write. destruct (_ && _); [done|].
    intros [= <-]. cbn. by rewrite fmap_insert.
  - intros p w w'. unfold Ref.unlink, Ref.remove. cbn.
    destruct (rw_files w !! p); [|done].
    intros [= <-]. cbn. by rewrite fmap_delete.
Defined.

#[global] Instance writeProtected_reliable (os : Platform) :
  @ReliableStore RefWorld (Cases.writeProtected os) (writeProtected_store os).
Proof.
  split; cbn.
  - intros p e w w'. unfold Ref.remove. cbn.
    destruct (rw_files w !! p) eqn:E; [done|].
    intros [= _ <-]. by rewrite lookup_fmap, E.
  - intros p r w w'. unfold Ref.unlink, Ref.remove. cbn.
    destruct (rw_files w !! p) eqn:E; [by intros [= <- _]|].
    intros [= _ <-] _. by rewrite lookup_fmap, E.
  - intros p c w. rewrite lookup_fmap. unfold Ref.read.
    by destruct (rw_files w !! p) as [[]|]; intros [= <-].
  - intros p w. unfold Ref.getInfoAsync.
    destruct (rw_dirs w !! _), (rw_files w !! p) as [[]|]; by eexists.
  - intros p c w. rewrite lookup_fmap. unfold Ref.read.
    by destruct (rw_files w !! p) as [[]|]; intros [= <-].
  - intros p c w. rewrite lookup_fmap. unfold Ref.stat.
    destruct (rw_files w !! p) as [[]|]; [|done]. intros _. by eexists.
Qed.

(** ** The further properties on concrete inputs *)

(** X1 at work: the characters of the pattern go, the run of spaces is
    one space, the dots at the end go; a title of nothing else is
    Untitled. *)
Lemma sanitizeFilename_safe_witness :
  sanitizeFilename (js "My: Note?  v2...") = js "My Note v2"
  /\ sanitizeFilename (js "<>:?*...") = js "Untitled"
  /\ sanitizeFilename (js "My: Note?  v2...") <> [].
Proof.
  split; [reflexivity|]. split; [reflexivity|].
  apply (sanitizeFilename_safe (js "My: Note?  v2...")).
Defined.

(** X3 at work, on the handle of the picker. *)
Lemma getParentPath_handle_child_witness :
  JS.startsWith Cases.tree (js "content://") = true
  /\ (JS.slash ∉ js "sub")
  /\ getParentPath (Cases.tree ++ js "/" ++ js "sub") Cases.tree
     = Some Cases.tree.
Proof.
  assert (JS.slash ∉ js "sub") as Hname by decide_by_compute.
  split; [reflexivity|]. split; [exact Hname|].
  apply getParentPath_handle_child; [reflexivity|exact Hname].
Defined.

(** X4 at work, on a folder of the directory of the app. *)
Lemma getParentPath_plain_child_witness :
  getParentPath (js "file:///data/Notes" ++ js "/" ++ js "sub")
    (js "file:///data/Notes" ++ js "/")
  = Some (js "file:///data/Notes" ++ js "/").
Proof.
  apply getParentPath_plain_child; [reflexivity|decide_by_compute|done].
Defined.

(** X5 at work: AsyncStorage never settles, the directory is set all the
    same and the failure is one line on the console. *)
Lemma setCustomDirectory_effect_witness :
  let h := Ref.host Android false in
  let s0 := Ref.start Android Sample.hangingWorld in
  exists s1,
    @setCustomDirectory _ h Cases.tree s0 = (Ok tt, s1)
    /\ getNotesDirectory (svc s1) = Cases.tree
    /\ length (console s1) = 1%nat.
Proof.
  intros h s0.
  destruct (@setCustomDirectory_effect _ h Cases.tree s0)
    as (s1 & E & Hdir & _).
  exists s1. split; [exact E|]. split; [exact Hdir|].
  assert (s1 = (@setCustomDirectory _ h Cases.tree s0).2) as ->
    by by rewrite E.
  vm_compute. reflexivity.
Defined.

(** X7 at work: the handle is persisted, and a fresh process has it as
    root after the load. *)
Lemma directory_preference_survives_restart_witness :
  let h := Ref.host Android false in
  let s0 := Ref.start Android (Ref.emptyWorld 0) in
  let w1 := world (@setCustomDirectory _ h Cases.tree s0).2 in
  rw_async w1 !! js "notes_directory_preference" = Some Cases.tree
  /\ getNotesDirectory (svc (@loadDirectoryPreference _ h (freshProcess w1)).2)
     = Cases.tree.
Proof.
  intros h s0 w1.
  split; [vm_compute; reflexivity|].
  apply (@directory_preference_survives_restart _ h Cases.tree s0 w1 w1).
  - reflexivity.
  - done.
  - vm_compute; reflexivity.
  - vm_compute; reflexivity.
Defined.

(** X8 at work: nothing is stored, the root is the directory of the app. *)
Lemma loadDirectoryPreference_falls_back_witness :
  let h := Ref.host Android false in
  let w := Ref.emptyWorld 0 in
  getNotesDirectory (svc (@loadDirectoryPreference _ h (freshProcess w)).2)
  = js "file:///data/Notes/".
Proof.
  intros h w.
  apply (@loadDirectoryPreference_falls_back _ h w).
  - reflexivity.
  - intros c d w'. vm_compute. discriminate.
Defined.

(** X10 at work: the handle of the primary storage reads as its folder. *)
Lemma location_after_setCustomDirectory_witness :
  let h := Ref.host Android false in
  let s0 := Ref.start Android (Ref.emptyWorld 0) in
  ((@setCustomDirectory _ h Cases.tree;; @getStorageLocationInfo _ h) s0).1
  = Ok (js "Notes", LocCustom)
  /\ ((@setCustomDirectory _ h [];; @getStorageLocationInfo _ h) s0).1
     = Ok (js "App Documents Folder", LocApp).
Proof.
  intros h s0.
  destruct (@location_after_setCustomDirectory _ h) as (Hcustom & Happ & _).
  split.
  - rewrite (Hcustom Cases.tree s0); [|reflexivity|reflexivity|].
    + vm_compute. reflexivity.
    + vm_compute. discriminate.
  - apply Happ. reflexivity.
Defined.

(** X11 at work. A fresh process with a persisted handle lists the
    directory of the app at its first call, because the target is read
    before the preference is loaded; afterwards the handle is the root.
    A folder of the handle has the handle as parent. *)
Lemma getDirectoryContents_paths_witness :
  let h := Ref.host Android false in
  let w1 := world (@setCustomDirectory _ h Cases.tree
                     (Ref.start Android Cases.safWorld)).2 in
  let first := @getDirectoryContents _ h None (freshProcess w1) in
  let r := @getDirectoryContents _ h (Some (Cases.tree ++ js "/sub"))
             (Ref.start Android Cases.safWorld) in
  (exists dc,
      first.1 = Ok dc
      /\ currentPath dc = js "file:///data/Notes/"
      /\ parentPath dc = None
      /\ getNotesDirectory (svc first.2) = Cases.tree)
  /\ (exists dc,
         r.1 = Ok dc
         /\ currentPath dc = Cases.tree ++ js "/sub"
         /\ parentPath dc = Some Cases.tree).
Proof.
  intros h w1 first r. split.
  - result_of first (mkDirectoryContents [] [] [] None) E.
    exists a. split; [by rewrite E|].
    destruct (@getDirectoryContents_paths _ h None _ _ a E)
      as (Hcur & Hparent & _).
    split; [rewrite Hcur; vm_compute; reflexivity|].
    split; [rewrite Hparent by reflexivity; vm_compute; reflexivity|].
    vm_compute. reflexivity.
  - result_of r (mkDirectoryContents [] [] [] None) E.
    exists a. split; [by rewrite E|].
    destruct (@getDirectoryContents_paths _ h _ _ _ a E)
      as (Hcur & Hparent & _).
    split; [rewrite Hcur; vm_compute; reflexivity|].
    rewrite Hparent by reflexivity. vm_compute. reflexivity.
Defined.

(** X12 at work: at the root there is no way up. *)
Lemma navigation_paths_witness :
  let h := Ref.host Ios false in
  let s0 := Ref.start Ios Sample.world in
  let root := @navigateToRoot _ h s0 in
  let up := @navigateToParent _ h s0 in
  (exists dc,
      root.1 = Ok dc
      /\ currentPath dc = Sample.root /\ parentPath dc = None)
  /\ up.1 = Ok None.
Proof.
  intros h s0 root up.
  destruct (@navigation_paths _ h) as (Hroot & _ & Hparent).
  split.
  - result_of root (mkDirectoryContents [] [] [] None) E.
    exists a. split; [by rewrite E|].
    destruct (Hroot s0 _ a E) as (Hcur & Hp & _). by split.
  - result_of up (@None DirectoryContents) E.
    destruct (Hparent s0 _ a eq_refl E) as [Hr _]. by rewrite E, Hr.
Defined.

(** X13 at work: two entries, two notes, no folder. *)
Lemma getDirectoryContents_web_witness :
  let h := Ref.host Web false in
  let s0 := Ref.start Web Cases.webWorld in
  exists dc s1,
    @getDirectoryContents _ h None s0 = (Ok dc, s1)
    /\ folders dc = []
    /\ Permutation (ni_filename <$> notes dc) [js "first"; js "second"].
Proof.
  intros h s0.
  destruct (@getDirectoryContents_web _ h None s0
              (Some (TextEntries [Cases.first; Cases.second])) Cases.webWorld
              eq_refl eq_refl) as (dc & s1 & E & Hfolders & _ & Hnotes).
  by exists dc, s1.
Defined.

(** X15 at work: the store refuses to create the directory of the app;
    the two listings reject with that error, [getNote] returns. *)
Lemma reads_reject_only_with_the_directory_check_witness :
  let h := Ref.host Ios true in
  let s0 := Ref.start Ios Cases.lockedWorld in
  (@getAllNotes _ h s0).1 = Throw Ref.denied
  /\ (@getDirectoryContents _ h None s0).1 = Throw Ref.denied
  /\ exists r s1, @getNote _ h (js "b") None s0 = (Ok r, s1).
Proof.
  intros h s0.
  destruct (@reads_reject_only_with_the_directory_check _ h eq_refl)
    as (Hnote & Hall & Hdc).
  split; [|split].
  - apply Hall. vm_compute. reflexivity.
  - apply Hdc. vm_compute. reflexivity.
  - apply Hnote.
Defined.

(** X16 at work: after a listing the note is read once; a second later the
    store is empty and the note is returned all the same. *)
Lemma getNote_answers_from_cache_witness :
  let h := Ref.host Ios false in
  let s := (@getAllNotes _ h (Ref.start Ios Sample.world)).2 in
  let r := @getNote _ h (js "b") None s in
  let later := mkState (svc r.2) (Ref.emptyWorld 1700000001000) [] in
  exists n,
    r.1 = Ok (Some n)
    /\ content n = js "b"
    /\ rw_files (world later) = ∅
    /\ (@getNote _ h (js "b") None later).1 = Ok (Some n).
Proof.
  intros h s r later.
  pose (n := match r.1 with Ok (Some x) => x | _ => Sample.todo end).
  assert (r.1 = Ok (Some n)) as E1 by (vm_compute; reflexivity).
  pose proof (run_result r _ E1) as E.
  exists n. split; [exact E1|]. split; [vm_compute; reflexivity|].
  split; [reflexivity|].
  unfold later.
  rewrite (@getNote_answers_from_cache _ h (js "b") None s r.2 n
             (Ref.emptyWorld 1700000001000) [] eq_refl E);
    [reflexivity|].
  vm_compute. reflexivity.
Defined.

(** X17 at work: the note of the root is the answer for a folder named
    root that does not exist. *)
Lemma getNote_confuses_notes_witness :
  let h := Ref.host Ios false in
  let s := (@getAllNotes _ h (Ref.start Ios Sample.world)).2 in
  let r := @getNote _ h (js "b") None s in
  let later := mkState (svc r.2) (Ref.emptyWorld 1700000001000) [] in
  exists n,
    r.1 = Ok (Some n)
    /\ filePath n = Sample.root ++ js "b.md"
    /\ (@getNote _ h (js "b") (Some (js "root")) later).1 = Ok (Some n).
Proof.
  intros h s r later.
  pose (n := match r.1 with Ok (Some x) => x | _ => Sample.todo end).
  assert (r.1 = Ok (Some n)) as E1 by (vm_compute; reflexivity).
  pose proof (run_result r _ E1) as E.
  exists n. split; [exact E1|]. split; [vm_compute; reflexivity|].
  assert ((Date_now (Ref.emptyWorld 1700000001000)).1 - lastCacheUpdate (svc s)
          < cacheValidityDuration (svc s)) as Hvalid
    by (vm_compute; reflexivity).
  destruct (@getNote_confuses_notes _ h s r.2 n
              (Ref.emptyWorld 1700000001000) [] eq_refl Hvalid)
    as [Hroot _].
  by apply Hroot.
Defined.

(** X18 at work: the entry is gone, the other one is there. *)
Lemma deleteNote_effect_witness :
  let h := Ref.host Ios false in
  let s0 := Ref.start Ios Sample.world in
  let r := @deleteNote _ h (js "b") None s0 in
  @entries _ h _ (world r.2) !! (Sample.root ++ js "b.md") = None
  /\ @entries _ h _ (world r.2) !! (Sample.root ++ js "old.md")
     = Some (js "# old").
Proof.
  intros h s0 r.
  destruct (@deleteNote_effect _ h _ _ (js "b") None s0 r.2 r.1 eq_refl
              (surjective_pairing r)) as [Heff _].
  rewrite Heff. split; vm_compute; reflexivity.
Defined.

(** X19 at work: a rename moves the entry and leaves the other one. *)
Lemma saveNote_effect_witness :
  let h := Ref.host Ios false in
  let s0 := Ref.start Ios Sample.world in
  let r := @saveNote _ h Sample.renamed (Some (js "old")) None s0 in
  r.1 = Ok tt
  /\ @entries _ h _ (world r.2) !! (Sample.root ++ js "new.md")
     = Some (js "# new")
  /\ @entries _ h _ (world r.2) !! (Sample.root ++ js "old.md") = None
  /\ @entries _ h _ (world r.2) !! (Sample.root ++ js "b.md") = Some (js "b").
Proof.
  intros h s0 r.
  assert (r.1 = Ok tt) as E1 by (vm_compute; reflexivity).
  pose proof (run_result r _ E1) as E.
  split; [exact E1|].
  pose proof (@saveNote_effect _ h _ _ Sample.renamed (Some (js "old")) None
                s0 r.2 eq_refl E) as Heff.
  cbv zeta in Heff. rewrite Heff. repeat split; vm_compute; reflexivity.
Defined.

(** X20 at work: the entry of the filename is replaced in its place; the
    old filename given is ignored and its entry stays. *)
Lemma saveNote_web_upsert_witness :
  let h := Ref.host Web false in
  let s0 := Ref.start Web Cases.webWorld in
  let r := @saveNote _ h Cases.changed (Some (js "second")) None s0 in
  exists l,
    rw_local (world r.2) = Some (TextEntries l)
    /\ w_filename <$> l = [js "first"; js "second"]
    /\ l !! 1%nat = Some Cases.second.
Proof.
  intros h s0 r.
  assert (r.1 = Ok tt) as E1 by (vm_compute; reflexivity).
  pose proof (run_result r _ E1) as E.
  destruct (@saveNote_web_upsert _ h _ Cases.changed (Some (js "second")) None
              s0 r.2 eq_refl E) as (l & Hstored & Hnames & Hkept & _).
  exists l. split; [exact Hstored|]. split.
  - rewrite Hnames. vm_compute. reflexivity.
  - apply Hkept; [reflexivity|]. vm_compute. discriminate.
Defined.

(** X21 at work: the entry named first is still there after its
    deletion. *)
Lemma deleteNote_web_keeps_entries_without_id_witness :
  let h := Ref.host Web false in
  let s0 := Ref.start Web Cases.webWorld in
  let r := @deleteNote _ h (js "first") None s0 in
  r.1 = Ok tt
  /\ rw_local (world r.2) = Some (TextEntries [Cases.first; Cases.second]).
Proof.
  intros h s0 r.
  assert (Forall (fun e => w_id e = None) [Cases.first; Cases.second])
    as Hnone by (by repeat constructor).
  exact (@deleteNote_web_keeps_entries_without_id _ h _ (js "first") None
           s0 r.2 r.1 [Cases.first; Cases.second] eq_refl eq_refl Hnone
           (surjective_pairing r)).
Defined.

(** X23 at work, with the JSON codec of the reference host. *)
Lemma setting_survives_restart_witness :
  let h := Ref.host Ios false in
  let s0 := Ref.start Ios (Ref.emptyWorld 0) in
  let w1 := world (@setShowTimestamps _ h false s0).2 in
  (getShowTimestamps (@loadUserPreferences _ h (freshProcess w1)).2).1
  = Ok (VBool false).
Proof.
  intros h s0 w1.
  destruct (@setting_survives_restart _ h s0 (js "showTimestamps") false
              w1 w1) as [Hshow _].
  - vm_compute. discriminate.
  - vm_compute. reflexivity.
  - vm_compute. reflexivity.
  - vm_compute. reflexivity.
  - by destruct (Hshow eq_refl).
Defined.

(** X24 at work: the second listing is answered from the cache. *)
Lemma getAllNotes_newest_first_witness :
  let h := Ref.host Ios false in
  let s := @perform _ h CallGetAllNotes (Ref.start Ios Sample.world) in
  let r := @getAllNotes _ h s in
  exists l,
    r.1 = Ok l
    /\ np_filename <$> l = [js "b"; js "old"]
    /\ StronglySorted (fun a b => np_updatedAt b <= np_updatedAt a) l.
Proof.
  intros h s r.
  result_of r (@nil NotePreview) E.
  exists a. split; [by rewrite E|]. split; [vm_compute; reflexivity|].
  apply (@getAllNotes_newest_first _ h s r.2 a eq_refl); [|exact E|].
  - apply (@reach_call _ h CallGetAllNotes), reach_start.
  - apply validTimes_check. vm_compute. reflexivity.
Defined.

(** X25 at work: the folder path closes with the separator; the file
    x.mdy.md is listed under the filename xy.md, which is not the stem of
    its file name. *)
Lemma getDirectoryContents_plain_items_witness :
  let h := Ref.host Ios false in
  let s0 := Ref.start Ios Cases.plainWorld in
  let r := @getDirectoryContents _ h None s0 in
  exists dc,
    r.1 = Ok dc
    /\ fo_path <$> folders dc = [Sample.root ++ js "sub/"]
    /\ ni_filePath <$> notes dc
       = [Sample.root ++ js "b.md"; Sample.root ++ js "x.mdy.md"]
    /\ ni_filename <$> notes dc = [js "b"; js "xy.md"]
    /\ Forall (fun f => fo_path f = currentPath dc ++ fo_name f ++ js "/"
                        /\ JS.endsWith (fo_name f) (js ".md") = false)
         (folders dc).
Proof.
  intros h s0 r.
  result_of r (mkDirectoryContents [] [] [] None) E.
  exists a. split; [by rewrite E|].
  split; [vm_compute; reflexivity|]. split; [vm_compute; reflexivity|].
  split; [vm_compute; reflexivity|].
  apply (@getDirectoryContents_plain_items _ h None s0 r.2 a eq_refl);
    [vm_compute; reflexivity|exact E].
Defined.

(** X26 at work: the older entry comes first. *)
Lemma getAllNotes_web_storage_order_witness :
  let h := Ref.host Web false in
  let s0 := Ref.start Web Cases.webWorld in
  exists l s1,
    @getAllNotes _ h s0 = (Ok l, s1)
    /\ np_updatedAt <$> l = [1000; 2000].
Proof.
  intros h s0.
  destruct (@getAllNotes_web_storage_order _ h _ s0 eq_refl)
    as (l & s1 & E & Horder).
  exists l, s1. split; [exact E|].
  apply (f_equal (fmap snd)) in Horder.
  by rewrite <- !list_fmap_compose in Horder.
Defined.

(** X28 at work. *)
Lemma getNote_after_saveNote_native_witness :
  let h := Ref.host Ios false in
  let s0 := Ref.start Ios Sample.world in
  let r := @saveNote _ h Sample.todo None None s0 in
  r.1 = Ok tt
  /\ exists n s2,
       @getNote _ h (js "todo") None r.2 = (Ok (Some n), s2)
       /\ content n = js "# buy milk".
Proof.
  intros h s0 r.
  assert (r.1 = Ok tt) as E1 by (vm_compute; reflexivity).
  split; [exact E1|].
  apply (@getNote_after_saveNote_native _ h _ _ Sample.todo None None s0 r.2
           eq_refl (run_result r _ E1)).
Defined.

(** X29 at work: AsyncStorage never settles, the preferences are the
    defaults. *)
Lemma loadUserPreferences_defaults_witness :
  let h := Ref.host Ios false in
  let s0 := Ref.start Ios Sample.hangingWorld in
  (@loadUserPreferences _ h s0).1 = Ok tt
  /\ userPreferences (svc (@loadUserPreferences _ h s0).2)
     = DEFAULT_PREFERENCES.
Proof.
  intros h s0.
  apply (@loadUserPreferences_defaults _ h s0).
  intros payload parsed w' E. vm_compute in E. discriminate E.
Defined.

(** X30 at work: the store has no room for the new file; the save is
    rejected, and the old entry is gone. *)
Lemma failed_rename_loses_the_note_witness :
  let h := Cases.writeProtected Ios in
  let s0 := mkState (@newService _ h) Cases.fullWorld [] in
  let r := @saveNote _ h Sample.renamed (Some (js "old")) None s0 in
  r.1 = Throw Ref.denied
  /\ @entries _ h _ (world s0) !! (Sample.root ++ js "old.md")
     = Some (js "# old")
  /\ @entries _ h _ (world r.2) !! (Sample.root ++ js "old.md") = None
  /\ @entries _ h _ (world r.2) !! (Sample.root ++ js "new.md") = None.
Proof.
  intros h s0 r.
  assert (r.1 = Throw Ref.denied) as E1 by (vm_compute; reflexivity).
  split; [exact E1|]. split; [vm_compute; reflexivity|].
  assert (forall p c w e' w',
             Ref.write true p c w = (Throw e', w') ->
             fst <$> rw_files w' = fst <$> rw_files w) as Hwrite.
  { intros p c w e' w'. unfold Ref.write.
    destruct (_ && _); [by intros [= _ <-]|done]. }
  pose proof (@failed_rename_loses_the_note _ h _ _ Sample.renamed
                (Some (js "old")) None (js "old") s0 r.2 Ref.denied
                eq_refl eq_refl Hwrite Hwrite eq_refl (run_result r _ E1))
    as Heff.
  rewrite Heff. split; vm_compute; reflexivity.
Defined.
